(** * XSafe content script: scanning-and-concealment engine

    A shallow embedding of the [XSafeContentFilter] class of the XSafe
    browser extension, in the three revisions of the content script
    that the repository keeps side by side:

    - the placeholder revision (placeholders inserted before hidden
      elements, classifier without exception handling);
    - the direct-hiding revision ([display] and [visibility] are both
      overwritten, no placeholder);
    - the granular revision (direct hiding, classifier wrapped in
      [try]/[catch]).

    JavaScript objects are records, the [Set] of concealed elements and
    the [Map] used as classification cache are insertion-ordered lists,
    exceptions are explicit results, and the page (the DOM) is a store
    of element objects indexed by node identity.  [Date.now()] is an
    argument of every entry point that reads the clock, and the clock
    does not advance while one entry point runs.

    The host's selector engine is a function of the page
    ([querySelectorAll]); console output, the timing of a scan with
    [performance.now()], the answer sent through [sendResponse] and the
    inline style text of a placeholder carry no state and are left
    out.

    Beside the scans, the development covers the pass the mutation
    observer triggers in the placeholder revision ([scanNewContent]),
    the events of an instance over its lifetime, the disabling of the
    direct-hiding revision, [debounce], the [PerformanceTracker] of the
    first revision of the content script, and the intensity slider and
    the allow-list button of the popup.  A [NodeList] is the list of
    nodes the selector engine answered when it was asked; the timers
    of [debounce] are a table of the host.

    Limits of the page model.  A string is a sequence of code units
    below 256.  The [outerHTML] of an element is the text the page
    gave it: the engine's own writes to a style or an attribute do not
    show in it.  The bounding box of an element follows the [display]
    of the element itself, not that of its ancestors.  The root
    element of the document is the first element the selector engine
    answers for the universal selector. *)

From Stdlib Require Import String Ascii List ZArith Bool Arith Lia.
From Stdlib Require Import DecimalString DecimalNat.
Import ListNotations.
Local Open Scope string_scope.
Local Open Scope list_scope.

(* ================================================================= *)
(** ** JavaScript values, exceptions, strings *)

Module JS.

(** The values a duck-typed property read may produce. *)
Inductive JSVal : Type :=
| JUndefined
| JNull
| JStr (s : string)
| JNum (n : Z).

Definition JSVal_eqb (a b : JSVal) : bool :=
  match a, b with
  | JUndefined, JUndefined => true
  | JNull, JNull => true
  | JStr s, JStr t => String.eqb s t
  | JNum n, JNum m => Z.eqb n m
  | _, _ => false
  end.

(** [ToBoolean]. *)
Definition truthy (v : JSVal) : bool :=
  match v with
  | JUndefined | JNull => false
  | JStr s => negb (String.eqb s "")
  | JNum n => negb (Z.eqb n 0)
  end.

Inductive JSError : Type :=
| TypeError (what : string)
| HostError (what : string).

(** Completion of an expression: a value, or a thrown exception. *)
Inductive Res (A : Type) : Type :=
| Ok (a : A)
| Throw (e : JSError).
Arguments Ok {A} a.
Arguments Throw {A} e.

Definition isThrow {A} (r : Res A) : bool :=
  match r with Ok _ => false | Throw _ => true end.

(** [hay.includes(needle)]. *)
Fixpoint includes (needle hay : string) : bool :=
  if prefix needle hay then true
  else match hay with
       | EmptyString => false
       | String _ rest => includes needle rest
       end.

(** [toLowerCase] on the ASCII range. *)
Definition lower_ascii (c : ascii) : ascii :=
  let n := nat_of_ascii c in
  if andb (Nat.leb 65 n) (Nat.leb n 90) then ascii_of_nat (n + 32) else c.

Fixpoint toLowerCase (s : string) : string :=
  match s with
  | EmptyString => EmptyString
  | String c rest => String (lower_ascii c) (toLowerCase rest)
  end.

(** [a || b] on strings: the empty string is the only falsy one. *)
Definition str_or (a b : string) : string :=
  if String.eqb a "" then b else a.

(** [l.includes(x)] on an array of strings. *)
Definition arr_includes (x : string) (l : list string) : bool :=
  existsb (String.eqb x) l.

(** *** [Map]: insertion-ordered, keys compared by [SameValueZero] *)

Definition JSMap (V : Type) : Type := list (JSVal * V).

Fixpoint map_get {V} (k : JSVal) (m : JSMap V) : option V :=
  match m with
  | [] => None
  | (k', v) :: rest => if JSVal_eqb k k' then Some v else map_get k rest
  end.

Definition map_has {V} (k : JSVal) (m : JSMap V) : bool :=
  match map_get k m with Some _ => true | None => false end.

(** [set] keeps the position of an existing key and appends a new one. *)
Fixpoint map_set {V} (k : JSVal) (v : V) (m : JSMap V) : JSMap V :=
  match m with
  | [] => [(k, v)]
  | (k', v') :: rest =>
      if JSVal_eqb k k' then (k', v) :: rest else (k', v') :: map_set k v rest
  end.

Fixpoint map_delete {V} (k : JSVal) (m : JSMap V) : JSMap V :=
  match m with
  | [] => []
  | (k', v') :: rest =>
      if JSVal_eqb k k' then rest else (k', v') :: map_delete k rest
  end.

Definition map_size {V} (m : JSMap V) : nat := length m.

(** [m.keys().next().value]: the oldest key, [undefined] on an empty map. *)
Definition map_first_key {V} (m : JSMap V) : JSVal :=
  match m with
  | [] => JUndefined
  | (k, _) :: _ => k
  end.

(** *** [Set] of object references: insertion-ordered *)

Definition JSSet : Type := list nat.

Definition set_has (x : nat) (s : JSSet) : bool := existsb (Nat.eqb x) s.

Definition set_add (x : nat) (s : JSSet) : JSSet :=
  if set_has x s then s else s ++ [x].

Fixpoint set_delete (x : nat) (s : JSSet) : JSSet :=
  match s with
  | [] => []
  | y :: rest => if Nat.eqb x y then rest else y :: set_delete x rest
  end.

Definition set_size (s : JSSet) : nat := length s.

End JS.
Import JS.

(* ================================================================= *)
(** ** The page: element objects and settings *)

(** Identity of a DOM node (a reference to the element object). *)
Definition node : Type := nat.

Record DOMRect : Type := mkRect { width : Z; height : Z }.

(** The object stored in [element._xsafeData]. *)
Record OriginalData : Type := mkOriginalData {
  od_element : node;
  od_type : string;
  originalDisplay : string;
  originalVisibility : string;
  originalParent : option node;
  od_elementId : option string
}.

(** The [div] built by [createPlaceholder]. [ph_attached] tells whether
    it currently sits in the document. *)
Record Placeholder : Type := mkPlaceholder {
  ph_className : string;
  ph_width : Z;
  ph_height : Z;
  ph_revealBtn : bool;
  ph_attached : bool
}.

(** An element object as the content script sees it.  Reads that go
    through a method call are fallible; [src] and [outerHTML] are plain
    property reads.  Lengths are in layout units.  What the host
    answers for the geometry of an element may depend on the value of
    its [display] at the time of the read (a hidden element has an
    empty box): [layoutBox], [layoutWidth] and [layoutHeight] take that
    value. *)
Record Element : Type := mkElement {
  tagName : string;
  src : JSVal;
  outerHTML : JSVal;
  getAttribute : string -> Res JSVal;
  layoutBox : string -> Res (option DOMRect);
  layoutWidth : string -> Z;
  layoutHeight : string -> Z;
  parentNode : option node;
  style_display : string;
  style_visibility : string;
  data_xsafe_id : option string;
  data_xsafe_container_child : bool;
  xsafeData : option OriginalData;
  xsafePlaceholder : option Placeholder
}.

(** [element.getBoundingClientRect()] *)
Definition getBoundingClientRect (el : Element) : Res (option DOMRect) :=
  layoutBox el (style_display el).

(** [element.offsetWidth] and [element.offsetHeight] *)
Definition offsetWidth (el : Element) : Z := layoutWidth el (style_display el).

Definition offsetHeight (el : Element) : Z := layoutHeight el (style_display el).

(* ================================================================= *)
(** ** Node classifier: [isUIElement] *)

Module Classifier.

Definition Cache : Type := JSMap bool.

(** [element.src || element.outerHTML.substring(0, 100)] *)
Definition cacheKey (el : Element) : Res JSVal :=
  if truthy (src el) then Ok (src el)
  else match outerHTML el with
       | JStr s => Ok (JStr (substring 0 100 s))
       | _ => Throw (TypeError "outerHTML.substring")
       end.

(** [this.uiElementCache.set(cacheKey, isUI)] followed by the size
    limit: above 500 entries the oldest key is deleted. *)
Definition cacheInsert (key : JSVal) (isUI : bool) (cache : Cache) : Cache :=
  let cache1 := map_set key isUI cache in
  if Nat.ltb 500 (map_size cache1)
  then map_delete (map_first_key cache1) cache1
  else cache1.

(** [v?.includes(needle)], read as a condition. *)
Definition opt_includes (v : JSVal) (needle : string) : Res bool :=
  match v with
  | JUndefined | JNull => Ok false
  | JStr s => Ok (includes needle s)
  | JNum _ => Throw (TypeError "includes is not a function")
  end.

(** [v?.toLowerCase().includes(needle)], read as a condition. *)
Definition opt_lower_includes (v : JSVal) (needle : string) : Res bool :=
  match v with
  | JUndefined | JNull => Ok false
  | JStr s => Ok (includes needle (toLowerCase s))
  | JNum _ => Throw (TypeError "toLowerCase is not a function")
  end.

Definition rbind {A B} (r : Res A) (f : A -> Res B) : Res B :=
  match r with Ok a => f a | Throw e => Throw e end.

Notation "x <- r ;;; k" := (rbind r (fun x => k))
  (at level 61, r at next level, right associativity).

(** Small-icon threshold of the size check. *)
Definition smallIcon (rect : DOMRect) : bool :=
  andb (width rect <? 80)%Z (height rect <? 80)%Z.

(** *** Placeholder and direct-hiding revisions *)

(** The statements between the cache lookup and the cache insertion:
    the marker test with optional chaining, else the size test. *)
Definition computeIsUI (el : Element) : Res bool :=
  t <- getAttribute el "data-testid" ;;;
  m1 <- opt_includes t "avatar" ;;;
  if m1 then Ok true else
  a <- getAttribute el "alt" ;;;
  m2 <- opt_lower_includes a "avatar" ;;;
  if m2 then Ok true else
  a' <- getAttribute el "alt" ;;;
  m3 <- opt_lower_includes a' "profile" ;;;
  if m3 then Ok true else
  r <- getBoundingClientRect el ;;;
  match r with
  | None => Throw (TypeError "rect.width")
  | Some rect => Ok (smallIcon rect)
  end.

Definition isUIElement (el : Element) (cache : Cache) : Res bool * Cache :=
  match cacheKey el with
  | Throw e => (Throw e, cache)
  | Ok key =>
      match map_get key cache with
      | Some cached => (Ok cached, cache)
      | None =>
          match computeIsUI el with
          | Throw e => (Throw e, cache)
          | Ok isUI => (Ok isUI, cacheInsert key isUI cache)
          end
      end
  end.

(** *** Granular revision: the body after the cache lookup is a [try] *)

(** [v && v.includes(needle)] *)
Definition and_includes (v : JSVal) (needle : string) : Res bool :=
  if truthy v then
    match v with
    | JStr s => Ok (includes needle s)
    | _ => Throw (TypeError "includes is not a function")
    end
  else Ok false.

(** [v && typeof v === 'string' && v.toLowerCase().includes(needle)] *)
Definition and_string_lower_includes (v : JSVal) (needle : string) : bool :=
  if truthy v then
    match v with
    | JStr s => includes needle (toLowerCase s)
    | _ => false
    end
  else false.

(** The statements of the [try] block up to the cache insertion. *)
Definition computeIsUI_try (el : Element) : Res bool :=
  dataTestId <- getAttribute el "data-testid" ;;;
  altText <- getAttribute el "alt" ;;;
  m1 <- and_includes dataTestId "avatar" ;;;
  if orb m1 (orb (and_string_lower_includes altText "avatar")
                 (and_string_lower_includes altText "profile"))
  then Ok true
  else
    r <- getBoundingClientRect el ;;;
    match r with
    | None => Ok false
    | Some rect => Ok (smallIcon rect)
    end.

Definition isUIElement_safe (el : Element) (cache : Cache) : Res bool * Cache :=
  match cacheKey el with
  | Throw e => (Throw e, cache)
  | Ok key =>
      match map_get key cache with
      | Some cached => (Ok cached, cache)
      | None =>
          match computeIsUI_try el with
          | Throw _ => (Ok false, cache)
          | Ok isUI => (Ok isUI, cacheInsert key isUI cache)
          end
      end
  end.

End Classifier.

(* ================================================================= *)
(** ** Engine state and the page it runs on *)

(** The settings object delivered by the background script. *)
Record Settings : Type := mkSettings {
  enabled : bool;
  filterMode : string;
  intensityLevel : string;
  whitelistedDomains : list string;
  blacklistedDomains : list string;
  showPlaceholders : bool;
  showClickToReveal : bool
}.

(** The fields of the [XSafeContentFilter] instance, followed by the
    part of the page the instance reads and writes.  [getAttribute] of
    an element answers for the attributes the page author wrote; the
    attributes the engine itself sets are the [data_xsafe_*] fields.
    [querySelectorAll] is the document's selector engine, and
    [descendants] the tree below a node.  The selectors of the scans
    test tag names, page-written attributes and ancestors only, and a
    placeholder holds no [img], [video] or [iframe]: what the engine
    writes does not change the answers of [querySelectorAll], so they
    are a function of the selector alone.  In particular a hidden
    element is still matched. *)
Record World : Type := mkWorld {
  settings : option Settings;
  filteredElements : JSSet;
  isFiltering : bool;
  uiElementCache : Classifier.Cache;
  maxFilteredElements : nat;
  lastScanTime : Z;
  scanCooldown : Z;
  elementCounter : nat;
  mutationObserver : bool;
  periodicScanInterval : bool;
  stylesInjected : bool;
  dom : node -> Element;
  hostname : string;
  querySelectorAll : string -> list node;
  descendants : node -> list node
}.

Definition with_settings (s : option Settings) (w : World) : World :=
  mkWorld s (filteredElements w) (isFiltering w) (uiElementCache w)
    (maxFilteredElements w) (lastScanTime w) (scanCooldown w)
    (elementCounter w) (mutationObserver w) (periodicScanInterval w)
    (stylesInjected w) (dom w) (hostname w) (querySelectorAll w)
    (descendants w).

Definition with_filteredElements (f : JSSet) (w : World) : World :=
  mkWorld (settings w) f (isFiltering w) (uiElementCache w)
    (maxFilteredElements w) (lastScanTime w) (scanCooldown w)
    (elementCounter w) (mutationObserver w) (periodicScanInterval w)
    (stylesInjected w) (dom w) (hostname w) (querySelectorAll w)
    (descendants w).

Definition with_isFiltering (b : bool) (w : World) : World :=
  mkWorld (settings w) (filteredElements w) b (uiElementCache w)
    (maxFilteredElements w) (lastScanTime w) (scanCooldown w)
    (elementCounter w) (mutationObserver w) (periodicScanInterval w)
    (stylesInjected w) (dom w) (hostname w) (querySelectorAll w)
    (descendants w).

Definition with_uiElementCache (c : Classifier.Cache) (w : World) : World :=
  mkWorld (settings w) (filteredElements w) (isFiltering w) c
    (maxFilteredElements w) (lastScanTime w) (scanCooldown w)
    (elementCounter w) (mutationObserver w) (periodicScanInterval w)
    (stylesInjected w) (dom w) (hostname w) (querySelectorAll w)
    (descendants w).

Definition with_lastScanTime (t : Z) (w : World) : World :=
  mkWorld (settings w) (filteredElements w) (isFiltering w) (uiElementCache w)
    (maxFilteredElements w) t (scanCooldown w)
    (elementCounter w) (mutationObserver w) (periodicScanInterval w)
    (stylesInjected w) (dom w) (hostname w) (querySelectorAll w)
    (descendants w).

Definition with_elementCounter (n : nat) (w : World) : World :=
  mkWorld (settings w) (filteredElements w) (isFiltering w) (uiElementCache w)
    (maxFilteredElements w) (lastScanTime w) (scanCooldown w)
    n (mutationObserver w) (periodicScanInterval w)
    (stylesInjected w) (dom w) (hostname w) (querySelectorAll w)
    (descendants w).

Definition with_mutationObserver (b : bool) (w : World) : World :=
  mkWorld (settings w) (filteredElements w) (isFiltering w) (uiElementCache w)
    (maxFilteredElements w) (lastScanTime w) (scanCooldown w)
    (elementCounter w) b (periodicScanInterval w)
    (stylesInjected w) (dom w) (hostname w) (querySelectorAll w)
    (descendants w).

Definition with_periodicScanInterval (b : bool) (w : World) : World :=
  mkWorld (settings w) (filteredElements w) (isFiltering w) (uiElementCache w)
    (maxFilteredElements w) (lastScanTime w) (scanCooldown w)
    (elementCounter w) (mutationObserver w) b
    (stylesInjected w) (dom w) (hostname w) (querySelectorAll w)
    (descendants w).

Definition with_stylesInjected (b : bool) (w : World) : World :=
  mkWorld (settings w) (filteredElements w) (isFiltering w) (uiElementCache w)
    (maxFilteredElements w) (lastScanTime w) (scanCooldown w)
    (elementCounter w) (mutationObserver w) (periodicScanInterval w)
    b (dom w) (hostname w) (querySelectorAll w)
    (descendants w).

Definition with_dom (d : node -> Element) (w : World) : World :=
  mkWorld (settings w) (filteredElements w) (isFiltering w) (uiElementCache w)
    (maxFilteredElements w) (lastScanTime w) (scanCooldown w)
    (elementCounter w) (mutationObserver w) (periodicScanInterval w)
    (stylesInjected w) d (hostname w) (querySelectorAll w)
    (descendants w).

(** Assignment to the fields of one element object. *)
Definition upd (d : node -> Element) (e : node) (f : Element -> Element)
  : node -> Element :=
  fun n => if Nat.eqb n e then f (d n) else d n.

Definition el_with_display (v : string) (el : Element) : Element :=
  mkElement (tagName el) (src el) (outerHTML el) (getAttribute el)
    (layoutBox el) (layoutWidth el) (layoutHeight el)
    (parentNode el) v (style_visibility el) (data_xsafe_id el)
    (data_xsafe_container_child el) (xsafeData el) (xsafePlaceholder el).

Definition el_with_visibility (v : string) (el : Element) : Element :=
  mkElement (tagName el) (src el) (outerHTML el) (getAttribute el)
    (layoutBox el) (layoutWidth el) (layoutHeight el)
    (parentNode el) (style_display el) v (data_xsafe_id el)
    (data_xsafe_container_child el) (xsafeData el) (xsafePlaceholder el).

Definition el_with_xsafe_id (v : option string) (el : Element) : Element :=
  mkElement (tagName el) (src el) (outerHTML el) (getAttribute el)
    (layoutBox el) (layoutWidth el) (layoutHeight el)
    (parentNode el) (style_display el) (style_visibility el) v
    (data_xsafe_container_child el) (xsafeData el) (xsafePlaceholder el).

Definition el_with_container_child (v : bool) (el : Element) : Element :=
  mkElement (tagName el) (src el) (outerHTML el) (getAttribute el)
    (layoutBox el) (layoutWidth el) (layoutHeight el)
    (parentNode el) (style_display el) (style_visibility el)
    (data_xsafe_id el) v (xsafeData el) (xsafePlaceholder el).

Definition el_with_xsafeData (v : option OriginalData) (el : Element) : Element :=
  mkElement (tagName el) (src el) (outerHTML el) (getAttribute el)
    (layoutBox el) (layoutWidth el) (layoutHeight el)
    (parentNode el) (style_display el) (style_visibility el)
    (data_xsafe_id el) (data_xsafe_container_child el) v
    (xsafePlaceholder el).

Definition el_with_xsafePlaceholder (v : option Placeholder) (el : Element)
  : Element :=
  mkElement (tagName el) (src el) (outerHTML el) (getAttribute el)
    (layoutBox el) (layoutWidth el) (layoutHeight el)
    (parentNode el) (style_display el) (style_visibility el)
    (data_xsafe_id el) (data_xsafe_container_child el) (xsafeData el) v.

(** [placeholder.remove()] *)
Definition ph_remove (p : Placeholder) : Placeholder :=
  mkPlaceholder (ph_className p) (ph_width p) (ph_height p)
    (ph_revealBtn p) false.

(** [parent.insertBefore(placeholder, element)] *)
Definition ph_insert (p : Placeholder) : Placeholder :=
  mkPlaceholder (ph_className p) (ph_width p) (ph_height p)
    (ph_revealBtn p) true.

(* ================================================================= *)
(** ** Methods as state transformers that may throw *)

(** A method body: it runs on a world and leaves a world, also when it
    throws (what was assigned before the exception stays assigned). *)
Definition M (A : Type) : Type := World -> Res A * World.

Definition ret {A} (a : A) : M A := fun w => (Ok a, w).

Definition bind {A B} (m : M A) (f : A -> M B) : M B :=
  fun w => match m w with
           | (Ok a, w') => f a w'
           | (Throw e, w') => (Throw e, w')
           end.

Definition throw {A} (e : JSError) : M A := fun w => (Throw e, w).

Definition gets {A} (f : World -> A) : M A := fun w => (Ok (f w), w).

Definition modify (f : World -> World) : M unit := fun w => (Ok tt, f w).

Definition lift {A} (r : Res A) : M A := fun w => (r, w).

Notation "x <- m ;; k" := (bind m (fun x => k))
  (at level 61, m at next level, right associativity).
Notation "m ;; k" := (bind m (fun _ => k))
  (at level 61, right associativity).

Definition when (b : bool) (m : M unit) : M unit :=
  if b then m else ret tt.

(** [list.forEach(f)]: an exception leaves the loop. *)
Fixpoint forEach {X} (l : list X) (f : X -> M unit) : M unit :=
  match l with
  | [] => ret tt
  | x :: rest => f x ;; forEach rest f
  end.

(** A read of [this.settings.<field>]: a [TypeError] while
    [this.settings] is still [null]. *)
Definition theSettings : M Settings :=
  fun w => match settings w with
           | Some s => (Ok s, w)
           | None => (Throw (TypeError "this.settings is null"), w)
           end.

Definition element (e : node) : M Element := gets (fun w => dom w e).

Definition assign (e : node) (f : Element -> Element) : M unit :=
  modify (fun w => with_dom (upd (dom w) e f) w).

(** [array.join(', ')] *)
Fixpoint join (sep : string) (l : list string) : string :=
  match l with
  | [] => ""
  | [x] => x
  | x :: rest => (x ++ sep ++ join sep rest)%string
  end.

(* ================================================================= *)
(** ** Methods shared by the revisions *)

Module Engine.

(** [canScan()] with [Date.now() = now]. *)
Definition canScan (now : Z) : M bool :=
  lst <- gets lastScanTime ;;
  cd <- gets scanCooldown ;;
  if (now - lst <? cd)%Z then ret false else ret true.

Definition isWhitelisted (e : node) : M bool :=
  domain <- gets hostname ;;
  s <- theSettings ;;
  ret (arr_includes domain (whitelistedDomains s)).

Definition isBlacklisted (e : node) : M bool :=
  domain <- gets hostname ;;
  s <- theSettings ;;
  ret (arr_includes domain (blacklistedDomains s)).

Definition shouldFilter (e : node) (type : string) : M bool :=
  s <- theSettings ;;
  if String.eqb (intensityLevel s) "permissive" then ret false
  else
    b <- isBlacklisted e ;;
    if b then ret true
    else ret true.

Definition shouldFilterVideos : M bool :=
  s <- theSettings ;;
  ret (arr_includes (filterMode s) ["videos"; "both"]).

Definition shouldFilterImages : M bool :=
  s <- theSettings ;;
  ret (arr_includes (filterMode s) ["images"; "both"]).

(** [this.isUIElement(element)] of the placeholder and direct-hiding
    revisions, on the instance's cache. *)
Definition isUIElement (e : node) : M bool :=
  fun w =>
    let (r, c) := Classifier.isUIElement (dom w e) (uiElementCache w) in
    (r, with_uiElementCache c w).

End Engine.

(* ================================================================= *)
(** ** Placeholder revision *)

Module PlaceholderRev.
Import Engine.

(** [a || b || 300] on lengths. *)
Definition len_or (a b c : Z) : Z :=
  if (a =? 0)%Z then (if (b =? 0)%Z then c else b) else a.

(** [createPlaceholder(element, type)]: the [div] is built but not yet
    inserted.  The inline style text and the button's hover listeners
    carry no state the engine reads back. *)
Definition createPlaceholder (e : node) (type : string) : M Placeholder :=
  el <- element e ;;
  r <- lift (getBoundingClientRect el) ;;
  match r with
  | None => throw (TypeError "rect.width")
  | Some rect =>
      s <- theSettings ;;
      ret (mkPlaceholder
             ("xsafe-placeholder xsafe-" ++ type ++ "-placeholder")%string
             (len_or (width rect) (offsetWidth el) 300)
             (len_or (height rect) (offsetHeight el) 200)
             (showClickToReveal s)
             false)
  end.

(** Whether [e] is the root element of the document: the first element
    the selector engine answers for the universal selector.  The parent
    of the root element is the Document, which takes no second element
    child. *)
Definition isDocumentElement (e : node) (w : World) : bool :=
  match querySelectorAll w "*" with
  | root :: _ => Nat.eqb root e
  | [] => false
  end.

(** [parentNode.insertBefore(placeholder, element)] throws when the
    element has no parent, and when its parent is the Document; nothing
    has been assigned by then. *)
Definition replaceElement (e : node) (type : string) : M unit :=
  el <- element e ;;
  let originalData :=
    mkOriginalData e type (style_display el) (style_visibility el)
      (parentNode el) None in
  placeholder <- createPlaceholder e type ;;
  s <- theSettings ;;
  placeholder' <-
    (if showPlaceholders s then
       match parentNode el with
       | None => throw (TypeError "element.parentNode is null")
       | Some _ =>
           root <- gets (isDocumentElement e) ;;
           if root then throw (HostError "HierarchyRequestError")
           else
             assign e (el_with_display "none") ;;
             ret (ph_insert placeholder)
       end
     else
       assign e (el_with_display "none") ;;
       ret placeholder) ;;
  modify (fun w => with_filteredElements (set_add e (filteredElements w)) w) ;;
  assign e (el_with_xsafeData (Some originalData)) ;;
  assign e (el_with_xsafePlaceholder (Some placeholder')).

(** [element._xsafePlaceholder.remove()] when the field is set. *)
Definition removePlaceholder (e : node) : M unit :=
  el <- element e ;;
  match xsafePlaceholder el with
  | Some p => assign e (el_with_xsafePlaceholder (Some (ph_remove p)))
  | None => ret tt
  end.

Definition revealElement (e : node) : M unit :=
  removePlaceholder e ;;
  el <- element e ;;
  match xsafeData el with
  | None => throw (TypeError "element._xsafeData is undefined")
  | Some d =>
      assign e (el_with_display (originalDisplay d)) ;;
      modify (fun w => with_filteredElements (set_delete e (filteredElements w)) w)
  end.

Definition restoreAllElements : M unit :=
  elements <- gets filteredElements ;;
  forEach elements revealElement ;;
  modify (with_filteredElements []).

Definition filterVideo (e : node) : M unit :=
  wl <- isWhitelisted e ;;
  has <- gets (fun w => set_has e (filteredElements w)) ;;
  if orb wl has then ret tt
  else
    sf <- shouldFilter e "video" ;;
    when sf (replaceElement e "video").

Definition filterImage (e : node) : M unit :=
  wl <- isWhitelisted e ;;
  has <- gets (fun w => set_has e (filteredElements w)) ;;
  if orb wl has then ret tt
  else
    sf <- shouldFilter e "image" ;;
    when sf (replaceElement e "image").

(** The loop visits the oldest [elementsToRemove] members in insertion
    order; each is deleted right after its visit, so the live iterator
    yields them one after the other. *)
Definition limitFilteredElements : M unit :=
  elements <- gets filteredElements ;;
  maxN <- gets maxFilteredElements ;;
  if Nat.ltb maxN (set_size elements) then
    let elementsToRemove := set_size elements - maxN in
    forEach (firstn elementsToRemove elements) (fun e =>
      removePlaceholder e ;;
      modify (fun w => with_filteredElements (set_delete e (filteredElements w)) w))
  else ret tt.

(** A quoted attribute value inside a selector. *)
Definition q (s : string) : string :=
  (String (ascii_of_nat 34) s ++ String (ascii_of_nat 34) EmptyString)%string.

Definition videoSelector : string :=
  join ", "
    [ "video";
      "[data-testid=" ++ q "videoPlayer" ++ "]";
      "[data-testid=" ++ q "videoComponent" ++ "]";
      "iframe[src*=" ++ q "youtube" ++ "], iframe[src*=" ++ q "youtu.be"
        ++ "], iframe[src*=" ++ q "vimeo" ++ "]" ]%string.

Definition imageSelector : string :=
  join ", "
    [ "[data-testid=" ++ q "tweetPhoto" ++ "] img";
      "[data-testid=" ++ q "media" ++ "] img";
      "[data-testid=" ++ q "card.layoutLarge.media" ++ "] img";
      "[data-testid=" ++ q "card.layoutSmall.media" ++ "] img";
      "article [data-testid=" ++ q "cellInnerDiv" ++ "] img[src*="
        ++ q "pbs.twimg.com" ++ "]";
      "article [data-testid=" ++ q "cellInnerDiv" ++ "] img[src*="
        ++ q "ton.twimg.com" ++ "]";
      "a[href*=" ++ q "/photo/" ++ "] img" ]%string.

Definition scanForVideos : M unit :=
  elements <- gets (fun w => querySelectorAll w videoSelector) ;;
  forEach elements filterVideo.

Definition scanForImages : M unit :=
  elements <- gets (fun w => querySelectorAll w imageSelector) ;;
  forEach elements (fun e =>
    ui <- isUIElement e ;;
    when (negb ui) (filterImage e)).

Definition scanExistingContent (now : Z) : M unit :=
  lst <- gets lastScanTime ;;
  cd <- gets scanCooldown ;;
  if (now - lst <? cd)%Z then ret tt
  else
    modify (with_lastScanTime now) ;;
    limitFilteredElements ;;
    sv <- shouldFilterVideos ;;
    when sv scanForVideos ;;
    si <- shouldFilterImages ;;
    when si scanForImages.

(** The statements of [scanExistingContent] after the cooldown test:
    the scan an admitted request runs at [now]. *)
Definition scanPasses (now : Z) : M unit :=
  modify (with_lastScanTime now) ;;
  limitFilteredElements ;;
  sv <- shouldFilterVideos ;;
  when sv scanForVideos ;;
  si <- shouldFilterImages ;;
  when si scanForImages.

Definition setupObservers : M unit := modify (with_mutationObserver true).

Definition injectPlaceholderCSS : M unit := modify (with_stylesInjected true).

Definition setupPeriodicScanning : M unit :=
  modify (with_periodicScanInterval true).

(** The callback of [setInterval], fired at [now]. *)
Definition periodicTick (now : Z) : M unit :=
  fun w =>
    match settings w with
    | Some s =>
        if enabled s then
          (ok <- canScan now ;; when ok (scanExistingContent now)) w
        else (Ok tt, w)
    | None => (Ok tt, w)
    end.

Definition startFiltering (now : Z) : M unit :=
  running <- gets isFiltering ;;
  if running then scanExistingContent now
  else
    modify (with_isFiltering true) ;;
    scanExistingContent now ;;
    setupObservers ;;
    injectPlaceholderCSS ;;
    setupPeriodicScanning.

Definition cleanup : M unit :=
  modify (with_filteredElements []) ;;
  modify (with_uiElementCache []).

(** [this.observer] is never assigned in this revision, so only the
    mutation observer and the interval are released. *)
Definition stopFiltering : M unit :=
  modify (with_isFiltering false) ;;
  modify (with_mutationObserver false) ;;
  modify (with_periodicScanInterval false) ;;
  restoreAllElements ;;
  cleanup.

Definition startIfEnabled (now : Z) : M unit :=
  fun w =>
    match settings w with
    | Some s => if enabled s then startFiltering now w else (Ok tt, w)
    | None => (Ok tt, w)
    end.

Record Message : Type := mkMessage {
  msg_type : string;
  msg_settings : Settings
}.

(** [handleMessage(message)], received at [now]; the clock does not
    advance while the handler runs. *)
Definition handleMessage (now : Z) (message : Message) : M unit :=
  if String.eqb (msg_type message) "UPDATE_FILTERS" then
    modify (with_settings (Some (msg_settings message))) ;;
    s <- theSettings ;;
    (if enabled s then startFiltering now else stopFiltering) ;;
    s' <- theSettings ;;
    when (enabled s') (scanExistingContent now)
  else ret tt.

End PlaceholderRev.

(* ================================================================= *)
(** ** Direct-hiding revision *)

Module DirectRev.
Import Engine.

(** The decimal numeral of a counter value, as a template literal
    prints it. *)
Definition decimal (n : nat) : string :=
  NilEmpty.string_of_uint (Nat.to_uint n).

Definition replaceElement (e : node) (type : string) : M unit :=
  modify (fun w => with_elementCounter (S (elementCounter w)) w) ;;
  counter <- gets elementCounter ;;
  let elementId := ("xsafe-" ++ decimal counter)%string in
  assign e (el_with_xsafe_id (Some elementId)) ;;
  el <- element e ;;
  let originalData :=
    mkOriginalData e type (style_display el) (style_visibility el)
      (parentNode el) (Some elementId) in
  assign e (el_with_display "none") ;;
  assign e (el_with_visibility "hidden") ;;
  modify (fun w => with_filteredElements (set_add e (filteredElements w)) w) ;;
  assign e (el_with_xsafeData (Some originalData)) ;;
  assign e (el_with_xsafePlaceholder None).

(** [element.querySelectorAll('[data-xsafe-container-child]')] *)
Definition containerChildren (e : node) : M (list node) :=
  gets (fun w =>
    filter (fun c => data_xsafe_container_child (dom w c)) (descendants w e)).

Definition revealElement (e : node) : M unit :=
  childElements <- containerChildren e ;;
  when (Nat.ltb 0 (length childElements))
    (forEach childElements (fun child =>
       assign child (el_with_container_child false))) ;;
  el <- element e ;;
  match xsafeData el with
  | Some d =>
      assign e (el_with_display (str_or (originalDisplay d) "")) ;;
      assign e (el_with_visibility (str_or (originalVisibility d) ""))
  | None =>
      assign e (el_with_display "") ;;
      assign e (el_with_visibility "")
  end ;;
  assign e (el_with_xsafe_id None) ;;
  modify (fun w => with_filteredElements (set_delete e (filteredElements w)) w).

Definition restoreAllElements : M unit :=
  elements <- gets filteredElements ;;
  forEach elements revealElement ;;
  modify (with_filteredElements []).

(** As in the placeholder revision, with the placeholder test reading
    a field that this revision always sets to [null]. *)
Definition limitFilteredElements : M unit :=
  elements <- gets filteredElements ;;
  maxN <- gets maxFilteredElements ;;
  if Nat.ltb maxN (set_size elements) then
    let elementsToRemove := set_size elements - maxN in
    forEach (firstn elementsToRemove elements) (fun e =>
      PlaceholderRev.removePlaceholder e ;;
      modify (fun w => with_filteredElements (set_delete e (filteredElements w)) w))
  else ret tt.

End DirectRev.

(* ================================================================= *)
(** ** Direct-hiding revision: disabling *)

Module DirectStop.
Import Engine DirectRev.

(** Whether the element matches
    [[data-xsafe-container-child], [data-xsafe-id]]. *)
Definition isMarked (el : Element) : bool :=
  orb (data_xsafe_container_child el)
      (match data_xsafe_id el with Some _ => true | None => false end).

(** [document.querySelectorAll('[data-xsafe-container-child],
    [data-xsafe-id]')]: the elements of the document, in document
    order, that carry one of the two attributes.  The elements of the
    document are what the selector engine answers for the universal
    selector; this revision inserts no node, so they are the same
    before and after the engine ran. *)
Definition markedElements (w : World) : list node :=
  filter (fun n => isMarked (dom w n)) (querySelectorAll w "*").

Definition cleanup : M unit :=
  modify (with_filteredElements []) ;;
  modify (with_uiElementCache []) ;;
  marked <- gets markedElements ;;
  forEach marked (fun e =>
    assign e (el_with_container_child false) ;;
    assign e (el_with_xsafe_id None)).

(** As in the placeholder revision, [this.observer] is never
    assigned. *)
Definition stopFiltering : M unit :=
  modify (with_isFiltering false) ;;
  modify (with_mutationObserver false) ;;
  modify (with_periodicScanInterval false) ;;
  restoreAllElements ;;
  cleanup.

End DirectStop.

(* ================================================================= *)
(** ** Placeholder revision: the mutation-observer pass *)

Module Observer.
Import Engine PlaceholderRev.

(** Whether the element carries the attribute: [getAttribute] answers
    a string for an attribute that is there and [null] otherwise. *)
Definition hasAttribute (el : Element) (name : string) : bool :=
  match getAttribute el name with
  | Ok (JStr _) => true
  | _ => false
  end.

(** [element.setAttribute(name, value)].  As for [style.display], the
    text of [outerHTML] is kept as the page wrote it. *)
Definition el_setAttribute (name value : string) (el : Element) : Element :=
  mkElement (tagName el) (src el) (outerHTML el)
    (fun a => if String.eqb a name then Ok (JStr value) else getAttribute el a)
    (layoutBox el) (layoutWidth el) (layoutHeight el)
    (parentNode el) (style_display el) (style_visibility el)
    (data_xsafe_id el) (data_xsafe_container_child el) (xsafeData el)
    (xsafePlaceholder el).

(** The attribute test [[name*=needle]] of a selector. *)
Definition attrContains (el : Element) (name needle : string) : bool :=
  match getAttribute el name with
  | Ok (JStr s) => includes needle s
  | _ => false
  end.

(** Whether an element of an HTML document matches the selector
    [video, iframe[src*=youtube], iframe[src*=vimeo]]. *)
Definition matchesVideoOrEmbed (el : Element) : bool :=
  orb (String.eqb (tagName el) "VIDEO")
      (andb (String.eqb (tagName el) "IFRAME")
            (orb (attrContains el "src" "youtube")
                 (attrContains el "src" "vimeo"))).

(** [element.querySelector(...)] with that selector: the first match
    below the element, or [null]. *)
Definition querySelectorVideo (e : node) : M (option node) :=
  gets (fun w => find (fun c => matchesVideoOrEmbed (dom w c)) (descendants w e)).

Definition checkForVideo (e : node) : M unit :=
  el <- element e ;;
  if arr_includes (tagName el) ["VIDEO"; "IFRAME"] then filterVideo e
  else
    found <- querySelectorVideo e ;;
    match found with
    | Some _ => filterVideo e
    | None => ret tt
    end.

Definition checkForImage (e : node) : M unit :=
  el <- element e ;;
  if String.eqb (tagName el) "IMG" then
    ui <- isUIElement e ;;
    when (negb ui) (filterImage e)
  else ret tt.

Definition scanElement (e : node) : M unit :=
  sv <- shouldFilterVideos ;;
  when sv (checkForVideo e) ;;
  si <- shouldFilterImages ;;
  when si (checkForImage e).

(** [document.querySelectorAll('*:not([data-xsafe-scanned])')], asked
    once per pass: the elements of the document at that time, in
    document order, that do not carry the mark. *)
Definition unscannedNodes (w : World) : list node :=
  filter (fun n => negb (hasAttribute (dom w n) "data-xsafe-scanned"))
    (querySelectorAll w "*").

(** The callback of [addedNodes.forEach], with the local counter
    [scannedCount] threaded through the iterations. *)
Fixpoint scanNodes (addedNodes : list node) (scannedCount : nat) : M unit :=
  match addedNodes with
  | [] => ret tt
  | n :: rest =>
      if Nat.ltb scannedCount 50 then
        scanElement n ;;
        assign n (el_setAttribute "data-xsafe-scanned" "true") ;;
        scanNodes rest (S scannedCount)
      else scanNodes rest scannedCount
  end.

Definition scanNewContent : M unit :=
  addedNodes <- gets unscannedNodes ;;
  scanNodes addedNodes 0.

(** The function handed to [debounce] in [setupObservers], run at
    [now]. *)
Definition observerCallback (now : Z) : M unit :=
  ok <- canScan now ;;
  when ok scanNewContent.

End Observer.

(* ================================================================= *)
(** ** Placeholder revision: the instance over its lifetime *)

Module Lifecycle.
Import Engine PlaceholderRev.

(** The instance as the constructor leaves it, on a page. *)
Definition newEngine (page : node -> Element) (host : string)
    (selectorEngine : string -> list node) (tree : node -> list node) : World :=
  mkWorld None [] false [] 200 0 2000 0 false false false
    page host selectorEngine tree.

(** The document after the page, or a placeholder the engine inserted,
    has changed it: what the selector engine answers and what lies
    below each node are new, the element objects are the ones there
    were. *)
Definition withDocument (selectorEngine : string -> list node)
    (tree : node -> list node) (w : World) : World :=
  mkWorld (settings w) (filteredElements w) (isFiltering w)
    (uiElementCache w) (maxFilteredElements w) (lastScanTime w)
    (scanCooldown w) (elementCounter w) (mutationObserver w)
    (periodicScanInterval w) (stylesInjected w) (dom w) (hostname w)
    selectorEngine tree.

(** The element object after the page has written to the element: what
    the page reaches (tag, attributes, styles, geometry, place in the
    tree) is as in [page].  The fields [_xsafeData] and
    [_xsafePlaceholder] were added by the content script, whose
    JavaScript objects the page does not see; they are as they were,
    except that the page may have taken the placeholder out of the
    document. *)
Definition rewritten (page : Element) (detach : bool) (el : Element)
  : Element :=
  mkElement (tagName page) (src page) (outerHTML page) (getAttribute page)
    (layoutBox page) (layoutWidth page) (layoutHeight page) (parentNode page)
    (style_display page) (style_visibility page) (data_xsafe_id page)
    (data_xsafe_container_child page) (xsafeData el)
    (if detach then option_map ph_remove (xsafePlaceholder el)
     else xsafePlaceholder el).

(** What the host may run on the instance: the answer to
    [GET_SETTINGS], [startIfEnabled] from [init] or from its timer, a
    message, the interval, the debounced observer callback, a click on
    the reveal button of a node's placeholder.  Between two of them
    the document may change, and the page may write to an element. *)
Inductive Event : Type :=
| SettingsAnswered (s : Settings)
| Started (now : Z)
| Received (now : Z) (message : Message)
| IntervalFired (now : Z)
| Mutated (now : Z)
| RevealClicked (e : node)
| DocumentChanged (selectorEngine : string -> list node)
    (tree : node -> list node)
| PageWrote (e : node) (page : Element) (detach : bool).

Definition isPageWrite (ev : Event) : bool :=
  match ev with
  | PageWrote _ _ _ => true
  | _ => false
  end.

(** Whether the placeholder of the node sits in the page and shows the
    button. *)
Definition hasRevealButton (el : Element) : bool :=
  match xsafePlaceholder el with
  | Some p => andb (ph_attached p) (ph_revealBtn p)
  | None => false
  end.

(** The interval runs only while it is set, and a button can be
    clicked only while it is in the page.  The debounced callback of
    the observer may still be pending when the observer is
    disconnected, so it is not tied to the observer being there. *)
Definition fire (ev : Event) : M unit :=
  match ev with
  | SettingsAnswered s => modify (with_settings (Some s))
  | Started now => startIfEnabled now
  | Received now message => handleMessage now message
  | IntervalFired now =>
      active <- gets periodicScanInterval ;;
      when active (periodicTick now)
  | Mutated now => Observer.observerCallback now
  | RevealClicked e =>
      el <- element e ;;
      when (hasRevealButton el) (revealElement e)
  | DocumentChanged selectorEngine tree =>
      modify (withDocument selectorEngine tree)
  | PageWrote e page detach => assign e (rewritten page detach)
  end.

(** The events in turn; an exception ends the handler it was thrown
    in and leaves what the handler had assigned. *)
Fixpoint run (events : list Event) (w : World) : World :=
  match events with
  | [] => w
  | ev :: rest => run rest (snd (fire ev w))
  end.

End Lifecycle.

(* ================================================================= *)
(** ** Plain objects used as maps *)

Module JSObject.

(** The names every object literal inherits from [Object.prototype]. *)
Definition prototypeKeys : list string :=
  [ "constructor"; "__defineGetter__"; "__defineSetter__"; "hasOwnProperty";
    "__lookupGetter__"; "__lookupSetter__"; "isPrototypeOf";
    "propertyIsEnumerable"; "toString"; "valueOf"; "__proto__";
    "toLocaleString" ].

End JSObject.

(* ================================================================= *)
(** ** First revision: [PerformanceTracker] *)

Module Tracker.

(** [array.slice(-k)]: the last [k] entries. *)
Definition lastn {A} (k : nat) (l : list A) : list A :=
  skipn (length l - k) l.

Section Arithmetic.

(** The numbers of the host and what [reportMetrics] does with them:
    [a + b], [a / n] for a length [n], the number [0], and the test
    that [a || 0] makes. *)
Variable Num : Type.
Variable add : Num -> Num -> Num.
Variable quot : Num -> nat -> Num.
Variable zero : Num.
Variable truthyNum : Num -> bool.

(** [this.metrics] *)
Record Metrics : Type := mkMetrics {
  scanTime : list Num;
  filterTime : list Num;
  replaceTime : list Num;
  memoryUsage : list Num
}.

(** The [data] of a [PERFORMANCE_DATA] message. *)
Record PerformanceData : Type := mkPerformanceData {
  pd_processingTime : Num;
  pd_loadImpact : Num;
  pd_memoryUsage : Num
}.

(** The tracker, and the messages it has sent to the background
    script, oldest first. *)
Record State : Type := mkState {
  metrics : Metrics;
  sent : list PerformanceData
}.

(** The tracker as its constructor leaves it. *)
Definition newTracker : State := mkState (mkMetrics [] [] [] []) [].

(** What [this.metrics[metric]] evaluates to. *)
Inductive Property : Type :=
| OwnArray (values : list Num)
| Inherited
| Missing.

Definition getMetric (metric : string) (m : Metrics) : Property :=
  if String.eqb metric "scanTime" then OwnArray (scanTime m)
  else if String.eqb metric "filterTime" then OwnArray (filterTime m)
  else if String.eqb metric "replaceTime" then OwnArray (replaceTime m)
  else if String.eqb metric "memoryUsage" then OwnArray (memoryUsage m)
  else if arr_includes metric JSObject.prototypeKeys then Inherited
  else Missing.

(** [this.metrics[metric] = values] for one of the four own keys. *)
Definition setMetric (metric : string) (values : list Num) (m : Metrics)
  : Metrics :=
  if String.eqb metric "scanTime"
  then mkMetrics values (filterTime m) (replaceTime m) (memoryUsage m)
  else if String.eqb metric "filterTime"
  then mkMetrics (scanTime m) values (replaceTime m) (memoryUsage m)
  else if String.eqb metric "replaceTime"
  then mkMetrics (scanTime m) (filterTime m) values (memoryUsage m)
  else if String.eqb metric "memoryUsage"
  then mkMetrics (scanTime m) (filterTime m) (replaceTime m) values
  else m.

(** [averages[key]]: set only for a key whose array is not empty. *)
Definition average (values : list Num) : option Num :=
  match values with
  | [] => None
  | _ => Some (quot (fold_left add values zero) (length values))
  end.

(** [averages.key || 0] *)
Definition orZero (a : option Num) : Num :=
  match a with
  | Some v => if truthyNum v then v else zero
  | None => zero
  end.

Definition reportMetrics (t : State) : State :=
  mkState (metrics t)
    (sent t ++
     [ mkPerformanceData
         (orZero (average (scanTime (metrics t))))
         (orZero (average (filterTime (metrics t))))
         (orZero (average (memoryUsage (metrics t)))) ]).

(** [record(metric, value)].  A name inherited from [Object.prototype]
    is truthy and has no [push]. *)
Definition record (metric : string) (value : Num) (t : State)
  : Res unit * State :=
  match getMetric metric (metrics t) with
  | Missing => (Ok tt, t)
  | Inherited =>
      (Throw (TypeError "this.metrics[metric].push is not a function"), t)
  | OwnArray values =>
      let pushed := values ++ [value] in
      let kept := if Nat.ltb 100 (length pushed) then lastn 50 pushed
                  else pushed in
      let t1 := mkState (setMetric metric kept (metrics t)) (sent t) in
      if Nat.eqb (length kept mod 10) 0 then (Ok tt, reportMetrics t1)
      else (Ok tt, t1)
  end.

(** A sequence of [record] calls; an exception is the caller's and
    leaves the tracker as it was. *)
Fixpoint recordAll (calls : list (string * Num)) (t : State) : State :=
  match calls with
  | [] => t
  | (metric, value) :: rest => recordAll rest (snd (record metric value t))
  end.

(** The values recorded under one name, oldest first. *)
Definition recordedUnder (metric : string) (calls : list (string * Num))
  : list Num :=
  map snd (filter (fun c => String.eqb (fst c) metric) calls).

End Arithmetic.

End Tracker.

(* ================================================================= *)
(** ** The popup: intensity slider and allow-list button *)

Module Popup.

(** [this.settings] as the popup holds it.  [updateSetting] may assign
    [undefined] to a field, so the intensity is a value. *)
Record PopupSettings : Type := mkPopupSettings {
  ps_enabled : bool;
  ps_filterMode : string;
  ps_intensityLevel : JSVal;
  ps_whitelistedDomains : list string
}.

(** What [intensitySlider.value = currentValue] assigns: a number, or
    an object inherited from [Object.prototype]. *)
Inductive Assigned : Type :=
| ANum (n : Z)
| AObject.

(** The popup instance and the slider of its document;
    [intensitySlider] is [None] when the document has no such
    element. *)
Record State : Type := mkState {
  p_settings : option PopupSettings;
  p_currentDomain : option string;
  intensitySlider : option Assigned
}.

(** What [intensityMap[key]] evaluates to in [updateIntensitySlider]. *)
Inductive Entry : Type :=
| Own (n : Z)
| Inherited
| Missing.

Definition intensityMap (key : string) : Entry :=
  if String.eqb key "permissive" then Own 0
  else if String.eqb key "moderate" then Own 1
  else if String.eqb key "strict" then Own 2
  else if arr_includes key JSObject.prototypeKeys then Inherited
  else Missing.

(** [intensityMap[this.settings.intensityLevel] || 1].  A level that is
    not a string is turned into a key that the map does not hold. *)
Definition currentValue (level : JSVal) : Assigned :=
  match level with
  | JStr key =>
      match intensityMap key with
      | Own n => if (n =? 0)%Z then ANum 1 else ANum n
      | Inherited => AObject
      | Missing => ANum 1
      end
  | _ => ANum 1
  end.

Definition updateIntensitySlider (st : State) : State :=
  match intensitySlider st, p_settings st with
  | Some _, Some s =>
      mkState (p_settings st) (p_currentDomain st)
        (Some (currentValue (ps_intensityLevel s)))
  | _, _ => st
  end.

(** [updateSetting(key, value)] once the background script has
    answered: [success] is the answer's flag, and [assignField] the
    assignment [this.settings[key] = value].  A failed update, and an
    update while [this.settings] is [null], only show an error. *)
Definition updateSetting (success : bool)
    (assignField : PopupSettings -> PopupSettings) (st : State) : State :=
  if success then
    match p_settings st with
    | Some s =>
        mkState (Some (assignField s)) (p_currentDomain st) (intensitySlider st)
    | None => st
    end
  else st.

Definition setIntensityLevel (v : JSVal) (s : PopupSettings) : PopupSettings :=
  mkPopupSettings (ps_enabled s) (ps_filterMode s) v (ps_whitelistedDomains s).

Definition setWhitelistedDomains (l : list string) (s : PopupSettings)
  : PopupSettings :=
  mkPopupSettings (ps_enabled s) (ps_filterMode s) (ps_intensityLevel s) l.

(** [['permissive', 'moderate', 'strict'][value]], [value] being what
    [parseInt] made of the slider's text: [None] for [NaN]. *)
Definition levelOf (value : option Z) : JSVal :=
  match value with
  | Some 0%Z => JStr "permissive"
  | Some 1%Z => JStr "moderate"
  | Some 2%Z => JStr "strict"
  | _ => JUndefined
  end.

Definition handleIntensityChange (value : option Z) (success : bool)
    (st : State) : State :=
  updateIntensitySlider
    (updateSetting success (setIntensityLevel (levelOf value)) st).

(** [l.indexOf(x)], [None] standing for [-1]. *)
Fixpoint indexOf (x : string) (l : list string) : option nat :=
  match l with
  | [] => None
  | y :: rest =>
      if String.eqb y x then Some 0
      else match indexOf x rest with
           | Some i => Some (S i)
           | None => None
           end
  end.

(** [l.splice(index, 1)]; the index [-1] counts from the end. *)
Definition splice1 (index : option nat) (l : list string) : list string :=
  match index with
  | Some i => firstn i l ++ skipn (S i) l
  | None => removelast l
  end.

(** The list [handleWhitelistToggle] sends. *)
Definition toggledDomains (domain : string) (l : list string) : list string :=
  if arr_includes domain l then splice1 (indexOf domain l) l
  else l ++ [domain].

(** [handleWhitelistToggle()]; an empty [currentDomain] is falsy. *)
Definition handleWhitelistToggle (success : bool) (st : State) : State :=
  match p_currentDomain st, p_settings st with
  | Some domain, Some s =>
      if String.eqb domain "" then st
      else updateSetting success
             (setWhitelistedDomains
                (toggledDomains domain (ps_whitelistedDomains s))) st
  | _, _ => st
  end.

End Popup.

(* ================================================================= *)
(** ** [debounce] *)

Module Debounce.
Section Debounced.

(** The arguments of the debounced function, and the delay. *)
Variable Args : Type.
Variable wait : Z.

(** A timer of the host: its identifier, the time it is due, and the
    arguments its callback [later] has captured. *)
Record Timer : Type := mkTimer {
  timerId : nat;
  due : Z;
  captured : Args
}.

(** The variable [timeout] of the closure ([None] while it is
    [undefined]), the host's table of pending timers with its next
    identifier, and the calls of [func] made so far, oldest first, each
    with the time it was made. *)
Record State : Type := mkState {
  timeout : option nat;
  pendingTimers : list Timer;
  nextTimerId : nat;
  invoked : list (Z * Args)
}.

(** [debounce(func, wait)] has just returned. *)
Definition fresh : State := mkState None [] 1 [].

(** [clearTimeout(id)]: nothing happens for [undefined] or for a timer
    that is no longer pending. *)
Definition clearTimeout (id : option nat) (timers : list Timer) : list Timer :=
  match id with
  | Some i => filter (fun t => negb (Nat.eqb (timerId t) i)) timers
  | None => timers
  end.

(** [executedFunction(...args)], called at [now]. *)
Definition executedFunction (now : Z) (args : Args) (st : State) : State :=
  let timers := clearTimeout (timeout st) (pendingTimers st) in
  let id := nextTimerId st in
  mkState (Some id) (timers ++ [mkTimer id (now + wait) args]) (S id)
    (invoked st).

(** [later], the callback of timer [t], run at [now]. *)
Definition later (now : Z) (t : Timer) (st : State) : State :=
  mkState (timeout st) (clearTimeout (timeout st) (pendingTimers st))
    (nextTimerId st) (invoked st ++ [(now, captured t)]).

Definition isPending (t : Timer) (st : State) : bool :=
  existsb (fun u => Nat.eqb (timerId u) (timerId t)) (pendingTimers st).

(** The host runs the callbacks of the timers in [dueTimers]: a timer
    leaves the table when its callback starts, and a timer that an
    earlier callback cleared does not run. *)
Fixpoint runTimers (now : Z) (dueTimers : list Timer) (st : State) : State :=
  match dueTimers with
  | [] => st
  | t :: rest =>
      if isPending t st then
        let st1 := mkState (timeout st)
                     (clearTimeout (Some (timerId t)) (pendingTimers st))
                     (nextTimerId st) (invoked st) in
        runTimers now rest (later now t st1)
      else runTimers now rest st
  end.

(** The host at [now]: the pending timers that are due run, in the
    order they were set. *)
Definition elapse (now : Z) (st : State) : State :=
  runTimers now (filter (fun t => (due t <=? now)%Z) (pendingTimers st)) st.

Inductive Event : Type :=
| Called (now : Z) (args : Args)
| Elapsed (now : Z).

Definition isCall (ev : Event) : bool :=
  match ev with
  | Called _ _ => true
  | Elapsed _ => false
  end.

Definition step (ev : Event) (st : State) : State :=
  match ev with
  | Called now args => executedFunction now args st
  | Elapsed now => elapse now st
  end.

Fixpoint run (events : list Event) (st : State) : State :=
  match events with
  | [] => st
  | ev :: rest => run rest (step ev st)
  end.

(** At most one timer is pending, and it is the one [timeout] names;
    what is pending and what has run goes back to a call among
    [events]. *)
Definition settled (events : list Event) (st : State) : Prop :=
  (pendingTimers st = []
   \/ exists t, pendingTimers st = [t] /\ timeout st = Some (timerId t))
  /\ (forall t, In t (pendingTimers st) ->
        exists tc, In (Called tc (captured t)) events
                   /\ due t = (tc + wait)%Z)
  /\ (forall T a, In (T, a) (invoked st) ->
        exists tc, In (Called tc a) events /\ (tc + wait <= T)%Z)
  /\ length (invoked st) + length (pendingTimers st)
     <= length (filter isCall events).

End Debounced.
End Debounce.

(* ================================================================= *)
(** ** The classifier as the specification words it *)

Module ClassifierSpec.
Import Classifier.

(** The text of an attribute, empty when the attribute is missing. *)
Definition attr_text (r : Res JSVal) : string :=
  match r with
  | Ok (JStr s) => s
  | _ => ""
  end.

(** An explicit decorative marker: the identifier ([data-testid]) or
    the descriptive text ([alt]) contains "avatar" or "profile",
    whatever the case of the letters. *)
Definition decorativeMarker (el : Element) : bool :=
  let id := toLowerCase (attr_text (getAttribute el "data-testid")) in
  let alt := toLowerCase (attr_text (getAttribute el "alt")) in
  orb (orb (includes "avatar" id) (includes "profile" id))
      (orb (includes "avatar" alt) (includes "profile" alt)).

(** Marker first, then the bounding box, else not chrome. *)
Definition isChrome (el : Element) : bool :=
  if decorativeMarker el then true
  else match getBoundingClientRect el with
       | Ok (Some rect) => smallIcon rect
       | _ => false
       end.

(** What the code tests instead: [data-testid] for "avatar" as written,
    [alt] for "avatar" or "profile" in any case. *)
Definition codeMarker (testid alt : option string) : bool :=
  orb (match testid with Some s => includes "avatar" s | None => false end)
      (match alt with
       | Some s => orb (includes "avatar" (toLowerCase s))
                       (includes "profile" (toLowerCase s))
       | None => false
       end).

(** [getAttribute] answers [null] for a missing attribute. *)
Definition attrValue (a : option string) : JSVal :=
  match a with
  | Some s => JStr s
  | None => JNull
  end.

End ClassifierSpec.

(* ================================================================= *)
(** ** Pages and engines used as concrete inputs *)

Module Scenarios.
Import Classifier Engine.

(** [getAttribute] of an element with the given attribute list. *)
Definition attrs (l : list (string * JSVal)) : string -> Res JSVal :=
  fun name =>
    match find (fun p => String.eqb name (fst p)) l with
    | Some p => Ok (snd p)
    | None => Ok JNull
    end.

(** The geometry of a rendered element of width [w] and height [h]:
    empty while its [display] is "none". *)
Definition boxOf (w h : Z) : string -> Res (option DOMRect) :=
  fun display =>
    if String.eqb display "none" then Ok (Some (mkRect 0 0))
    else Ok (Some (mkRect w h)).

Definition lengthOf (l : Z) : string -> Z :=
  fun display => if String.eqb display "none" then 0%Z else l.

(** An attached, visible element that has never been concealed. *)
Definition mediaElement (tag : string) (s : JSVal) (html : string)
    (al : list (string * JSVal)) (w h : Z) : Element :=
  mkElement tag s (JStr html) (attrs al) (boxOf w h) (lengthOf w) (lengthOf h)
    (Some 1000) "" "" None false None None.

(** A profile header: large, its test id spells "Profile". *)
Definition profileHeader : Element :=
  mediaElement "IMG" (JStr "https://pbs.twimg.com/banner.jpg") "<img>"
    [("data-testid", JStr "UserProfileHeader")] 600 200.


(** Two different images behind one resource locator: a large photo and
    a small avatar. *)
Definition largePhoto : Element :=
  mediaElement "IMG" (JStr "https://pbs.twimg.com/shared.jpg")
    "<img class=photo>" [] 600 400.

Definition smallAvatar : Element :=
  mediaElement "IMG" (JStr "https://pbs.twimg.com/shared.jpg")
    "<img class=avatar>" [("alt", JStr "Avatar of the author")] 32 32.

Definition moderateSettings (mode : string) : Settings :=
  mkSettings true mode "moderate" [] [] true true.

Definition permissiveDenied : Settings :=
  mkSettings true "both" "permissive" [] ["x.com"] true true.

(** A page of [n] large videos, nodes [0 .. n-1]. *)
Definition videoPage (n : nat) : string -> list node :=
  fun selector =>
    if String.eqb selector PlaceholderRev.videoSelector then seq 0 n else [].

Definition videoElement : Element :=
  mediaElement "VIDEO" JUndefined "<video></video>" [] 640 360.

(** The instance as its constructor leaves it, with the settings the
    background script answered, on a page of [n] videos at [x.com]. *)
Definition engineOn (s : Settings) (n : nat) : World :=
  mkWorld (Some s) [] false [] 200 0 2000 0 false false false
    (fun _ => videoElement) "x.com" (videoPage n) (fun _ => []).

Definition allowListed : Settings :=
  mkSettings true "both" "strict" ["x.com"] [] true true.

(** A cache at its limit: keys [1 .. 500], oldest first. *)
Definition fullCache : Cache :=
  map (fun n => (JNum (Z.of_nat n), false)) (seq 1 500).

Definition updateFilters (s : Settings) : PlaceholderRev.Message :=
  PlaceholderRev.mkMessage "UPDATE_FILTERS" s.

(** The world after one executed scan at time [t]. *)
Definition afterScan (t : Z) (w : World) : World :=
  snd (PlaceholderRev.scanExistingContent t w).

End Scenarios.

Module Pages.
Import Engine Scenarios.

(** A [DIV] that wraps a video. *)
Definition wrapper : Element :=
  mediaElement "DIV" JUndefined "<div><video></video></div>" [] 640 360.

(** A document of two elements: node 0, the wrapper, which is the root
    element, and node 1, the video below it. *)
Definition wrappedVideoPage : string -> list node :=
  fun selector =>
    if String.eqb selector "*" then [0; 1]
    else if String.eqb selector PlaceholderRev.videoSelector then [1]
    else [].

(** A filtering instance on that document at [x.com]; no element has
    been visited by the observer pass. *)
Definition wrappedVideo (s : Settings) : World :=
  mkWorld (Some s) [] true [] 200 0 2000 0 true true true
    (fun n => if Nat.eqb n 0 then wrapper else videoElement) "x.com"
    wrappedVideoPage (fun n => if Nat.eqb n 0 then [1] else []).

(** An element of a document, below [parent]. *)
Definition pageElement (tag html : string) (al : list (string * JSVal))
    (parent : node) (w h : Z) : Element :=
  mkElement tag JUndefined (JStr html) (attrs al) (boxOf w h) (lengthOf w)
    (lengthOf h) (Some parent) "" "" None false None None.

(** A document whose root element and body the observer pass visited
    while they held no video, and into which a [DIV] that wraps a video
    has been inserted since.  In document order: node 0 is the root
    element, node 1 the body, node 2 the wrapper, node 3 the video; 4
    stands for the Document. *)
Definition insertedVideoDom (n : node) : Element :=
  match n with
  | 0 => pageElement "HTML" "<html>" [("data-xsafe-scanned", JStr "true")]
           4 1280 720
  | 1 => pageElement "BODY" "<body>" [("data-xsafe-scanned", JStr "true")]
           0 1280 720
  | 2 => pageElement "DIV" "<div>" [] 1 640 360
  | _ => pageElement "VIDEO" "<video>" [] 2 640 360
  end.

Definition insertedVideoPage : string -> list node :=
  fun selector =>
    if String.eqb selector "*" then [0; 1; 2; 3]
    else if String.eqb selector PlaceholderRev.videoSelector then [3]
    else [].

Definition insertedVideoTree (n : node) : list node :=
  match n with
  | 0 => [1; 2; 3]
  | 1 => [2; 3]
  | 2 => [3]
  | _ => []
  end.

(** A filtering instance on that document at [x.com]. *)
Definition insertedVideo (s : Settings) : World :=
  mkWorld (Some s) [] true [] 200 0 2000 0 true true true
    insertedVideoDom "x.com" insertedVideoPage insertedVideoTree.

(** Two images whose [src] is empty (the page has not set it yet) and
    whose [outerHTML] agree on their first 100 characters: a large
    photo and a small avatar. *)
Definition lazyPrefix : string :=
  "<img class=" ++ PlaceholderRev.q "css-9pa8cd"
  ++ " draggable=" ++ PlaceholderRev.q "true"
  ++ " loading=" ++ PlaceholderRev.q "lazy"
  ++ " decoding=" ++ PlaceholderRev.q "async"
  ++ " referrerpolicy=" ++ PlaceholderRev.q "no-referrer"
  ++ " sizes=" ++ PlaceholderRev.q "auto".

Definition lazyPhotoHTML : string :=
  lazyPrefix ++ " width=" ++ PlaceholderRev.q "600"
  ++ " height=" ++ PlaceholderRev.q "400" ++ ">".

Definition lazyAvatarHTML : string :=
  lazyPrefix ++ " width=" ++ PlaceholderRev.q "32"
  ++ " height=" ++ PlaceholderRev.q "32" ++ ">".

Definition lazyPhoto : Element :=
  mediaElement "IMG" (JStr "") lazyPhotoHTML [] 600 400.

Definition lazyAvatar : Element :=
  mediaElement "IMG" (JStr "") lazyAvatarHTML [] 32 32.



(** Ten scans of four milliseconds each, as a sequence of [record]
    calls over the integers. *)
Definition tenScans : list (string * Z) := repeat ("scanTime", 4%Z) 10.

End Pages.


(* ================================================================= *)
(** ** Vocabulary of the statements *)

(** Every run of [m] relates the world before to the world after, also
    a run that throws. *)
Definition preserves {A} (R : World -> World -> Prop) (m : M A) : Prop :=
  forall w, R w (snd (m w)).

(** The fields no method assigns after construction, and the clock of
    the last scan. *)
Definition frame (w w' : World) : Prop :=
  settings w' = settings w
  /\ scanCooldown w' = scanCooldown w
  /\ lastScanTime w' = lastScanTime w
  /\ maxFilteredElements w' = maxFilteredElements w
  /\ hostname w' = hostname w
  /\ querySelectorAll w' = querySelectorAll w.


(** Relations between the world before and after a run that compose. *)
Class WorldOrder (R : World -> World -> Prop) : Prop := {
  wo_refl : forall w, R w w;
  wo_trans : forall a b c, R a b -> R b c -> R a c
}.

(** The request [scanExistingContent] at [now] executes [n] scans: one
    when the cooldown has elapsed and the request does what the scan
    passes do, none when the cooldown is running and the request
    returns the world it was given. *)
Definition executes (now : Z) (w : World) (n : nat) : Prop :=
  if (now - lastScanTime w <? scanCooldown w)%Z
  then n = 0 /\ PlaceholderRev.scanExistingContent now w = (Ok tt, w)
  else n = 1
       /\ PlaceholderRev.scanExistingContent now w
          = PlaceholderRev.scanPasses now w.

(** The world after a successful [replaceElement] of the placeholder
    revision on node [e]: [e] is recorded and its [display] is "none";
    nothing else that the scans read has changed. *)
Definition concealedIn (e : node) (w w' : World) : Prop :=
  filteredElements w' = set_add e (filteredElements w)
  /\ uiElementCache w' = uiElementCache w
  /\ (forall n, style_display (dom w' n)
               = if Nat.eqb n e then "none" else style_display (dom w n))
  /\ (forall n, style_visibility (dom w' n) = style_visibility (dom w n))
  /\ (forall n, src (dom w' n) = src (dom w n)
               /\ outerHTML (dom w' n) = outerHTML (dom w n)
               /\ getAttribute (dom w' n) = getAttribute (dom w n)
               /\ layoutBox (dom w' n) = layoutBox (dom w n)
               /\ parentNode (dom w' n) = parentNode (dom w n)).

(** A call of [filterImage] or [filterVideo]: it leaves the world as it
    found it, or it ran [replaceElement] to its end on a node that was
    not recorded, on a page that is not on the allow list, under an
    intensity other than permissive. *)
Definition filterOutcome (m : M unit) (e : node) (w : World) : Prop :=
  snd (m w) = w
  \/ (fst (m w) = Ok tt
      /\ set_has e (filteredElements w) = false
      /\ frame w (snd (m w))
      /\ concealedIn e w (snd (m w))).

(** Every element object is as it was, its placeholder apart. *)
Definition sameElements (w w' : World) : Prop :=
  forall n,
    style_display (dom w' n) = style_display (dom w n)
    /\ style_visibility (dom w' n) = style_visibility (dom w n)
    /\ xsafeData (dom w' n) = xsafeData (dom w n)
    /\ src (dom w' n) = src (dom w n)
    /\ outerHTML (dom w' n) = outerHTML (dom w n)
    /\ getAttribute (dom w' n) = getAttribute (dom w n)
    /\ layoutBox (dom w' n) = layoutBox (dom w n)
    /\ parentNode (dom w' n) = parentNode (dom w n).

(** The cache stays within its limit. *)
Definition cacheBounded (w w' : World) : Prop :=
  map_size (uiElementCache w) <= 500 -> map_size (uiElementCache w') <= 500.

(** Every recorded element is hidden. *)
Definition hiddenIfRecorded (w : World) : Prop :=
  forall e, In e (filteredElements w) -> style_display (dom w e) = "none".

(** No element is shown again: a [display] stays or becomes "none",
    and no [visibility] changes. *)
Definition neverShown (w w' : World) : Prop :=
  (forall n, style_display (dom w' n) = style_display (dom w n)
             \/ style_display (dom w' n) = "none")
  /\ (forall n, style_visibility (dom w' n) = style_visibility (dom w n)).

(** What a run of the scan loops does to the world: records are only
    added, nothing is shown again, the page's own data stays, and, as
    long as the cache has [room] for the run, cached answers stay. *)
Definition grows (room : Prop) (w w' : World) : Prop :=
  frame w w'
  /\ (forall e, In e (filteredElements w) -> In e (filteredElements w'))
  /\ neverShown w w'
  /\ (forall n, src (dom w' n) = src (dom w n)
               /\ outerHTML (dom w' n) = outerHTML (dom w n))
  /\ (hiddenIfRecorded w -> hiddenIfRecorded w')
  /\ (room ->
      forall k b, map_get k (uiElementCache w) = Some b ->
                  map_get k (uiElementCache w') = Some b).



(** The world an update that brings settings [s] with [enabled] set
    hands to the scan it requests. *)
Definition updated (s : Settings) (w : World) : World :=
  if isFiltering w then with_settings (Some s) w
  else with_isFiltering true (with_settings (Some s) w).

(** The classifier has answered "chrome" for the key of node [e]. *)
Definition exempted (e : node) (w : World) : Prop :=
  exists k, Classifier.cacheKey (dom w e) = Ok k
            /\ map_get k (uiElementCache w) = Some true.

(** The three registrations [startFiltering] makes after its scan. *)
Definition registered (w : World) : World :=
  with_periodicScanInterval true
    (with_stylesInjected true (with_mutationObserver true w)).

(** *** The record set and the page *)

(** The element object a successful [replaceElement] of the placeholder
    revision leaves behind, [p] being the placeholder it built. *)
Definition concealedElement (e : node) (type : string) (p : Placeholder)
    (el : Element) : Element :=
  el_with_xsafePlaceholder (Some p)
    (el_with_xsafeData
       (Some (mkOriginalData e type (style_display el) (style_visibility el)
                (parentNode el) None))
       (el_with_display "none" el)).

(** Every recorded element carries the data saved for it. *)
Definition restorable (w : World) : Prop :=
  forall e, In e (filteredElements w) -> xsafeData (dom w e) <> None.

(** The record set as the engine keeps it: a set, of hidden elements
    that carry their saved data. *)
Definition consistent (w : World) : Prop :=
  NoDup (filteredElements w) /\ restorable w /\ hiddenIfRecorded w.

Definition keepsConsistent (w w' : World) : Prop :=
  consistent w -> consistent w'.

(** What of that the page cannot undo by writing to its elements: the
    record set is a set, of elements that carry their saved data. *)
Definition recordsKept (w : World) : Prop :=
  NoDup (filteredElements w) /\ restorable w.

Definition keepsRecords (w w' : World) : Prop :=
  recordsKept w -> recordsKept w'.

(** The page wrote to none of its elements between the events. *)
Definition pageIdle (events : list Lifecycle.Event) : Prop :=
  forall ev, In ev events -> Lifecycle.isPageWrite ev = false.

(** The fields of the instance other than the record set, and the page
    other than the element objects, are as they were. *)
Definition sameInstance (w w' : World) : Prop :=
  settings w' = settings w
  /\ isFiltering w' = isFiltering w
  /\ uiElementCache w' = uiElementCache w
  /\ maxFilteredElements w' = maxFilteredElements w
  /\ lastScanTime w' = lastScanTime w
  /\ scanCooldown w' = scanCooldown w
  /\ elementCounter w' = elementCounter w
  /\ mutationObserver w' = mutationObserver w
  /\ periodicScanInterval w' = periodicScanInterval w
  /\ stylesInjected w' = stylesInjected w
  /\ hostname w' = hostname w
  /\ querySelectorAll w' = querySelectorAll w
  /\ descendants w' = descendants w.

(** The element object [revealElement] of the placeholder revision
    leaves behind, [d] being the data saved on it. *)
Definition revealedElement (d : OriginalData) (el : Element) : Element :=
  el_with_display (originalDisplay d)
    (match xsafePlaceholder el with
     | Some p => el_with_xsafePlaceholder (Some (ph_remove p)) el
     | None => el
     end).

(** What the disable sweep leaves of a world: nothing recorded, an
    empty cache, observer and interval released, every element that was
    recorded shown with the [display] saved for it and its placeholder
    out of the page, every other element object as it was. *)
Definition swept (w w' : World) : Prop :=
  filteredElements w' = []
  /\ uiElementCache w' = []
  /\ isFiltering w' = false
  /\ mutationObserver w' = false
  /\ periodicScanInterval w' = false
  /\ (forall e d, In e (filteredElements w) ->
        xsafeData (dom w e) = Some d ->
        style_display (dom w' e) = originalDisplay d
        /\ style_visibility (dom w' e) = style_visibility (dom w e)
        /\ xsafePlaceholder (dom w' e)
           = option_map ph_remove (xsafePlaceholder (dom w e)))
  /\ (forall n, ~ In n (filteredElements w) -> dom w' n = dom w n).

(** *** What a run may touch *)

(** Every run of [m] from a world that satisfies [I] relates the world
    before to the world after. *)
Definition within {A} (I : World -> Prop) (R : World -> World -> Prop)
    (m : M A) : Prop :=
  forall w, I w -> R w (snd (m w)).

(** The page is on the allow list, or the intensity is permissive. *)
Definition exemptPage (w : World) : Prop :=
  exists s, settings w = Some s
            /\ (arr_includes (hostname w) (whitelistedDomains s) = true
                \/ String.eqb (intensityLevel s) "permissive" = true).

(** No style has changed and no record was added. *)
Definition nothingConcealed (w w' : World) : Prop :=
  (forall n, style_display (dom w' n) = style_display (dom w n)
             /\ style_visibility (dom w' n) = style_visibility (dom w n))
  /\ (forall e, In e (filteredElements w') -> In e (filteredElements w)).

Definition leavesAlone (w w' : World) : Prop :=
  exemptPage w -> exemptPage w' /\ nothingConcealed w w'.

(** What happened is confined to the nodes in [P]: only they were
    added to the record set, and every other node kept its styles and
    its saved data; the settings and the page's answers are as they
    were. *)
Definition confinedTo (P : node -> Prop) (w w' : World) : Prop :=
  (settings w' = settings w
   /\ hostname w' = hostname w
   /\ querySelectorAll w' = querySelectorAll w)
  /\ (forall e, In e (filteredElements w') -> In e (filteredElements w) \/ P e)
  /\ (forall n, ~ P n ->
        style_display (dom w' n) = style_display (dom w n)
        /\ style_visibility (dom w' n) = style_visibility (dom w n)
        /\ xsafeData (dom w' n) = xsafeData (dom w n)).

(** The nodes a scan under settings [s] may conceal: those the video
    selector matches when the mode covers videos, and those the image
    selector matches when it covers images. *)
Definition scanTargets (s : Settings) (w : World) (e : node) : Prop :=
  (arr_includes (filterMode s) ["videos"; "both"] = true
   /\ In e (querySelectorAll w PlaceholderRev.videoSelector))
  \/ (arr_includes (filterMode s) ["images"; "both"] = true
      /\ In e (querySelectorAll w PlaceholderRev.imageSelector)).

(** The clock of the last scan moves only to the time of a request
    that found the cooldown elapsed. *)
Definition paced (now : Z) (w w' : World) : Prop :=
  scanCooldown w' = scanCooldown w
  /\ (lastScanTime w' = lastScanTime w
      \/ (lastScanTime w' = now
          /\ (scanCooldown w <= now - lastScanTime w)%Z)).

(** *** The observer pass *)

(** The nodes one pass of [scanNewContent] visits: the first fifty
    that do not carry the mark. *)
Definition batch (w : World) : list node :=
  firstn 50 (Observer.unscannedNodes w).

Definition scannedMark (el : Element) : bool :=
  Observer.hasAttribute el "data-xsafe-scanned".

(** What the page author wrote is as it was: tag names, the tree, and
    every attribute but the mark of the observer pass. *)
Definition pageKept (w w' : World) : Prop :=
  descendants w' = descendants w
  /\ forall n,
       tagName (dom w' n) = tagName (dom w n)
       /\ (forall a, a <> "data-xsafe-scanned" ->
             getAttribute (dom w' n) a = getAttribute (dom w n) a)
       /\ (scannedMark (dom w n) = true -> scannedMark (dom w' n) = true).

(** What happened is confined to the nodes of [L]: every other element
    object is as it was, only nodes of [L] were added to the record
    set, and the clock of the last scan has not moved. *)
Definition outside (L : list node) (w w' : World) : Prop :=
  frame w w'
  /\ pageKept w w'
  /\ (forall n, ~ In n L -> dom w' n = dom w n)
  /\ (forall e, In e (filteredElements w') -> In e (filteredElements w) \/ In e L).

(** A node the video test of the observer pass accepts: a [VIDEO] or
    an [IFRAME], or a node with a video or a video embed below it. *)
Definition videoLike (w : World) (e : node) : Prop :=
  arr_includes (tagName (dom w e)) ["VIDEO"; "IFRAME"] = true
  \/ exists c, In c (descendants w e)
               /\ Observer.matchesVideoOrEmbed (dom w c) = true.


Definition growsKept (w w' : World) : Prop :=
  grows False w w' /\ pageKept w w'.


(** *** Samples, identifiers *)

(** An array of samples that holds the newest [k] of the values
    recorded so far, in the order they were recorded, for some [k]
    between fifty (or the number recorded, if smaller) and one
    hundred. *)
Definition retained {A} (history values : list A) : Prop :=
  exists k,
    Nat.min (length history) 50 <= k
    /\ k <= 100
    /\ k <= length history
    /\ values = Tracker.lastn k history.

(** The styles [revealElement] of the direct-hiding revision gives an
    element: the saved ones, or the empty string when nothing was
    saved. *)
Definition restoredDisplay (el : Element) : string :=
  match xsafeData el with
  | Some d => str_or (originalDisplay d) ""
  | None => ""
  end.

Definition restoredVisibility (el : Element) : string :=
  match xsafeData el with
  | Some d => str_or (originalVisibility d) ""
  | None => ""
  end.

(** Every identifier on the page was issued by the counter, and no two
    elements carry the same one. *)
Definition uniqueIds (w : World) : Prop :=
  (forall n i, data_xsafe_id (dom w n) = Some i ->
     exists k, 1 <= k <= elementCounter w
               /\ i = ("xsafe-" ++ DirectRev.decimal k)%string)
  /\ (forall n m i, data_xsafe_id (dom w n) = Some i ->
        data_xsafe_id (dom w m) = Some i -> n = m).

(* ================================================================= *)
(** * Properties *)

(** ** The embedding on concrete inputs *)

Section Checks.
Import Classifier Engine Scenarios.

Example includes_is_case_sensitive :
  includes "avatar" "UserAvatar-Container" = false
  /\ includes "avatar" (toLowerCase "UserAvatar-Container") = true.
Proof. split; reflexivity. Qed.

Example str_or_falls_back :
  str_or "" "" = "" /\ str_or "block" "" = "block".
Proof. split; reflexivity. Qed.

Example element_id_numeral : DirectRev.decimal 12 = "12".
Proof. reflexivity. Qed.

Example cache_key_truncates :
  cacheKey (mediaElement "DIV" JUndefined
              "<div class=a>0123456789012345678901234567890123456789012345678901234567890123456789012345678901234567890123456789</div>"
              [] 10 10)
  = Ok (JStr "<div class=a>012345678901234567890123456789012345678901234567890123456789012345678901234567890123456").
Proof. reflexivity. Qed.

Example cache_evicts_oldest :
  let c := cacheInsert (JStr "k") true fullCache in
  map_size fullCache = 500
  /\ map_size c = 500
  /\ map_first_key c = JNum 2
  /\ map_get (JNum 1) c = None
  /\ map_get (JStr "k") c = Some true.
Proof. vm_compute. repeat split. Qed.

Example first_scan_conceals_in_order :
  let w := afterScan 5000 (engineOn (moderateSettings "both") 3) in
  filteredElements w = [0; 1; 2]
  /\ style_display (dom w 2) = "none"
  /\ style_display (dom w 3) = ""
  /\ lastScanTime w = 5000%Z.
Proof. vm_compute. repeat split. Qed.

Example mode_images_skips_videos :
  filteredElements (afterScan 5000 (engineOn (moderateSettings "images") 3))
  = [].
Proof. reflexivity. Qed.

Example allow_list_disables_concealment :
  filteredElements (afterScan 5000 (engineOn allowListed 3)) = [].
Proof. reflexivity. Qed.

Example disable_restores_all :
  let w := afterScan 5000 (engineOn (moderateSettings "both") 3) in
  let off := mkSettings false "both" "moderate" [] [] true true in
  let w' := snd (PlaceholderRev.handleMessage 6000 (updateFilters off) w) in
  filteredElements w' = []
  /\ style_display (dom w' 0) = ""
  /\ style_display (dom w' 2) = "".
Proof. vm_compute. repeat split. Qed.

End Checks.

(** ** Maps and sets *)

Lemma JSVal_eqb_eq (a b : JSVal) : JSVal_eqb a b = true <-> a = b.
Proof.
  destruct a, b; simpl; split; intro H; try discriminate; try reflexivity.
  - apply String.eqb_eq in H. now subst.
  - injection H as ->. apply String.eqb_refl.
  - apply Z.eqb_eq in H. now subst.
  - injection H as ->. apply Z.eqb_refl.
Qed.

Lemma JSVal_eqb_refl (a : JSVal) : JSVal_eqb a a = true.
Proof. now apply JSVal_eqb_eq. Qed.

Lemma map_get_set_same {V} (k : JSVal) (v : V) (m : JSMap V) :
  map_get k (map_set k v m) = Some v.
Proof.
  induction m as [|[k' v'] m IH]; simpl.
  - now rewrite JSVal_eqb_refl.
  - destruct (JSVal_eqb k k') eqn:E; simpl; rewrite E; auto.
Qed.

Lemma map_get_delete_other {V} (k k0 : JSVal) (m : JSMap V) :
  JSVal_eqb k k0 = false -> map_get k (map_delete k0 m) = map_get k m.
Proof.
  intro Hne. induction m as [|[k' v'] m IH]; simpl; auto.
  destruct (JSVal_eqb k0 k') eqn:E; simpl.
  - apply JSVal_eqb_eq in E. subst k'. now rewrite Hne.
  - destruct (JSVal_eqb k k'); auto.
Qed.

Lemma map_size_set {V} (k : JSVal) (v : V) (m : JSMap V) :
  map_size (map_set k v m) <= S (map_size m).
Proof.
  unfold map_size. induction m as [|[k' v'] m IH]; simpl; auto.
  destruct (JSVal_eqb k k'); simpl; lia.
Qed.

Lemma map_size_set_miss {V} (k : JSVal) (v : V) (m : JSMap V) :
  map_get k m = None -> map_set k v m = m ++ [(k, v)].
Proof.
  induction m as [|[k' v'] m IH]; simpl; auto.
  destruct (JSVal_eqb k k'); [discriminate|].
  intro H. now rewrite IH.
Qed.

Lemma map_size_delete_first {V} (m : JSMap V) :
  m <> [] -> S (map_size (map_delete (map_first_key m) m)) = map_size m.
Proof.
  destruct m as [|[k v] m]; [congruence|]. intros _. simpl.
  now rewrite JSVal_eqb_refl.
Qed.

Lemma skipn_In {A} (k : nat) (l : list A) (x : A) :
  In x (skipn k l) -> In x l.
Proof.
  revert l. induction k as [|k IH]; intros [|y l]; simpl; auto.
Qed.

Lemma set_has_In (x : nat) (s : JSSet) : set_has x s = true <-> In x s.
Proof.
  unfold set_has. rewrite existsb_exists. split.
  - intros [y [Hy E]]. apply Nat.eqb_eq in E. now subst.
  - intro H. exists x. split; auto. apply Nat.eqb_refl.
Qed.

Lemma set_has_not_In (x : nat) (s : JSSet) : set_has x s = false <-> ~ In x s.
Proof.
  rewrite <- set_has_In. destruct (set_has x s); split; congruence.
Qed.

Lemma set_add_In (x y : nat) (s : JSSet) :
  In y (set_add x s) <-> y = x \/ In y s.
Proof.
  unfold set_add. destruct (set_has x s) eqn:E.
  - apply set_has_In in E. split; [auto|]. intros [->|H]; auto.
  - rewrite in_app_iff. simpl. split; intros [H|H]; auto.
    + destruct H as [H|[]]; auto.
Qed.

Lemma set_add_NoDup (x : nat) (s : JSSet) : NoDup s -> NoDup (set_add x s).
Proof.
  intro H. unfold set_add. destruct (set_has x s) eqn:E; auto.
  apply set_has_not_In in E.
  apply NoDup_app; auto.
  - constructor; [intros []|constructor].
  - intros y Hy [->|[]]. contradiction.
Qed.

Lemma set_delete_In (x y : nat) (s : JSSet) :
  In y (set_delete x s) -> In y s.
Proof.
  induction s as [|z s IH]; simpl; auto.
  destruct (Nat.eqb x z); simpl; intuition.
Qed.

Lemma set_delete_NoDup (x : nat) (s : JSSet) :
  NoDup s -> NoDup (set_delete x s) /\ ~ In x (set_delete x s).
Proof.
  induction s as [|z s IH]; simpl; intro H.
  - split; auto.
  - inversion H as [|? ? Hz Hs]; subst.
    destruct (Nat.eqb x z) eqn:E.
    + apply Nat.eqb_eq in E. subst. auto.
    + destruct (IH Hs) as [IH1 IH2]. split.
      * constructor; auto. intro Hin. apply Hz. eapply set_delete_In; eauto.
      * intros [->|Hin]; [now rewrite Nat.eqb_refl in E|auto].
Qed.

(** ** The classification cache *)

Section CacheFacts.
Import Classifier.

Lemma cacheInsert_bound (k : JSVal) (v : bool) (c : Cache) :
  map_size c <= 500 -> map_size (cacheInsert k v c) <= 500.
Proof.
  intro H. unfold cacheInsert.
  pose proof (map_size_set k v c) as Hs.
  destruct (Nat.ltb 500 (map_size (map_set k v c))) eqn:E.
  - assert (Hne : map_set k v c <> []).
    { intro Hnil. rewrite Hnil in E. discriminate. }
    pose proof (map_size_delete_first _ Hne). lia.
  - apply Nat.ltb_ge in E. exact E.
Qed.

Lemma cacheInsert_get (k : JSVal) (v : bool) (c : Cache) :
  map_get k c = None -> map_get k (cacheInsert k v c) = Some v.
Proof.
  intro Hmiss. unfold cacheInsert.
  destruct (Nat.ltb 500 (map_size (map_set k v c))) eqn:E;
    [|apply map_get_set_same].
  destruct c as [|[k0 v0] c].
  - discriminate.
  - simpl in Hmiss. destruct (JSVal_eqb k k0) eqn:E0; [discriminate|].
    assert (Hfirst : map_first_key (map_set k v ((k0, v0) :: c)) = k0).
    { simpl. now rewrite E0. }
    rewrite Hfirst, map_get_delete_other by exact E0.
    apply map_get_set_same.
Qed.

Lemma cacheInsert_no_evict (k : JSVal) (v : bool) (c : Cache) :
  map_get k c = None -> map_size c < 500 -> cacheInsert k v c = c ++ [(k, v)].
Proof.
  intros Hmiss Hlt. unfold cacheInsert.
  rewrite (map_size_set_miss k v c Hmiss).
  unfold map_size. rewrite length_app. simpl.
  destruct (Nat.ltb 500 (length c + 1)) eqn:E; auto.
  apply Nat.ltb_lt in E. unfold map_size in Hlt. lia.
Qed.

Lemma isUIElement_bound (el : Element) (c : Cache) :
  map_size c <= 500 -> map_size (snd (isUIElement el c)) <= 500.
Proof.
  intro H. unfold isUIElement.
  destruct (cacheKey el); simpl; auto.
  destruct (map_get a c); simpl; auto.
  destruct (computeIsUI el); simpl; auto using cacheInsert_bound.
Qed.

Lemma isUIElement_safe_bound (el : Element) (c : Cache) :
  map_size c <= 500 -> map_size (snd (isUIElement_safe el c)) <= 500.
Proof.
  intro H. unfold isUIElement_safe.
  destruct (cacheKey el); simpl; auto.
  destruct (map_get a c); simpl; auto.
  destruct (computeIsUI_try el); simpl; auto using cacheInsert_bound.
Qed.

(** A throw of the classifier leaves the cache as it was. *)
Lemma isUIElement_throw (el : Element) (c c' : Cache) (e : JSError) :
  isUIElement el c = (Throw e, c') -> c' = c.
Proof.
  unfold isUIElement.
  destruct (cacheKey el); [|now intros [= _ <-]].
  destruct (map_get a c); [discriminate|].
  destruct (computeIsUI el); [discriminate|now intros [= _ <-]].
Qed.

End CacheFacts.

(** ** Claims about the classifier *)

Section ClassifierClaims.
Import Classifier ClassifierSpec Scenarios Pages.

(** C10. The cache key of a node is its [src] when that is truthy, and
    the first 100 characters of its [outerHTML] when it is not; and
    once a node has been classified, classifying another node with the
    same key answers the first node's result and leaves the cache
    alone, whatever the second node's markers and bounding box are. *)
Theorem cache_shared_signature (e1 e2 : Element) (cache cache1 : Cache)
    (key : JSVal) (b : bool) :
  cacheKey e1 = Ok key ->
  cacheKey e2 = Ok key ->
  isUIElement e1 cache = (Ok b, cache1) ->
  (truthy (src e1) = true -> key = src e1)
  /\ (truthy (src e1) = false ->
      exists html,
        outerHTML e1 = JStr html /\ key = JStr (substring 0 100 html))
  /\ isUIElement e2 cache1 = (Ok b, cache1).
Proof.
  intros K1 K2 H1. split; [|split].
  - intro T. unfold cacheKey in K1. rewrite T in K1. congruence.
  - intro T. unfold cacheKey in K1. rewrite T in K1.
    destruct (outerHTML e1) as [| |html|]; try discriminate.
    exists html. split; congruence.
  - unfold isUIElement in *. rewrite K1 in H1. rewrite K2.
    destruct (map_get key cache) as [cached|] eqn:G.
    + injection H1 as -> ->. now rewrite G.
    + destruct (computeIsUI e1) as [isUI|err]; [|discriminate].
      injection H1 as -> <-.
      now rewrite (cacheInsert_get key b cache G).
Qed.

Lemma cache_shared_signature_witness :
  (cacheKey largePhoto = Ok (src largePhoto)
   /\ isUIElement smallAvatar (snd (isUIElement largePhoto []))
      = (Ok false, snd (isUIElement largePhoto []))
   /\ fst (isUIElement smallAvatar []) = Ok true)
  /\ (cacheKey lazyPhoto = Ok (JStr (substring 0 100 lazyPhotoHTML))
      /\ cacheKey lazyAvatar = cacheKey lazyPhoto
      /\ isUIElement lazyAvatar (snd (isUIElement lazyPhoto []))
         = (Ok false, snd (isUIElement lazyPhoto []))
      /\ fst (isUIElement lazyAvatar []) = Ok true).
Proof.
  split.
  - destruct (cache_shared_signature largePhoto smallAvatar []
                (snd (isUIElement largePhoto []))
                (JStr "https://pbs.twimg.com/shared.jpg") false)
      as (H1 & _ & H3); try reflexivity.
    split; [|split; [exact H3|reflexivity]].
    rewrite <- (H1 eq_refl). reflexivity.
  - destruct (cache_shared_signature lazyPhoto lazyAvatar []
                (snd (isUIElement lazyPhoto []))
                (JStr (substring 0 100 lazyPhotoHTML)) false)
      as (_ & H2 & H3); try reflexivity.
    destruct (H2 eq_refl) as (html & Hh & Hk).
    split; [reflexivity|]. split; [reflexivity|].
    split; [exact H3|reflexivity].
Defined.

(** C9, against the specification's wording: a large node whose test id
    contains "Profile" carries a decorative marker, yet both revisions
    of the classifier answer that it is not chrome. *)
Lemma marker_order_counterexample :
  isChrome profileHeader = true
  /\ fst (isUIElement profileHeader []) = Ok false
  /\ fst (isUIElement_safe profileHeader []) = Ok false.
Proof. repeat split; reflexivity. Qed.

Lemma and_includes_attr (a : option string) (needle : string) :
  needle <> "" ->
  and_includes (attrValue a) needle =
  Ok (match a with Some s => includes needle s | None => false end).
Proof.
  intro Hn. destruct a as [s|]; simpl; auto.
  unfold and_includes. simpl.
  destruct s; simpl; auto.
  destruct needle; [congruence|reflexivity].
Qed.

Lemma and_string_lower_attr (a : option string) (needle : string) :
  needle <> "" ->
  and_string_lower_includes (attrValue a) needle =
  match a with Some s => includes needle (toLowerCase s) | None => false end.
Proof.
  intro Hn. destruct a as [s|]; simpl; auto.
  unfold and_string_lower_includes. simpl.
  destruct s; simpl; auto.
  destruct needle; [congruence|reflexivity].
Qed.

(** C9 as amended. On a cache miss, with the attribute and bounding-box
    reads answering, the classifier of every revision tests in this
    order: [data-testid] contains "avatar" as written, or [alt] contains
    "avatar" or "profile" in any letter case, then chrome; otherwise
    chrome exactly when both sides of the bounding box are below 80. *)
Theorem isUIElement_order (el : Element) (cache : Cache) (key : JSVal)
    (testid alt : option string) (rect : DOMRect) :
  cacheKey el = Ok key ->
  map_get key cache = None ->
  getAttribute el "data-testid" = Ok (attrValue testid) ->
  getAttribute el "alt" = Ok (attrValue alt) ->
  getBoundingClientRect el = Ok (Some rect) ->
  let answer :=
    if codeMarker testid alt then true
    else andb (width rect <? 80)%Z (height rect <? 80)%Z in
  fst (isUIElement el cache) = Ok answer
  /\ fst (isUIElement_safe el cache) = Ok answer.
Proof.
  intros K G T A R answer. subst answer.
  unfold isUIElement, isUIElement_safe. rewrite K, G. split.
  - unfold computeIsUI, rbind. rewrite T, A, R.
    unfold codeMarker, smallIcon.
    destruct testid as [t|]; simpl.
    + destruct (includes "avatar" t); simpl; auto.
      destruct alt as [a|]; simpl; auto.
      destruct (includes "avatar" (toLowerCase a)); simpl; auto.
      destruct (includes "profile" (toLowerCase a)); simpl; auto.
    + destruct alt as [a|]; simpl; auto.
      destruct (includes "avatar" (toLowerCase a)); simpl; auto.
      destruct (includes "profile" (toLowerCase a)); simpl; auto.
  - unfold computeIsUI_try, rbind. rewrite T, A, R.
    rewrite and_includes_attr by discriminate.
    rewrite !and_string_lower_attr by discriminate.
    unfold codeMarker, smallIcon.
    destruct testid as [t|]; simpl.
    + destruct (includes "avatar" t); simpl; auto.
      destruct alt as [a|]; simpl; auto.
      destruct (includes "avatar" (toLowerCase a)); simpl; auto.
      destruct (includes "profile" (toLowerCase a)); simpl; auto.
    + destruct alt as [a|]; simpl; auto.
      destruct (includes "avatar" (toLowerCase a)); simpl; auto.
      destruct (includes "profile" (toLowerCase a)); simpl; auto.
Qed.

Lemma isUIElement_order_witness :
  fst (isUIElement profileHeader []) = Ok false
  /\ fst (isUIElement_safe profileHeader []) = Ok false.
Proof.
  apply (isUIElement_order profileHeader []
           (JStr "https://pbs.twimg.com/banner.jpg")
           (Some "UserProfileHeader") None (mkRect 600 200));
    reflexivity.
Defined.






End ClassifierClaims.

(** ** Reasoning about method bodies *)

Section Preservation.
Context {R : World -> World -> Prop} {HR : WorldOrder R}.

Let R_refl := @wo_refl R HR.
Let R_trans := @wo_trans R HR.

Lemma preserves_ret {A} (a : A) : preserves R (ret a).
Proof. intro w. apply R_refl. Qed.

Lemma preserves_throw {A} (e : JSError) : preserves R (@throw A e).
Proof. intro w. apply R_refl. Qed.

Lemma preserves_gets {A} (f : World -> A) : preserves R (gets f).
Proof. intro w. apply R_refl. Qed.

Lemma preserves_lift {A} (r : Res A) : preserves R (lift r).
Proof. intro w. apply R_refl. Qed.

Lemma preserves_theSettings : preserves R theSettings.
Proof. intro w. unfold theSettings. destruct (settings w); apply R_refl. Qed.

Lemma preserves_modify (f : World -> World) :
  (forall w, R w (f w)) -> preserves R (modify f).
Proof. intros H w. apply H. Qed.

Lemma preserves_bind {A B} (m : M A) (f : A -> M B) :
  preserves R m -> (forall a, preserves R (f a)) -> preserves R (bind m f).
Proof.
  intros Hm Hf w. unfold bind. specialize (Hm w).
  destruct (m w) as [[a|e] w1]; simpl in *; auto.
  eapply R_trans; [exact Hm|apply Hf].
Qed.

Lemma preserves_when (b : bool) (m : M unit) :
  preserves R m -> preserves R (when b m).
Proof. intro H. destruct b; simpl; auto using preserves_ret. Qed.

Lemma preserves_forEach {X} (l : list X) (f : X -> M unit) :
  (forall x, In x l -> preserves R (f x)) -> preserves R (forEach l f).
Proof.
  induction l as [|x l IH]; simpl; intro H.
  - apply preserves_ret.
  - apply preserves_bind; [apply H; auto|]. intros _. apply IH. auto.
Qed.

End Preservation.

(** Structural steps of a preservation proof; what is left are the
    assignments. *)
Ltac pres_step :=
  match goal with
  | |- preserves _ (ret _) => apply preserves_ret
  | |- preserves _ (throw _) => apply preserves_throw
  | |- preserves _ (gets _) => apply preserves_gets
  | |- preserves _ (lift _) => apply preserves_lift
  | |- preserves _ (element _) => apply preserves_gets
  | |- preserves _ theSettings => apply preserves_theSettings
  | |- preserves _ (bind _ _) => apply preserves_bind; [|intro]
  | |- preserves _ (when _ _) => apply preserves_when
  | |- preserves _ (forEach _ _) => apply preserves_forEach; intros ? ?
  | |- preserves _ (if ?b then _ else _) => destruct b
  | |- preserves _ (match ?x with Some _ => _ | None => _ end) => destruct x
  | |- preserves _ (modify _) => apply preserves_modify
  | |- preserves _ (assign _ _) => apply preserves_modify
  end.

Ltac pres := repeat pres_step.

Lemma frame_refl (w : World) : frame w w.
Proof. repeat split. Qed.

Lemma frame_trans (a b c : World) : frame a b -> frame b c -> frame a c.
Proof. unfold frame. intuition congruence. Qed.

#[local] Instance frame_order : WorldOrder frame :=
  {| wo_refl := frame_refl; wo_trans := frame_trans |}.

Section SharedFacts.
Import Engine.

Lemma isUIElement_frame (e : node) : preserves frame (isUIElement e).
Proof.
  intro w. unfold isUIElement.
  destruct (Classifier.isUIElement (dom w e) (uiElementCache w)).
  repeat split.
Qed.

Lemma isWhitelisted_eq (e : node) (w : World) (s : Settings) :
  settings w = Some s ->
  isWhitelisted e w = (Ok (arr_includes (hostname w) (whitelistedDomains s)), w).
Proof.
  intro H. unfold isWhitelisted, bind, gets, theSettings, ret. now rewrite H.
Qed.

Lemma isWhitelisted_null (e : node) (w : World) :
  settings w = None ->
  isWhitelisted e w = (Throw (TypeError "this.settings is null"), w).
Proof.
  intro H. unfold isWhitelisted, bind, gets, theSettings, ret. now rewrite H.
Qed.

Lemma shouldFilter_eq (e : node) (type : string) (w : World) (s : Settings) :
  settings w = Some s ->
  shouldFilter e type w =
  (Ok (negb (String.eqb (intensityLevel s) "permissive")), w).
Proof.
  intro H. unfold shouldFilter, isBlacklisted, bind, gets, theSettings, ret.
  rewrite H. destruct (String.eqb (intensityLevel s) "permissive"); simpl; auto.
  rewrite H. destruct (arr_includes (hostname w) (blacklistedDomains s)); auto.
Qed.

End SharedFacts.

(** ** Deny list and intensity *)

Section DenyList.
Import Engine Scenarios.

(** C1. On a page whose domain is on the deny list, with the intensity
    set to permissive, [shouldFilter] answers [false] for images and for
    videos, and [filterImage] and [filterVideo] leave the node visible
    and unrecorded: the permissive test returns before the deny list is
    looked at.  The same holds on every page: under permissive
    intensity [shouldFilter] answers [false] whatever the deny list
    holds. *)
Theorem permissive_wins_over_deny_list :
  let w := engineOn permissiveDenied 1 in
  (fst (isBlacklisted 0 w) = Ok true
   /\ fst (isWhitelisted 0 w) = Ok false
   /\ fst (shouldFilter 0 "image" w) = Ok false
   /\ fst (shouldFilter 0 "video" w) = Ok false
   /\ filteredElements (snd (PlaceholderRev.filterImage 0 w)) = []
   /\ filteredElements (snd (PlaceholderRev.filterVideo 0 w)) = []
   /\ style_display (dom (snd (PlaceholderRev.filterImage 0 w)) 0) = ""
   /\ style_display (dom (snd (PlaceholderRev.filterVideo 0 w)) 0) = "")
  /\ (forall (w0 : World) (s : Settings) (e : node) (type : string),
        settings w0 = Some s ->
        intensityLevel s = "permissive" ->
        shouldFilter e type w0 = (Ok false, w0)).
Proof.
  split; [repeat split; reflexivity|].
  intros w0 s e type S P.
  rewrite (shouldFilter_eq e type w0 s S), P. reflexivity.
Qed.

End DenyList.

(** ** The placeholder revision keeps the frame *)

Section PlaceholderFrame.
Import Engine PlaceholderRev.

Ltac frame_leaf := intro; repeat split.

Lemma removePlaceholder_frame (e : node) : preserves frame (removePlaceholder e).
Proof. unfold removePlaceholder. pres; frame_leaf. Qed.

Lemma createPlaceholder_frame (e : node) (type : string) :
  preserves frame (createPlaceholder e type).
Proof. unfold createPlaceholder. pres; frame_leaf. Qed.

Lemma replaceElement_frame (e : node) (type : string) :
  preserves frame (replaceElement e type).
Proof.
  unfold replaceElement. pres; try frame_leaf.
  all: apply createPlaceholder_frame.
Qed.

Lemma isWhitelisted_frame (e : node) : preserves frame (isWhitelisted e).
Proof. unfold isWhitelisted. pres. Qed.

Lemma shouldFilter_frame (e : node) (type : string) :
  preserves frame (shouldFilter e type).
Proof. unfold shouldFilter, isBlacklisted. pres. Qed.

Lemma filterVideo_frame (e : node) : preserves frame (filterVideo e).
Proof.
  unfold filterVideo. pres;
    auto using isWhitelisted_frame, shouldFilter_frame, replaceElement_frame.
Qed.

Lemma filterImage_frame (e : node) : preserves frame (filterImage e).
Proof.
  unfold filterImage. pres;
    auto using isWhitelisted_frame, shouldFilter_frame, replaceElement_frame.
Qed.

Lemma limitFilteredElements_frame : preserves frame limitFilteredElements.
Proof.
  unfold limitFilteredElements. pres; try frame_leaf.
  all: apply removePlaceholder_frame.
Qed.

Lemma scanForVideos_frame : preserves frame scanForVideos.
Proof. unfold scanForVideos. pres. all: apply filterVideo_frame. Qed.

Lemma scanForImages_frame : preserves frame scanForImages.
Proof.
  unfold scanForImages. pres; auto using isUIElement_frame, filterImage_frame.
Qed.

(** The body of a scan that passed the cooldown test. *)
Lemma scan_body_frame :
  preserves frame
    (limitFilteredElements ;;
     sv <- shouldFilterVideos ;;
     when sv scanForVideos ;;
     si <- shouldFilterImages ;;
     when si scanForImages).
Proof.
  unfold shouldFilterVideos, shouldFilterImages.
  pres; auto using limitFilteredElements_frame, scanForVideos_frame,
    scanForImages_frame.
Qed.

Lemma scanExistingContent_skip (now : Z) (w : World) :
  (now - lastScanTime w < scanCooldown w)%Z ->
  scanExistingContent now w = (Ok tt, w).
Proof.
  intro H. unfold scanExistingContent, bind, gets.
  apply Z.ltb_lt in H. now rewrite H.
Qed.

Lemma scanExistingContent_run_eq (now : Z) (w : World) :
  (scanCooldown w <= now - lastScanTime w)%Z ->
  scanExistingContent now w =
  (limitFilteredElements ;;
   sv <- shouldFilterVideos ;;
   when sv scanForVideos ;;
   si <- shouldFilterImages ;;
   when si scanForImages) (with_lastScanTime now w).
Proof.
  intro H. apply Z.ltb_ge in H.
  unfold scanExistingContent.
  cbv beta iota delta [bind gets]. rewrite H. reflexivity.
Qed.

Lemma scanExistingContent_run (now : Z) (w : World) :
  (scanCooldown w <= now - lastScanTime w)%Z ->
  let w' := snd (scanExistingContent now w) in
  lastScanTime w' = now
  /\ scanCooldown w' = scanCooldown w
  /\ settings w' = settings w
  /\ maxFilteredElements w' = maxFilteredElements w
  /\ hostname w' = hostname w
  /\ querySelectorAll w' = querySelectorAll w.
Proof.
  intro H. rewrite (scanExistingContent_run_eq now w H).
  pose proof (scan_body_frame (with_lastScanTime now w)) as F.
  unfold frame in F. simpl in F. cbv zeta. intuition.
Qed.

End PlaceholderFrame.

(** ** Cooldown *)

Section Cooldown.
Import Engine PlaceholderRev Scenarios.

Lemma canScan_eq (now : Z) (w : World) :
  canScan now w = (Ok (negb (now - lastScanTime w <? scanCooldown w)%Z), w).
Proof.
  unfold canScan, bind, gets.
  destruct (now - lastScanTime w <? scanCooldown w)%Z; reflexivity.
Qed.

Lemma periodicTick_skip (now : Z) (w : World) :
  (now - lastScanTime w < scanCooldown w)%Z ->
  periodicTick now w = (Ok tt, w).
Proof.
  intro H. unfold periodicTick.
  destruct (settings w) as [s|]; auto.
  destruct (enabled s); auto.
  unfold bind. rewrite canScan_eq.
  apply Z.ltb_lt in H. now rewrite H.
Qed.

End Cooldown.

(** ** Concealing and revealing in the direct-hiding revision *)

Section DirectReveal.
Import Engine DirectRev Scenarios.

Lemma upd_same (d : node -> Element) (e : node) (f : Element -> Element) :
  upd d e f e = f (d e).
Proof. unfold upd. now rewrite Nat.eqb_refl. Qed.

Lemma str_or_empty (s : string) : str_or s "" = s.
Proof. unfold str_or. destruct s; reflexivity. Qed.

Lemma bind_ok {A B} (m : M A) (f : A -> M B) (w w1 : World) (a : A) :
  m w = (Ok a, w1) -> bind m f w = f a w1.
Proof. intro H. unfold bind. now rewrite H. Qed.

Lemma bind_throw {A B} (m : M A) (f : A -> M B) (w w1 : World) (e : JSError) :
  m w = (Throw e, w1) -> bind m f w = (Throw e, w1).
Proof. intro H. unfold bind. now rewrite H. Qed.

(** Clearing the child markers touches nothing but the markers. *)
Lemma clear_children_spec (l : list node) (w : World) :
  exists w0,
    forEach l (fun child => assign child (el_with_container_child false)) w
    = (Ok tt, w0)
    /\ filteredElements w0 = filteredElements w
    /\ forall n,
         style_display (dom w0 n) = style_display (dom w n)
         /\ style_visibility (dom w0 n) = style_visibility (dom w n)
         /\ xsafeData (dom w0 n) = xsafeData (dom w n).
Proof.
  revert w. induction l as [|c l IH]; intro w; simpl.
  - exists w. repeat split.
  - unfold bind at 1. unfold assign at 1, modify at 1.
    destruct (IH (with_dom (upd (dom w) c (el_with_container_child false)) w))
      as (w0 & E & F & D).
    exists w0. split; [exact E|]. split; [exact F|].
    intro n. destruct (D n) as (D1 & D2 & D3). simpl in D1, D2, D3.
    unfold upd in D1, D2, D3.
    destruct (Nat.eqb n c); simpl in *; auto.
Qed.

Lemma revealElement_spec (e : node) (w : World) (d : OriginalData) :
  xsafeData (dom w e) = Some d ->
  exists w',
    revealElement e w = (Ok tt, w')
    /\ style_display (dom w' e) = originalDisplay d
    /\ style_visibility (dom w' e) = originalVisibility d
    /\ filteredElements w' = set_delete e (filteredElements w).
Proof.
  intro Hd. unfold revealElement.
  unfold bind at 1. unfold containerChildren, gets.
  set (l := filter _ _).
  assert (Hloop : exists w0,
    when (Nat.ltb 0 (length l))
      (forEach l (fun child => assign child (el_with_container_child false))) w
    = (Ok tt, w0)
    /\ filteredElements w0 = filteredElements w
    /\ xsafeData (dom w0 e) = xsafeData (dom w e)).
  { destruct (Nat.ltb 0 (length l)); simpl.
    - destruct (clear_children_spec l w) as (w0 & E & F & D).
      exists w0. repeat split; auto. apply D.
    - exists w. repeat split. }
  destruct Hloop as (w0 & E & F & D).
  rewrite (bind_ok _ _ _ _ _ E).
  unfold bind, element, gets. rewrite D, Hd.
  unfold assign, modify. simpl.
  eexists. split; [reflexivity|]. simpl.
  rewrite !upd_same. simpl. rewrite !str_or_empty, F. auto.
Qed.

(** C7. In the direct-hiding revision, for every node: after
    [replaceElement] the node is hidden and recorded; [revealElement]
    then returns without an exception, gives [style.display] and
    [style.visibility] the values they had before [replaceElement] was
    called, and the node is no longer in the record set. *)
Theorem reveal_restores (w : World) (e : node) (type : string) :
  NoDup (filteredElements w) ->
  let w1 := snd (replaceElement e type w) in
  let r := revealElement e w1 in
  (style_display (dom w1 e) = "none"
   /\ style_visibility (dom w1 e) = "hidden"
   /\ In e (filteredElements w1))
  /\ fst r = Ok tt
  /\ style_display (dom (snd r) e) = style_display (dom w e)
  /\ style_visibility (dom (snd r) e) = style_visibility (dom w e)
  /\ ~ In e (filteredElements (snd r)).
Proof.
  intros Hnd w1 r.
  assert (H1 : style_display (dom w1 e) = "none"
               /\ style_visibility (dom w1 e) = "hidden"
               /\ filteredElements w1 = set_add e (filteredElements w)
               /\ xsafeData (dom w1 e)
                  = Some (mkOriginalData e type (style_display (dom w e))
                            (style_visibility (dom w e)) (parentNode (dom w e))
                            (Some ("xsafe-" ++ decimal (S (elementCounter w)))%string))).
  { subst w1. unfold replaceElement, bind, modify, gets, assign, element.
    simpl. rewrite !upd_same. simpl. auto. }
  destruct H1 as (Hd & Hv & Hf & Hx).
  destruct (revealElement_spec e w1 _ Hx) as (w2 & E & D2 & V2 & F2).
  subst r. rewrite E. cbn [fst snd].
  rewrite D2, V2. cbn [originalDisplay originalVisibility].
  split; [|split; [reflexivity|split; [reflexivity|split; [reflexivity|]]]].
  - repeat split; auto. rewrite Hf. apply set_add_In. auto.
  - rewrite F2, Hf.
    destruct (set_delete_NoDup e _ (set_add_NoDup e _ Hnd)) as [_ H].
    exact H.
Qed.

Lemma reveal_restores_witness :
  let w := engineOn (moderateSettings "both") 3 in
  let w1 := snd (replaceElement 1 "video" w) in
  let r := revealElement 1 w1 in
  (style_display (dom w1 1) = "none"
   /\ style_visibility (dom w1 1) = "hidden"
   /\ In 1 (filteredElements w1))
  /\ fst r = Ok tt
  /\ style_display (dom (snd r) 1) = style_display (dom w 1)
  /\ style_visibility (dom (snd r) 1) = style_visibility (dom w 1)
  /\ ~ In 1 (filteredElements (snd r)).
Proof.
  apply (reveal_restores (engineOn (moderateSettings "both") 3) 1 "video").
  simpl. constructor.
Defined.

End DirectReveal.

(** ** Concealing once and twice in the placeholder revision *)

Section Idempotence.
Import Engine PlaceholderRev Scenarios.

Lemma replaceElement_cases (e : node) (type : string) (w : World) :
  (snd (replaceElement e type w) = w
   /\ isThrow (fst (replaceElement e type w)) = true)
  \/ (fst (replaceElement e type w) = Ok tt
      /\ frame w (snd (replaceElement e type w))
      /\ concealedIn e w (snd (replaceElement e type w))).
Proof.
  unfold replaceElement, createPlaceholder, bind, element, gets, lift,
    theSettings, throw, ret, assign, modify.
  destruct w as [st fe fl ca mx lt cd ec mo ps si dm hn qs ds]. cbn.
  destruct (getBoundingClientRect (dm e)) as [[rect|]|err] eqn:R; cbn;
    [|left; split; reflexivity|left; split; reflexivity].
  destruct st as [s|]; cbn; [|left; split; reflexivity].
  destruct (showPlaceholders s); cbn.
  - destruct (parentNode (dm e)) eqn:P; cbn; [|left; split; reflexivity].
    destruct (isDocumentElement e _); cbn; [left; split; reflexivity|].
    right. split; [reflexivity|]. split; [repeat split; auto|].
    unfold concealedIn. cbn. repeat split; unfold upd; intros;
      try match goal with
          | |- context [Nat.eqb ?a e] => destruct (Nat.eqb a e)
          end;
      reflexivity.
  - right. split; [reflexivity|]. split; [repeat split; auto|].
    unfold concealedIn. cbn. repeat split; unfold upd; intros;
      try match goal with
          | |- context [Nat.eqb ?a e] => destruct (Nat.eqb a e)
          end;
      reflexivity.
Qed.

Lemma filterImage_eq (e : node) (w : World) (s : Settings) :
  settings w = Some s ->
  filterImage e w =
  if orb (arr_includes (hostname w) (whitelistedDomains s))
         (set_has e (filteredElements w))
  then (Ok tt, w)
  else if String.eqb (intensityLevel s) "permissive" then (Ok tt, w)
       else replaceElement e "image" w.
Proof.
  intro S. unfold filterImage, bind.
  rewrite (isWhitelisted_eq e w s S). cbv beta iota delta [gets].
  destruct (orb _ _); [reflexivity|].
  rewrite (shouldFilter_eq e "image" w s S). cbv beta iota.
  destruct (String.eqb (intensityLevel s) "permissive"); reflexivity.
Qed.

Lemma filterVideo_eq (e : node) (w : World) (s : Settings) :
  settings w = Some s ->
  filterVideo e w =
  if orb (arr_includes (hostname w) (whitelistedDomains s))
         (set_has e (filteredElements w))
  then (Ok tt, w)
  else if String.eqb (intensityLevel s) "permissive" then (Ok tt, w)
       else replaceElement e "video" w.
Proof.
  intro S. unfold filterVideo, bind.
  rewrite (isWhitelisted_eq e w s S). cbv beta iota delta [gets].
  destruct (orb _ _); [reflexivity|].
  rewrite (shouldFilter_eq e "video" w s S). cbv beta iota.
  destruct (String.eqb (intensityLevel s) "permissive"); reflexivity.
Qed.

Lemma filterImage_null (e : node) (w : World) :
  settings w = None -> snd (filterImage e w) = w.
Proof.
  intro S. unfold filterImage, bind. now rewrite (isWhitelisted_null e w S).
Qed.

Lemma filterVideo_null (e : node) (w : World) :
  settings w = None -> snd (filterVideo e w) = w.
Proof.
  intro S. unfold filterVideo, bind. now rewrite (isWhitelisted_null e w S).
Qed.

Lemma filterImage_cases (e : node) (w : World) :
  filterOutcome (filterImage e) e w.
Proof.
  unfold filterOutcome.
  destruct (settings w) as [s|] eqn:S;
    [|left; now apply filterImage_null].
  rewrite (filterImage_eq e w s S).
  destruct (arr_includes (hostname w) (whitelistedDomains s)); simpl;
    [left; reflexivity|].
  destruct (set_has e (filteredElements w)) eqn:Hhas; simpl;
    [left; reflexivity|].
  destruct (String.eqb (intensityLevel s) "permissive"); simpl;
    [left; reflexivity|].
  destruct (replaceElement_cases e "image" w) as [[H _]|(H1 & H2 & H3)];
    [left; exact H|right; auto].
Qed.

Lemma filterVideo_cases (e : node) (w : World) :
  filterOutcome (filterVideo e) e w.
Proof.
  unfold filterOutcome.
  destruct (settings w) as [s|] eqn:S;
    [|left; now apply filterVideo_null].
  rewrite (filterVideo_eq e w s S).
  destruct (arr_includes (hostname w) (whitelistedDomains s)); simpl;
    [left; reflexivity|].
  destruct (set_has e (filteredElements w)) eqn:Hhas; simpl;
    [left; reflexivity|].
  destruct (String.eqb (intensityLevel s) "permissive"); simpl;
    [left; reflexivity|].
  destruct (replaceElement_cases e "video" w) as [[H _]|(H1 & H2 & H3)];
    [left; exact H|right; auto].
Qed.

Lemma filterImage_recorded (e : node) (w : World) :
  In e (filteredElements w) -> snd (filterImage e w) = w.
Proof.
  intro H. apply set_has_In in H.
  destruct (settings w) as [s|] eqn:S; [|now apply filterImage_null].
  rewrite (filterImage_eq e w s S), H, orb_true_r. reflexivity.
Qed.

Lemma filterVideo_recorded (e : node) (w : World) :
  In e (filteredElements w) -> snd (filterVideo e w) = w.
Proof.
  intro H. apply set_has_In in H.
  destruct (settings w) as [s|] eqn:S; [|now apply filterVideo_null].
  rewrite (filterVideo_eq e w s S), H, orb_true_r. reflexivity.
Qed.

Lemma replaceElement_proceeds (e : node) (type : string) (w : World) :
  fst (replaceElement e type w) = Ok tt ->
  frame w (snd (replaceElement e type w))
  /\ concealedIn e w (snd (replaceElement e type w)).
Proof.
  intro Hok.
  destruct (replaceElement_cases e type w) as [[_ H]|(_ & H2 & H3)]; auto.
  rewrite Hok in H. discriminate.
Qed.

Lemma filterImage_proceeds (e : node) (w : World) (s : Settings) :
  settings w = Some s ->
  arr_includes (hostname w) (whitelistedDomains s) = false ->
  String.eqb (intensityLevel s) "permissive" = false ->
  fst (filterImage e w) = Ok tt ->
  In e (filteredElements (snd (filterImage e w)))
  /\ (set_has e (filteredElements w) = false ->
      style_display (dom (snd (filterImage e w)) e) = "none").
Proof.
  intros S Hwl Hperm. rewrite (filterImage_eq e w s S), Hwl, Hperm.
  destruct (set_has e (filteredElements w)) eqn:Hhas; simpl.
  - intros _. split; [now apply set_has_In|discriminate].
  - intro Hok. destruct (replaceElement_proceeds e _ w Hok)
      as (_ & Hf & _ & Hd & _).
    split.
    + rewrite Hf. apply set_add_In. auto.
    + intros _. rewrite Hd. now rewrite Nat.eqb_refl.
Qed.

Lemma filterVideo_proceeds (e : node) (w : World) (s : Settings) :
  settings w = Some s ->
  arr_includes (hostname w) (whitelistedDomains s) = false ->
  String.eqb (intensityLevel s) "permissive" = false ->
  fst (filterVideo e w) = Ok tt ->
  In e (filteredElements (snd (filterVideo e w)))
  /\ (set_has e (filteredElements w) = false ->
      style_display (dom (snd (filterVideo e w)) e) = "none").
Proof.
  intros S Hwl Hperm. rewrite (filterVideo_eq e w s S), Hwl, Hperm.
  destruct (set_has e (filteredElements w)) eqn:Hhas; simpl.
  - intros _. split; [now apply set_has_In|discriminate].
  - intro Hok. destruct (replaceElement_proceeds e _ w Hok)
      as (_ & Hf & _ & Hd & _).
    split.
    + rewrite Hf. apply set_add_In. auto.
    + intros _. rewrite Hd. now rewrite Nat.eqb_refl.
Qed.

(** What both filters share, for the statement about calling twice. *)
Lemma twice_noop (m : M unit) (e : node) (w : World) :
  (forall w0, filterOutcome m e w0) ->
  NoDup (filteredElements w) ->
  snd (m (snd (m w))) = snd (m w)
  /\ NoDup (filteredElements (snd (m w))).
Proof.
  intros Hcases Hnd.
  destruct (Hcases w) as [H|(Hok & Hhas & Hfr & Hc)].
  - rewrite !H. split; auto.
  - destruct Hc as (Hf & _).
    assert (Hin : set_has e (filteredElements (snd (m w))) = true).
    { apply set_has_In. rewrite Hf. apply set_add_In. auto. }
    split; [|rewrite Hf; now apply set_add_NoDup].
    destruct (Hcases (snd (m w))) as [H|(_ & Hhas' & _)]; [exact H|].
    congruence.
Qed.

(** C8. [filterImage] and [filterVideo] of the placeholder revision are
    idempotent.  The concealed elements form a [Set], so the record set
    has no repetition.  A second call on the same node returns the
    world the first call left, node style included, and the node is
    recorded at most once.  When the page is not on the allow list and
    the intensity is not permissive, a first call that returns normally
    leaves exactly one record for the node, and a node it newly
    concealed has [display] "none".  A call on a node that is already
    recorded changes nothing. *)
Theorem conceal_idempotent (w : World) (e : node) :
  NoDup (filteredElements w) ->
  let w1 := snd (filterImage e w) in
  let v1 := snd (filterVideo e w) in
  (snd (filterImage e w1) = w1 /\ snd (filterVideo e v1) = v1)
  /\ (count_occ Nat.eq_dec (filteredElements (snd (filterImage e w1))) e <= 1
      /\ count_occ Nat.eq_dec (filteredElements (snd (filterVideo e v1))) e <= 1)
  /\ (forall s,
        settings w = Some s ->
        arr_includes (hostname w) (whitelistedDomains s) = false ->
        String.eqb (intensityLevel s) "permissive" = false ->
        (fst (filterImage e w) = Ok tt ->
         count_occ Nat.eq_dec (filteredElements (snd (filterImage e w1))) e = 1
         /\ (set_has e (filteredElements w) = false ->
             style_display (dom (snd (filterImage e w1)) e) = "none"))
        /\ (fst (filterVideo e w) = Ok tt ->
            count_occ Nat.eq_dec (filteredElements (snd (filterVideo e v1))) e = 1
            /\ (set_has e (filteredElements w) = false ->
                style_display (dom (snd (filterVideo e v1)) e) = "none")))
  /\ (In e (filteredElements w) ->
      snd (filterImage e w) = w /\ snd (filterVideo e w) = w).
Proof.
  intros Hnd w1 v1.
  destruct (twice_noop (filterImage e) e w (filterImage_cases e) Hnd)
    as (I1 & I2).
  destruct (twice_noop (filterVideo e) e w (filterVideo_cases e) Hnd)
    as (V1 & V2).
  fold w1 in I1, I2. fold v1 in V1, V2.
  rewrite I1, V1.
  split; [auto|]. split; [|split].
  - split; apply NoDup_count_occ; assumption.
  - intros s S Hwl Hperm. split; intro Hok.
    + destruct (filterImage_proceeds e w s S Hwl Hperm Hok) as [Hin Hd].
      split; [apply NoDup_count_occ'; auto|exact Hd].
    + destruct (filterVideo_proceeds e w s S Hwl Hperm Hok) as [Hin Hd].
      split; [apply NoDup_count_occ'; auto|exact Hd].
  - intro Hin. split;
      [now apply filterImage_recorded|now apply filterVideo_recorded].
Qed.

Lemma conceal_idempotent_witness :
  let w := engineOn (moderateSettings "both") 3 in
  let w1 := snd (filterImage 1 w) in
  snd (filterImage 1 w1) = w1
  /\ count_occ Nat.eq_dec (filteredElements (snd (filterImage 1 w1))) 1 = 1
  /\ style_display (dom (snd (filterImage 1 w1)) 1) = "none".
Proof.
  destruct (conceal_idempotent (engineOn (moderateSettings "both") 3) 1)
    as ((A & _) & _ & C & _); [constructor|].
  destruct (C (moderateSettings "both") eq_refl eq_refl eq_refl) as [I _].
  destruct (I eq_refl) as [I1 I2].
  split; [exact A|split; [exact I1|exact (I2 eq_refl)]].
Defined.

End Idempotence.

(** ** The cap on recorded elements and the eviction of the oldest *)

Section CapAndEviction.
Import Engine PlaceholderRev Scenarios.

Lemma removePlaceholder_spec (e : node) (w : World) :
  exists w',
    removePlaceholder e w = (Ok tt, w')
    /\ filteredElements w' = filteredElements w
    /\ uiElementCache w' = uiElementCache w
    /\ frame w w'
    /\ sameElements w w'
    /\ forall n, xsafePlaceholder (dom w' n)
                 = if Nat.eqb n e
                   then option_map ph_remove (xsafePlaceholder (dom w n))
                   else xsafePlaceholder (dom w n).
Proof.
  unfold removePlaceholder, bind, element, gets, assign, modify.
  destruct (xsafePlaceholder (dom w e)) as [p|] eqn:P.
  - eexists. split; [reflexivity|]. simpl.
    split; [reflexivity|]. split; [reflexivity|].
    split; [repeat split|]. split.
    + intro n. unfold upd. simpl.
      destruct (Nat.eqb n e); repeat split.
    + intro n. unfold upd. simpl. destruct (Nat.eqb n e) eqn:E; auto.
      apply Nat.eqb_eq in E. subst n. now rewrite P.
  - exists w. split; [reflexivity|]. repeat split.
    intro n. destruct (Nat.eqb n e) eqn:E; auto.
    apply Nat.eqb_eq in E. subst n. now rewrite P.
Qed.

Lemma sameElements_trans (a b c : World) :
  sameElements a b -> sameElements b c -> sameElements a c.
Proof.
  intros H1 H2 n. specialize (H1 n). specialize (H2 n).
  intuition congruence.
Qed.

Lemma ph_remove_idem (o : option Placeholder) :
  option_map ph_remove (option_map ph_remove o) = option_map ph_remove o.
Proof. destruct o; reflexivity. Qed.

(** The eviction loop on a record set that starts with the elements it
    visits. *)
Lemma evict_spec (es rest : list node) (w : World) :
  filteredElements w = es ++ rest ->
  exists w',
    forEach es (fun e =>
      removePlaceholder e ;;
      modify (fun w => with_filteredElements
                         (set_delete e (filteredElements w)) w)) w
    = (Ok tt, w')
    /\ filteredElements w' = rest
    /\ uiElementCache w' = uiElementCache w
    /\ frame w w'
    /\ sameElements w w'
    /\ forall n, xsafePlaceholder (dom w' n)
                 = if set_has n es
                   then option_map ph_remove (xsafePlaceholder (dom w n))
                   else xsafePlaceholder (dom w n).
Proof.
  revert w. induction es as [|x es IH]; intros w Hf; simpl.
  - exists w. repeat split; auto.
  - destruct (removePlaceholder_spec x w) as (wa & Ea & Fa & Ca & Ra & Sa & Pa).
    unfold bind at 1. unfold bind at 1. rewrite Ea.
    unfold modify at 1.
    set (wb := with_filteredElements (set_delete x (filteredElements wa)) wa).
    assert (Hb : filteredElements wb = es ++ rest).
    { subst wb. simpl. rewrite Fa, Hf. simpl. now rewrite Nat.eqb_refl. }
    destruct (IH wb Hb) as (w' & E & F & C & Rr & Ss & Pp).
    exists w'. split; [exact E|]. split; [exact F|].
    split; [rewrite C; exact Ca|].
    split; [eapply frame_trans; [exact Ra|exact Rr]|].
    split; [eapply sameElements_trans; [exact Sa|exact Ss]|].
    intro n. rewrite Pp. subst wb. simpl. rewrite Pa.
    destruct (Nat.eqb n x); simpl;
      destruct (set_has n es); auto using ph_remove_idem.
Qed.

Lemma revisions_share_limit :
  DirectRev.limitFilteredElements = PlaceholderRev.limitFilteredElements.
Proof. reflexivity. Qed.

(** Trimming in full: what it returns and what it leaves alone. *)
Lemma limitFilteredElements_spec (w : World) :
  let k := set_size (filteredElements w) - maxFilteredElements w in
  exists w',
    limitFilteredElements w = (Ok tt, w')
    /\ filteredElements w' = skipn k (filteredElements w)
    /\ set_size (filteredElements w') <= maxFilteredElements w
    /\ uiElementCache w' = uiElementCache w
    /\ frame w w'
    /\ sameElements w w'
    /\ forall n, xsafePlaceholder (dom w' n)
                 = if set_has n (firstn k (filteredElements w))
                   then option_map ph_remove (xsafePlaceholder (dom w n))
                   else xsafePlaceholder (dom w n).
Proof.
  intro k. unfold limitFilteredElements, bind, gets. fold k.
  destruct (Nat.ltb (maxFilteredElements w) (set_size (filteredElements w)))
    eqn:E.
  - destruct (evict_spec (firstn k (filteredElements w))
                (skipn k (filteredElements w)) w)
      as (w' & Ev & F & C & Fr & Ss & Pp).
    { symmetry. apply firstn_skipn. }
    exists w'. split; [exact Ev|]. split; [exact F|].
    split; [|auto].
    rewrite F. unfold set_size. rewrite length_skipn.
    apply Nat.ltb_lt in E. unfold set_size in *. lia.
  - apply Nat.ltb_ge in E.
    assert (Hk : k = 0) by (unfold k; lia).
    exists w. rewrite Hk. simpl.
    repeat split; auto.
Qed.

(** C2, against the claim as worded.  Two hundred and one videos are
    concealed by one scan.  When the next scan trims the record set, the
    oldest node leaves the set with [display] still "none", although
    the value saved for it is the empty string; its placeholder is
    taken out of the page. *)
Lemma eviction_counterexample :
  let w1 := afterScan 5000 (engineOn (moderateSettings "both") 201) in
  let w2 := snd (limitFilteredElements w1) in
  set_has 0 (filteredElements w1) = true
  /\ set_has 0 (filteredElements w2) = false
  /\ option_map originalDisplay (xsafeData (dom w1 0)) = Some ""
  /\ style_display (dom w2 0) = "none"
  /\ option_map ph_attached (xsafePlaceholder (dom w2 0)) = Some false.
Proof. vm_compute. repeat split. Qed.

(** C2 as amended.  Trimming, in the placeholder and in the
    direct-hiding revision, forgets the oldest records and restores
    nothing: it never throws; the record set loses its
    [size - maxFilteredElements] oldest members and ends within the
    cap; every element keeps its [display], its [visibility] and its
    saved data, so an evicted element stays hidden; and the placeholder
    of an evicted element is removed from the page. *)
Theorem eviction_forgets_without_restoring (w : World) :
  let k := set_size (filteredElements w) - maxFilteredElements w in
  exists w',
    PlaceholderRev.limitFilteredElements w = (Ok tt, w')
    /\ DirectRev.limitFilteredElements w = (Ok tt, w')
    /\ filteredElements w' = skipn k (filteredElements w)
    /\ set_size (filteredElements w') <= maxFilteredElements w
    /\ sameElements w w'
    /\ forall n, xsafePlaceholder (dom w' n)
                 = if set_has n (firstn k (filteredElements w))
                   then option_map ph_remove (xsafePlaceholder (dom w n))
                   else xsafePlaceholder (dom w n).
Proof.
  intro k. rewrite revisions_share_limit.
  destruct (limitFilteredElements_spec w) as (w' & E & F & B & _ & _ & Ss & Pp).
  exists w'. repeat split; auto; apply Ss.
Qed.

(** C4: the record set after scans of a page of 201 videos.  The first
    scan returns normally and leaves 201 recorded elements under a cap
    of 200; the second scan trims the set to 200 and conceals the
    evicted node again, so the set is back at 201, and the value saved
    for that node is now "none". *)
Theorem cap_exceeded_after_scan :
  let w0 := engineOn (moderateSettings "both") 201 in
  let w1 := afterScan 5000 w0 in
  let w2 := afterScan 10000 w1 in
  maxFilteredElements w1 = 200
  /\ fst (scanExistingContent 5000 w0) = Ok tt
  /\ set_size (filteredElements w1) = 201
  /\ fst (scanExistingContent 10000 w1) = Ok tt
  /\ set_size (filteredElements w2) = 201
  /\ option_map originalDisplay (xsafeData (dom w1 0)) = Some ""
  /\ option_map originalDisplay (xsafeData (dom w2 0)) = Some "none".
Proof. vm_compute. repeat split. Qed.

End CapAndEviction.

(** ** The cache limit is an invariant of every entry point *)

Section CacheInvariant.
Import Engine PlaceholderRev.

Lemma cacheBounded_refl (w : World) : cacheBounded w w.
Proof. intro H. exact H. Qed.

Lemma cacheBounded_trans (a b c : World) :
  cacheBounded a b -> cacheBounded b c -> cacheBounded a c.
Proof. unfold cacheBounded. auto. Qed.

#[local] Instance cacheBounded_order : WorldOrder cacheBounded :=
  {| wo_refl := cacheBounded_refl; wo_trans := cacheBounded_trans |}.

Ltac cache_leaf :=
  let w := fresh "w" in
  let H := fresh "H" in
  intros w H; simpl; first [exact H | apply Nat.le_0_l].

Lemma isUIElement_cacheBounded (e : node) :
  preserves cacheBounded (isUIElement e).
Proof.
  intros w H. unfold isUIElement.
  pose proof (isUIElement_bound (dom w e) (uiElementCache w) H) as B.
  destruct (Classifier.isUIElement (dom w e) (uiElementCache w)). exact B.
Qed.

Lemma scanExistingContent_cacheBounded (now : Z) :
  preserves cacheBounded (scanExistingContent now).
Proof.
  unfold scanExistingContent, limitFilteredElements, shouldFilterVideos,
    shouldFilterImages, scanForVideos, scanForImages, filterVideo,
    filterImage, isWhitelisted, shouldFilter, isBlacklisted, replaceElement,
    createPlaceholder, removePlaceholder.
  pres; try cache_leaf; apply isUIElement_cacheBounded.
Qed.

Lemma startFiltering_cacheBounded (now : Z) :
  preserves cacheBounded (startFiltering now).
Proof.
  unfold startFiltering, setupObservers, injectPlaceholderCSS,
    setupPeriodicScanning.
  pres; try cache_leaf; apply scanExistingContent_cacheBounded.
Qed.

Lemma stopFiltering_cacheBounded : preserves cacheBounded stopFiltering.
Proof.
  unfold stopFiltering, restoreAllElements, revealElement, removePlaceholder,
    cleanup.
  pres; cache_leaf.
Qed.

(** Whatever message arrives, whenever the timer fires and whichever
    node is classified or concealed, a cache of at most 500 entries is
    left with at most 500 entries. *)
Lemma cache_limit_invariant (now : Z) (message : Message) (e : node) :
  preserves cacheBounded (handleMessage now message)
  /\ preserves cacheBounded (periodicTick now)
  /\ preserves cacheBounded (startIfEnabled now)
  /\ preserves cacheBounded (isUIElement e)
  /\ preserves cacheBounded (filterImage e)
  /\ preserves cacheBounded (filterVideo e).
Proof.
  repeat split.
  - unfold handleMessage.
    pres; try cache_leaf;
      auto using startFiltering_cacheBounded, stopFiltering_cacheBounded,
        scanExistingContent_cacheBounded.
  - assert (P : preserves cacheBounded
                   (ok <- canScan now ;; when ok (scanExistingContent now))).
    { unfold canScan. pres; apply scanExistingContent_cacheBounded. }
    intro w. unfold periodicTick.
    destruct (settings w) as [s|]; [|apply cacheBounded_refl].
    destruct (enabled s); [|apply cacheBounded_refl].
    apply P.
  - intro w. unfold startIfEnabled.
    destruct (settings w) as [s|]; [|apply cacheBounded_refl].
    destruct (enabled s); [|apply cacheBounded_refl].
    apply startFiltering_cacheBounded.
  - apply isUIElement_cacheBounded.
  - unfold filterImage, isWhitelisted, shouldFilter, isBlacklisted,
      replaceElement, createPlaceholder.
    pres; cache_leaf.
  - unfold filterVideo, isWhitelisted, shouldFilter, isBlacklisted,
      replaceElement, createPlaceholder.
    pres; cache_leaf.
Qed.

End CacheInvariant.

(** ** What a scan adds and what it never undoes *)

Section ScanGrowth.
Import Engine PlaceholderRev.

Lemma neverShown_refl (w : World) : neverShown w w.
Proof. split; auto. Qed.

Lemma neverShown_trans (a b c : World) :
  neverShown a b -> neverShown b c -> neverShown a c.
Proof.
  intros [D1 V1] [D2 V2]. split; intro n.
  - destruct (D2 n) as [H|H]; [|auto].
    destruct (D1 n) as [H'|H']; [left|right]; congruence.
  - now rewrite V2.
Qed.

Lemma grows_refl (room : Prop) (w : World) : grows room w w.
Proof.
  unfold grows. split; [apply frame_refl|]. split; [auto|].
  split; [apply neverShown_refl|]. repeat split; auto.
Qed.

Lemma grows_trans (room : Prop) (a b c : World) :
  grows room a b -> grows room b c -> grows room a c.
Proof.
  intros (F1 & M1 & N1 & H1 & I1 & C1) (F2 & M2 & N2 & H2 & I2 & C2).
  unfold grows. split; [eapply frame_trans; eauto|].
  split; [auto|]. split; [eapply neverShown_trans; eauto|].
  split; [|split; auto].
  intro n. destruct (H1 n), (H2 n). split; congruence.
Qed.

#[local] Instance grows_order (room : Prop) : WorldOrder (grows room) :=
  {| wo_refl := grows_refl room; wo_trans := grows_trans room |}.

(** A loop whose steps keep an invariant that counts the elements
    still to visit. *)
Lemma forEach_post {X} (f : X -> M unit) (R : World -> World -> Prop)
    (HR : WorldOrder R) (Inv : nat -> World -> Prop)
    (Post : X -> World -> Prop) :
  (forall n w, Inv (S n) w -> Inv n w) ->
  (forall x n w, Inv (S n) w ->
     Inv n (snd (f x w)) /\ R w (snd (f x w))
     /\ (fst (f x w) = Ok tt -> Post x (snd (f x w)))) ->
  (forall x w w', Post x w -> R w w' -> Post x w') ->
  forall l w, Inv (length l) w ->
    Inv 0 (snd (forEach l f w))
    /\ R w (snd (forEach l f w))
    /\ (fst (forEach l f w) = Ok tt ->
        forall x, In x l -> Post x (snd (forEach l f w))).
Proof.
  intros Hdown Hstep Hstable.
  assert (Hzero : forall n w, Inv n w -> Inv 0 w).
  { induction n; auto. }
  induction l as [|a l IH]; intros w HI; simpl.
  - split; [exact HI|]. split; [apply wo_refl|]. intros _ x [].
  - unfold bind.
    destruct (Hstep a (length l) w HI) as (I1 & R1 & P1).
    destruct (f a w) as [[[]|err] w1] eqn:E; simpl in *.
    + destruct (IH w1 I1) as (I2 & R2 & P2).
      split; [exact I2|]. split; [eapply wo_trans; eauto|].
      intros Hok x [<-|Hin].
      * eapply Hstable; [apply P1; reflexivity|exact R2].
      * apply P2; auto.
    + split; [eapply Hzero; eauto|]. split; [exact R1|discriminate].
Qed.

Lemma filterOutcome_grows (room : Prop) (m : M unit) (e : node) (w : World) :
  filterOutcome m e w ->
  grows room w (snd (m w))
  /\ uiElementCache (snd (m w)) = uiElementCache w.
Proof.
  intros [H|(_ & Hhas & Hfr & Hf & Hc & Hd & Hv & Hh)].
  - rewrite H. split; [apply grows_refl|reflexivity].
  - split; [|exact Hc].
    unfold grows. split; [exact Hfr|].
    split; [intros x Hx; rewrite Hf; apply set_add_In; auto|].
    split; [split; [|exact Hv]|].
    { intro n. rewrite Hd. destruct (Nat.eqb n e); auto. }
    split; [intro n; destruct (Hh n) as (? & ? & _); auto|].
    split; [|intros _ k b; now rewrite Hc].
    intros Hhid x Hx. rewrite Hd.
    destruct (Nat.eqb x e) eqn:E; [reflexivity|].
    rewrite Hf in Hx. apply set_add_In in Hx.
    destruct Hx as [->|Hx]; [now rewrite Nat.eqb_refl in E|auto].
Qed.

Lemma map_get_app {V} (k k' : JSVal) (v b : V) (m : JSMap V) :
  map_get k m = Some b -> map_get k (m ++ [(k', v)]) = Some b.
Proof.
  induction m as [|[k0 v0] m IH]; simpl; [discriminate|].
  destruct (JSVal_eqb k k0); auto.
Qed.

Lemma cacheKey_ext (a b : Element) :
  src a = src b -> outerHTML a = outerHTML b ->
  Classifier.cacheKey a = Classifier.cacheKey b.
Proof. intros H1 H2. unfold Classifier.cacheKey. now rewrite H1, H2. Qed.

(** One classification: only the cache changes; while the cache has
    room it keeps what it held and now answers for the node's key. *)
Lemma isUIElement_step (e : node) (w : World) :
  exists r c,
    isUIElement e w = (r, with_uiElementCache c w)
    /\ (map_size (uiElementCache w) < 500 ->
        map_size c <= S (map_size (uiElementCache w))
        /\ (forall k b, map_get k (uiElementCache w) = Some b ->
                        map_get k c = Some b)
        /\ (r = Ok true ->
            exists k, Classifier.cacheKey (dom w e) = Ok k
                      /\ map_get k c = Some true)).
Proof.
  unfold isUIElement, Classifier.isUIElement.
  destruct (Classifier.cacheKey (dom w e)) as [k|err] eqn:K.
  - destruct (map_get k (uiElementCache w)) as [cached|] eqn:G.
    + exists (Ok cached), (uiElementCache w).
      repeat split; auto. intros [= ->]. exists k. auto.
    + destruct (Classifier.computeIsUI (dom w e)) as [isUI|err'].
      * exists (Ok isUI), (Classifier.cacheInsert k isUI (uiElementCache w)).
        split; [reflexivity|]. intro Hroom.
        rewrite (cacheInsert_no_evict k isUI _ G Hroom). split.
        { unfold map_size. rewrite length_app. simpl. lia. }
        split; [intros k0 b; apply map_get_app|].
        intros [= ->]. exists k. split; [reflexivity|].
        rewrite <- (map_size_set_miss k true _ G). apply map_get_set_same.
      * exists (Throw err'), (uiElementCache w).
        repeat split; auto. discriminate.
  - exists (Throw err), (uiElementCache w). repeat split; auto. discriminate.
Qed.

Lemma with_cache_grows (room : Prop) (c : Classifier.Cache) (w : World) :
  (room -> forall k b, map_get k (uiElementCache w) = Some b ->
                       map_get k c = Some b) ->
  grows room w (with_uiElementCache c w).
Proof.
  intro H. unfold grows. split; [repeat split|]. split; [auto|].
  split; [split; intro n; simpl; auto|]. repeat split; auto.
Qed.

Lemma isUIElement_grows (e : node) : preserves (grows False) (isUIElement e).
Proof.
  intro w. destruct (isUIElement_step e w) as (r & c & E & _).
  rewrite E. apply with_cache_grows. intros [].
Qed.

Section Policy.
Variable s : Settings.
Variable h : string.
Hypothesis not_allowed : arr_includes h (whitelistedDomains s) = false.
Hypothesis not_permissive : String.eqb (intensityLevel s) "permissive" = false.

Lemma videos_loop (room : Prop) (l : list node) (w : World) :
  settings w = Some s ->
  hostname w = h ->
  uiElementCache (snd (forEach l filterVideo w)) = uiElementCache w
  /\ grows room w (snd (forEach l filterVideo w))
  /\ (fst (forEach l filterVideo w) = Ok tt ->
      forall e, In e l -> In e (filteredElements (snd (forEach l filterVideo w)))).
Proof.
  intros S H.
  pose (Inv := fun (_ : nat) (w0 : World) =>
    settings w0 = Some s /\ hostname w0 = h
    /\ uiElementCache w0 = uiElementCache w).
  destruct (forEach_post filterVideo (grows room) (grows_order room) Inv
              (fun e w0 => In e (filteredElements w0))) with (l := l) (w := w)
    as ((_ & _ & C) & G & P).
  - auto.
  - intros x n w0 (S0 & H0 & C0).
    destruct (filterOutcome_grows room _ x w0 (filterVideo_cases x w0))
      as [G C].
    split; [|split; [exact G|]].
    + destruct G as ((Fs & _ & _ & _ & Fh & _) & _).
      unfold Inv. rewrite Fs, Fh, C. auto.
    + intro Hok. rewrite <- H0 in not_allowed.
      apply (filterVideo_proceeds x w0 s S0 not_allowed not_permissive Hok).
  - intros x w0 w' Hin (_ & M & _). auto.
  - unfold Inv. auto.
  - auto.
Qed.

Lemma images_loop (l : list node) (w : World) :
  settings w = Some s ->
  hostname w = h ->
  let room := map_size (uiElementCache w) + length l <= 500 in
  let body := fun e => ui <- isUIElement e ;; when (negb ui) (filterImage e) in
  grows room w (snd (forEach l body w))
  /\ (fst (forEach l body w) = Ok tt ->
      room ->
      forall e, In e l ->
        In e (filteredElements (snd (forEach l body w)))
        \/ exempted e (snd (forEach l body w))).
Proof.
  intros S H room body.
  pose (Inv := fun (n : nat) (w0 : World) =>
    settings w0 = Some s /\ hostname w0 = h
    /\ (room -> map_size (uiElementCache w0) + n <= 500)).
  destruct (forEach_post body (grows room) (grows_order room) Inv
              (fun e w0 => room ->
                 In e (filteredElements w0) \/ exempted e w0))
    with (l := l) (w := w) as (_ & G & P).
  - intros n w0 (S0 & H0 & C0). unfold Inv. repeat split; auto.
    intro Hr. specialize (C0 Hr). lia.
  - intros x n w0 (S0 & H0 & C0).
    destruct (isUIElement_step x w0) as (r & c & E & Hstep).
    assert (Hroom : room -> map_size (uiElementCache w0) < 500).
    { intro Hr. specialize (C0 Hr). lia. }
    assert (Gc : grows room w0 (with_uiElementCache c w0)).
    { apply with_cache_grows. intro Hr. apply (Hstep (Hroom Hr)). }
    assert (Ic : room -> map_size c + n <= 500).
    { intro Hr. destruct (Hstep (Hroom Hr)) as (Hc & _).
      specialize (C0 Hr). lia. }
    unfold body, bind. rewrite E.
    destruct r as [[|]|err]; simpl.
    + split; [unfold Inv; simpl; auto|].
      split; [exact Gc|]. intros _ Hr. right.
      destruct (Hstep (Hroom Hr)) as (_ & _ & Hx).
      destruct (Hx eq_refl) as (k & K & Gk). exists k. simpl. auto.
    + set (wc := with_uiElementCache c w0) in *.
      destruct (filterOutcome_grows room _ x wc (filterImage_cases x wc))
        as [G C].
      split; [|split; [eapply grows_trans; eauto|]].
      * destruct G as ((Fs & _ & _ & _ & Fh & _) & _).
        unfold Inv. rewrite Fs, Fh, C. subst wc. simpl. auto.
      * intros Hok _. left.
        assert (Hwl : arr_includes (hostname wc) (whitelistedDomains s) = false).
        { subst wc. simpl. now rewrite H0. }
        apply (filterImage_proceeds x wc s S0 Hwl not_permissive Hok).
    + split; [unfold Inv; simpl; auto|].
      split; [exact Gc|discriminate].
  - intros x w0 w' HP (_ & M & _ & Hh & _ & Hc) Hr.
    destruct (HP Hr) as [Hin|(k & K & Gk)].
    + left. auto.
    + right. exists k. split; [|auto].
      destruct (Hh x) as [H1 H2].
      rewrite (cacheKey_ext (dom w' x) (dom w0 x) H1 H2). exact K.
  - unfold Inv. auto.
  - auto.
Qed.




Lemma shouldFilterVideos_eq (w : World) :
  settings w = Some s ->
  shouldFilterVideos w = (Ok (arr_includes (filterMode s) ["videos"; "both"]), w).
Proof.
  intro S. unfold shouldFilterVideos, bind, theSettings, ret. now rewrite S.
Qed.

Lemma shouldFilterImages_eq (w : World) :
  settings w = Some s ->
  shouldFilterImages w = (Ok (arr_includes (filterMode s) ["images"; "both"]), w).
Proof.
  intro S. unfold shouldFilterImages, bind, theSettings, ret. now rewrite S.
Qed.

Lemma videos_phase (room : Prop) (sv : bool) (w : World) :
  settings w = Some s ->
  hostname w = h ->
  uiElementCache (snd (when sv scanForVideos w)) = uiElementCache w
  /\ grows room w (snd (when sv scanForVideos w))
  /\ (fst (when sv scanForVideos w) = Ok tt ->
      sv = true ->
      forall e, In e (querySelectorAll w videoSelector) ->
        In e (filteredElements (snd (when sv scanForVideos w)))).
Proof.
  intros S H. destruct sv; simpl.
  - change (scanForVideos w)
      with (forEach (querySelectorAll w videoSelector) filterVideo w).
    destruct (videos_loop room (querySelectorAll w videoSelector) w S H)
      as (C & G & P).
    auto.
  - split; [reflexivity|]. split; [apply grows_refl|discriminate].
Qed.

Lemma images_phase (si : bool) (w : World) :
  settings w = Some s ->
  hostname w = h ->
  let room := map_size (uiElementCache w)
              + length (querySelectorAll w imageSelector) <= 500 in
  grows room w (snd (when si scanForImages w))
  /\ (fst (when si scanForImages w) = Ok tt ->
      si = true ->
      room ->
      forall e, In e (querySelectorAll w imageSelector) ->
        In e (filteredElements (snd (when si scanForImages w)))
        \/ exempted e (snd (when si scanForImages w))).
Proof.
  intros S H room. destruct si; simpl.
  - change (scanForImages w)
      with (forEach (querySelectorAll w imageSelector)
              (fun e => ui <- isUIElement e ;; when (negb ui) (filterImage e)) w).
    destruct (images_loop (querySelectorAll w imageSelector) w S H) as (G & P).
    auto.
  - split; [apply grows_refl|discriminate].
Qed.

(** The two scan phases after trimming, when the run ends normally. *)
Lemma scan_phases_post (w : World) :
  settings w = Some s ->
  hostname w = h ->
  let phases :=
    sv <- shouldFilterVideos ;;
    when sv scanForVideos ;;
    si <- shouldFilterImages ;;
    when si scanForImages in
  fst (phases w) = Ok tt ->
  (arr_includes (filterMode s) ["videos"; "both"] = true ->
   forall e, In e (querySelectorAll w videoSelector) ->
     In e (filteredElements (snd (phases w))))
  /\ (arr_includes (filterMode s) ["images"; "both"] = true ->
      map_size (uiElementCache w)
      + length (querySelectorAll w imageSelector) <= 500 ->
      forall e, In e (querySelectorAll w imageSelector) ->
        In e (filteredElements (snd (phases w)))
        \/ exempted e (snd (phases w))).
Proof.
  intros S H phases. subst phases.
  rewrite (bind_ok _ _ _ _ _ (shouldFilterVideos_eq w S)).
  set (sv := arr_includes (filterMode s) ["videos"; "both"]).
  set (si := arr_includes (filterMode s) ["images"; "both"]).
  set (room := map_size (uiElementCache w)
               + length (querySelectorAll w imageSelector) <= 500).
  destruct (videos_phase room sv w S H) as (C3 & G3 & P3).
  destruct (when sv scanForVideos w) as [[[]|err] w3] eqn:E3;
    [|unfold bind; rewrite E3; discriminate].
  rewrite (bind_ok _ _ _ _ _ E3). simpl in C3, G3, P3.
  assert (S3 : settings w3 = Some s).
  { destruct G3 as ((Fs & _) & _). now rewrite Fs. }
  assert (H3 : hostname w3 = h).
  { destruct G3 as ((_ & _ & _ & _ & Fh & _) & _). now rewrite Fh. }
  assert (Q3 : querySelectorAll w3 = querySelectorAll w).
  { destruct G3 as ((_ & _ & _ & _ & _ & Fq) & _). exact Fq. }
  rewrite (bind_ok _ _ _ _ _ (shouldFilterImages_eq w3 S3)). fold si.
  destruct (images_phase si w3 S3 H3) as (G4 & P4).
  rewrite C3, Q3 in G4, P4. fold room in G4, P4.
  intro Hok. split.
  - intros Hsv e He. destruct G4 as (_ & M & _). apply M. auto.
  - intros Hsi Hroom e He. apply P4; auto.
Qed.


End Policy.

Lemma scan_phases_grows :
  preserves (grows False)
    (sv <- shouldFilterVideos ;;
     when sv scanForVideos ;;
     si <- shouldFilterImages ;;
     when si scanForImages).
Proof.
  unfold shouldFilterVideos, shouldFilterImages, scanForVideos, scanForImages.
  pres; try apply isUIElement_grows.
  - intro w. apply (filterOutcome_grows False _ x w (filterVideo_cases x w)).
  - intro w. apply (filterOutcome_grows False _ x w (filterImage_cases x w)).
Qed.

(** A scan that passed the cooldown test. *)
Lemma scan_run_spec (now : Z) (w : World) (s : Settings) :
  settings w = Some s ->
  (scanCooldown w <= now - lastScanTime w)%Z ->
  let r := scanExistingContent now w in
  neverShown w (snd r)
  /\ (hiddenIfRecorded w -> hiddenIfRecorded (snd r))
  /\ (set_size (filteredElements w) <= maxFilteredElements w ->
      forall e, In e (filteredElements w) -> In e (filteredElements (snd r)))
  /\ (fst r = Ok tt ->
      arr_includes (hostname w) (whitelistedDomains s) = false ->
      String.eqb (intensityLevel s) "permissive" = false ->
      (arr_includes (filterMode s) ["videos"; "both"] = true ->
       forall e, In e (querySelectorAll w videoSelector) ->
         In e (filteredElements (snd r)))
      /\ (arr_includes (filterMode s) ["images"; "both"] = true ->
          map_size (uiElementCache w)
          + length (querySelectorAll w imageSelector) <= 500 ->
          forall e, In e (querySelectorAll w imageSelector) ->
            In e (filteredElements (snd r)) \/ exempted e (snd r))).
Proof.
  intros S Hrun r. subst r.
  rewrite (scanExistingContent_run_eq now w Hrun).
  set (w1 := with_lastScanTime now w).
  destruct (limitFilteredElements_spec w1)
    as (w2 & E2 & F2 & B2 & C2 & Fr2 & Ss2 & _).
  rewrite (bind_ok _ _ _ _ _ E2).
  set (phases := sv <- shouldFilterVideos ;; _).
  pose proof (scan_phases_grows w2) as G. fold phases in G.
  destruct G as (Fr & M & (D & V) & Hh & Hid & _).
  assert (S2 : settings w2 = Some s).
  { destruct Fr2 as (Fs & _). rewrite Fs. exact S. }
  assert (H2 : hostname w2 = hostname w).
  { destruct Fr2 as (_ & _ & _ & _ & Fh & _). rewrite Fh. reflexivity. }
  assert (Q2 : querySelectorAll w2 = querySelectorAll w).
  { destruct Fr2 as (_ & _ & _ & _ & _ & Fq). rewrite Fq. reflexivity. }
  split; [|split; [|split]].
  - split; intro n.
    + destruct (Ss2 n) as (Hd & _). simpl in Hd. rewrite <- Hd. apply D.
    + destruct (Ss2 n) as (_ & Hv & _). simpl in Hv. rewrite <- Hv. apply V.
  - intro Hw. apply Hid. intros e He.
    destruct (Ss2 e) as (Hd & _). rewrite Hd. simpl. apply Hw.
    rewrite F2 in He. simpl in He.
    eapply skipn_In. exact He.
  - intros Hcap e He. apply M. rewrite F2. simpl.
    replace (set_size (filteredElements w) - maxFilteredElements w) with 0
      by lia.
    exact He.
  - intros Hok Hwl Hperm.
    rewrite <- H2 in Hwl.
    destruct (scan_phases_post s (hostname w2) Hwl Hperm w2 S2 eq_refl Hok)
      as [Pv Pi].
    rewrite Q2 in Pv. rewrite Q2, C2 in Pi. simpl in Pi. auto.
Qed.


End ScanGrowth.

(** ** Two scan requests within the cooldown *)

Section TwoRequests.
Import Engine PlaceholderRev Scenarios.

Lemma scanExistingContent_passes (now : Z) (w : World) :
  (scanCooldown w <= now - lastScanTime w)%Z ->
  scanExistingContent now w = scanPasses now w.
Proof.
  intro H. apply Z.ltb_ge in H.
  unfold scanExistingContent, scanPasses.
  cbv beta iota delta [bind gets]. rewrite H. reflexivity.
Qed.

Lemma executes_skip (now : Z) (w : World) :
  (now - lastScanTime w < scanCooldown w)%Z -> executes now w 0.
Proof.
  intro H. unfold executes.
  rewrite (proj2 (Z.ltb_lt _ _) H).
  split; [reflexivity|now apply scanExistingContent_skip].
Qed.

Lemma executes_run (now : Z) (w : World) :
  (scanCooldown w <= now - lastScanTime w)%Z -> executes now w 1.
Proof.
  intro H. unfold executes.
  rewrite (proj2 (Z.ltb_ge _ _) H).
  split; [reflexivity|now apply scanExistingContent_passes].
Qed.

(** C6. With a cooldown of 2000 ms, of two scan requests made 500 ms
    apart at most one executes a scan.  When the first arrives with the
    cooldown elapsed, exactly one does: the first request does what the
    scan passes do, it records its time, and when it ends normally on a
    page that is not exempt, in a mode that covers videos, every node
    the video selector matches is recorded; the second request, through
    [scanExistingContent] or through the periodic timer, returns the
    world it was given.  In general a request that arrives before
    [lastScanTime + scanCooldown] changes nothing. *)
Theorem cooldown_two_requests (w : World) (t : Z) :
  scanCooldown w = 2000%Z ->
  let w1 := snd (scanExistingContent t w) in
  (exists n1 n2,
     executes t w n1 /\ executes (t + 500) w1 n2 /\ n1 + n2 <= 1
     /\ ((2000 <= t - lastScanTime w)%Z -> n1 = 1 /\ n2 = 0))
  /\ ((2000 <= t - lastScanTime w)%Z ->
      scanExistingContent t w = scanPasses t w
      /\ lastScanTime w1 = t
      /\ (forall s,
            settings w = Some s ->
            fst (scanExistingContent t w) = Ok tt ->
            arr_includes (hostname w) (whitelistedDomains s) = false ->
            String.eqb (intensityLevel s) "permissive" = false ->
            arr_includes (filterMode s) ["videos"; "both"] = true ->
            forall e, In e (querySelectorAll w videoSelector) ->
              In e (filteredElements w1))
      /\ scanExistingContent (t + 500) w1 = (Ok tt, w1)
      /\ periodicTick (t + 500) w1 = (Ok tt, w1))
  /\ (forall (now : Z) (w' : World),
        (now < lastScanTime w' + scanCooldown w')%Z ->
        scanExistingContent now w' = (Ok tt, w')).
Proof.
  intros Hcd w1.
  assert (Hadm : (2000 <= t - lastScanTime w)%Z ->
                 lastScanTime w1 = t
                 /\ (t + 500 - lastScanTime w1 < scanCooldown w1)%Z).
  { intro Hrun.
    assert (Hrun' : (scanCooldown w <= t - lastScanTime w)%Z) by lia.
    destruct (scanExistingContent_run t w Hrun') as (Hl & Hc & _).
    fold w1 in Hl, Hc. split; [exact Hl|lia]. }
  split; [|split].
  - destruct (Z.lt_ge_cases (t - lastScanTime w) 2000) as [Hskip|Hrun].
    + assert (E : scanExistingContent t w = (Ok tt, w)).
      { apply scanExistingContent_skip. lia. }
      assert (Ew : w1 = w) by (unfold w1; now rewrite E).
      destruct (Z.lt_ge_cases (t + 500 - lastScanTime w1) (scanCooldown w1))
        as [H2|H2].
      * exists 0, 0. split; [apply executes_skip; lia|].
        split; [now apply executes_skip|]. split; [lia|]. intro; lia.
      * exists 0, 1. split; [apply executes_skip; lia|].
        split; [now apply executes_run|]. split; [lia|]. intro; lia.
    + destruct (Hadm Hrun) as (_ & Hcool).
      exists 1, 0. split; [apply executes_run; lia|].
      split; [now apply executes_skip|]. split; [lia|]. auto.
  - intro Hrun. destruct (Hadm Hrun) as (Hl & Hcool).
    assert (Hrun' : (scanCooldown w <= t - lastScanTime w)%Z) by lia.
    split; [now apply scanExistingContent_passes|].
    split; [exact Hl|]. split; [|split].
    + intros s S Hok Hwl Hperm Hmode e He.
      destruct (scan_run_spec t w s S Hrun') as (_ & _ & _ & P).
      destruct (P Hok Hwl Hperm) as [Pv _]. now apply Pv.
    + now apply scanExistingContent_skip.
    + now apply periodicTick_skip.
  - intros now w' H. apply scanExistingContent_skip. lia.
Qed.

Lemma cooldown_two_requests_witness :
  let w := engineOn (moderateSettings "both") 3 in
  let w1 := snd (scanExistingContent 5000 w) in
  scanExistingContent 5000 w = scanPasses 5000 w
  /\ lastScanTime w1 = 5000%Z
  /\ filteredElements w1 = [0; 1; 2]
  /\ (forall e, In e [0; 1; 2] -> In e (filteredElements w1))
  /\ scanExistingContent (5000 + 500) w1 = (Ok tt, w1)
  /\ periodicTick (5000 + 500) w1 = (Ok tt, w1).
Proof.
  destruct (cooldown_two_requests (engineOn (moderateSettings "both") 3) 5000)
    as (_ & H & _); [reflexivity|].
  destruct H as (H1 & H2 & H3 & H4 & H5); [vm_compute; discriminate|].
  split; [exact H1|]. split; [exact H2|]. split; [reflexivity|].
  split; [|split; [exact H4|exact H5]].
  intros e He.
  apply (H3 (moderateSettings "both")); try reflexivity. exact He.
Defined.

End TwoRequests.

(** ** Configuration updates *)

Section ConfigurationUpdate.
Import Engine PlaceholderRev Scenarios Pages.

(** A scan request, run or skipped, keeps the settings and the
    cooldown, and a request at the same clock reading right after it is
    skipped. *)
Lemma scan_then_skip (now : Z) (w : World) :
  (0 < scanCooldown w)%Z ->
  let w1 := snd (scanExistingContent now w) in
  settings w1 = settings w
  /\ (now - lastScanTime w1 < scanCooldown w1)%Z
  /\ ((scanCooldown w <= now - lastScanTime w)%Z -> lastScanTime w1 = now)
  /\ ((now - lastScanTime w < scanCooldown w)%Z ->
      scanExistingContent now w = (Ok tt, w)).
Proof.
  intros Hpos w1.
  destruct (Z_lt_le_dec (now - lastScanTime w) (scanCooldown w)) as [Hs|Hr].
  - subst w1. rewrite (scanExistingContent_skip now w Hs). simpl.
    repeat split; auto. lia.
  - destruct (scanExistingContent_run now w Hr) as (Hl & Hc & Hset & _).
    fold w1 in Hl, Hc, Hset.
    repeat split; auto; lia.
Qed.

Lemma startFiltering_eq (now : Z) (w : World) :
  startFiltering now w =
  if isFiltering w then scanExistingContent now w
  else (scanExistingContent now ;;
        setupObservers ;;
        injectPlaceholderCSS ;;
        setupPeriodicScanning) (with_isFiltering true w).
Proof.
  unfold startFiltering. unfold bind at 1. unfold gets.
  destruct (isFiltering w); reflexivity.
Qed.

Lemma startFiltering_shape_at (now : Z) (w : World) :
  let w0 := if isFiltering w then w else with_isFiltering true w in
  fst (startFiltering now w) = fst (scanExistingContent now w0)
  /\ (snd (startFiltering now w) = snd (scanExistingContent now w0)
      \/ snd (startFiltering now w)
         = registered (snd (scanExistingContent now w0))).
Proof.
  rewrite startFiltering_eq.
  destruct (isFiltering w); cbv zeta.
  - auto.
  - destruct (scanExistingContent now (with_isFiltering true w))
      as [[[]|err] w1] eqn:E.
    + rewrite (bind_ok _ _ _ _ _ E). simpl. auto.
    + rewrite (bind_throw _ _ _ _ _ E). simpl. auto.
Qed.

Lemma startFiltering_shape (now : Z) (w : World) :
  exists w0,
    (w0 = w \/ w0 = with_isFiltering true w)
    /\ fst (startFiltering now w) = fst (scanExistingContent now w0)
    /\ (snd (startFiltering now w) = snd (scanExistingContent now w0)
        \/ snd (startFiltering now w)
           = registered (snd (scanExistingContent now w0))).
Proof.
  pose proof (startFiltering_shape_at now w) as H. cbv zeta in H.
  exists (if isFiltering w then w else with_isFiltering true w).
  split; [destruct (isFiltering w); auto|exact H].
Qed.

(** A [UPDATE_FILTERS] message with [enabled] set comes down to one
    scan request on the world with the new settings; the request made
    after it finds the cooldown running. *)
Lemma handleMessage_shape_at (now : Z) (s : Settings) (w : World) :
  enabled s = true ->
  (0 < scanCooldown w)%Z ->
  let w0 := updated s w in
  fst (handleMessage now (updateFilters s) w)
  = fst (scanExistingContent now w0)
  /\ (snd (handleMessage now (updateFilters s) w)
      = snd (scanExistingContent now w0)
      \/ snd (handleMessage now (updateFilters s) w)
         = registered (snd (scanExistingContent now w0))).
Proof.
  intros Hen Hpos w0.
  unfold handleMessage, updateFilters. cbn [msg_type msg_settings].
  change (String.eqb "UPDATE_FILTERS" "UPDATE_FILTERS") with true.
  cbv iota.
  set (ws := with_settings (Some s) w).
  rewrite (bind_ok (modify (with_settings (Some s))) _ w ws tt eq_refl).
  rewrite (bind_ok theSettings _ ws ws s eq_refl).
  rewrite Hen.
  pose proof (startFiltering_shape_at now ws) as Hshape. cbv zeta in Hshape.
  change (if isFiltering ws then ws else with_isFiltering true ws)
    with w0 in Hshape.
  destruct Hshape as (Hf & Hs).
  assert (Hpos0 : (0 < scanCooldown w0)%Z).
  { subst w0. unfold updated. destruct (isFiltering w); exact Hpos. }
  assert (S0 : settings w0 = Some s).
  { subst w0. unfold updated. destruct (isFiltering w); reflexivity. }
  destruct (scan_then_skip now w0 Hpos0) as (Hset & Hcool & _).
  set (w1 := snd (scanExistingContent now w0)) in *.
  destruct (startFiltering now ws) as [[[]|err] wA] eqn:EA;
    simpl in Hf, Hs;
    [rewrite (bind_ok _ _ _ _ _ EA)
    |rewrite (bind_throw _ _ _ _ _ EA); split; [exact Hf|exact Hs]].
  assert (SA : theSettings wA = (Ok s, wA)).
  { unfold theSettings.
    destruct Hs as [->| ->]; simpl; rewrite Hset, S0; reflexivity. }
  rewrite (bind_ok _ _ _ _ _ SA). rewrite Hen. simpl when.
  assert (HA : (now - lastScanTime wA < scanCooldown wA)%Z).
  { destruct Hs as [->| ->]; simpl; exact Hcool. }
  rewrite (scanExistingContent_skip now wA HA). simpl.
  split; [exact Hf|exact Hs].
Qed.

Lemma handleMessage_shape (now : Z) (s : Settings) (w : World) :
  enabled s = true ->
  (0 < scanCooldown w)%Z ->
  exists w0,
    (w0 = with_settings (Some s) w
     \/ w0 = with_isFiltering true (with_settings (Some s) w))
    /\ fst (handleMessage now (updateFilters s) w)
       = fst (scanExistingContent now w0)
    /\ (snd (handleMessage now (updateFilters s) w)
        = snd (scanExistingContent now w0)
        \/ snd (handleMessage now (updateFilters s) w)
           = registered (snd (scanExistingContent now w0))).
Proof.
  intros Hen Hpos. exists (updated s w).
  split; [unfold updated; destruct (isFiltering w); auto|].
  exact (handleMessage_shape_at now s w Hen Hpos).
Qed.





End ConfigurationUpdate.

(** ** Concealing and revealing one element *)

Section PlaceholderConceal.
Import Engine PlaceholderRev Scenarios.

Lemma replaceElement_ok (e : node) (type : string) (w : World) :
  fst (replaceElement e type w) = Ok tt ->
  let w' := snd (replaceElement e type w) in
  exists s p,
    settings w = Some s
    /\ ph_attached p = showPlaceholders s
    /\ ph_revealBtn p = showClickToReveal s
    /\ filteredElements w' = set_add e (filteredElements w)
    /\ sameInstance w w'
    /\ forall n, dom w' n
                 = if Nat.eqb n e then concealedElement e type p (dom w e)
                   else dom w n.
Proof.
  unfold replaceElement, createPlaceholder, bind, element, gets, lift,
    theSettings, throw, ret, assign, modify, sameInstance.
  destruct w as [st fe fl ca mx lt cd ec mo ps si dm hn qs ds]. cbn.
  destruct (getBoundingClientRect (dm e)) as [[rect|]|err] eqn:R; cbn;
    try discriminate.
  destruct st as [s|]; cbn; try discriminate.
  destruct (showPlaceholders s) eqn:SP; cbn.
  - destruct (parentNode (dm e)) eqn:P; cbn; try discriminate.
    destruct (isDocumentElement e _); cbn; try discriminate.
    intros _. exists s.
    exists (ph_insert
              (mkPlaceholder
                 ("xsafe-placeholder xsafe-" ++ type ++ "-placeholder")%string
                 (len_or (width rect) (offsetWidth (dm e)) 300)
                 (len_or (height rect) (offsetHeight (dm e)) 200)
                 (showClickToReveal s) false)).
    split; [reflexivity|]. split; [now rewrite SP|].
    split; [reflexivity|]. split; [reflexivity|].
    split; [repeat split|].
    intro k. unfold upd, concealedElement.
    destruct (Nat.eqb k e) eqn:E; [|reflexivity].
    apply Nat.eqb_eq in E. subst k. cbn. rewrite P. reflexivity.
  - intros _. exists s.
    exists (mkPlaceholder
              ("xsafe-placeholder xsafe-" ++ type ++ "-placeholder")%string
              (len_or (width rect) (offsetWidth (dm e)) 300)
              (len_or (height rect) (offsetHeight (dm e)) 200)
              (showClickToReveal s) false).
    split; [reflexivity|]. split; [now rewrite SP|].
    split; [reflexivity|]. split; [reflexivity|].
    split; [repeat split|].
    intro k. unfold upd, concealedElement.
    destruct (Nat.eqb k e) eqn:E; [|reflexivity].
    apply Nat.eqb_eq in E. subst k. reflexivity.
Qed.


Lemma replaceElement_outcome (e : node) (type : string) (w : World) :
  snd (replaceElement e type w) = w \/ fst (replaceElement e type w) = Ok tt.
Proof.
  destruct (replaceElement_cases e type w) as [[H _]|[H _]]; auto.
Qed.

Lemma sameInstance_refl (w : World) : sameInstance w w.
Proof. repeat split. Qed.

Lemma sameInstance_trans (a b c : World) :
  sameInstance a b -> sameInstance b c -> sameInstance a c.
Proof. unfold sameInstance. intuition congruence. Qed.

Lemma set_delete_other (x y : nat) (s : JSSet) :
  y <> x -> In y s -> In y (set_delete x s).
Proof.
  intros Hne. induction s as [|z s IH]; simpl; [auto|].
  intros [->|H].
  - destruct (Nat.eqb x y) eqn:E; [apply Nat.eqb_eq in E; congruence|].
    now left.
  - destruct (Nat.eqb x z); [exact H|right; auto].
Qed.

Lemma reveal_ok (e : node) (w : World) (d : OriginalData) :
  xsafeData (dom w e) = Some d ->
  exists w',
    revealElement e w = (Ok tt, w')
    /\ filteredElements w' = set_delete e (filteredElements w)
    /\ sameInstance w w'
    /\ forall n, dom w' n
                 = if Nat.eqb n e then revealedElement d (dom w e) else dom w n.
Proof.
  intro Hd.
  unfold revealElement, removePlaceholder, bind, element, gets, assign, modify.
  destruct w as [st fe fl ca mx lt cd ec mo ps si dm hn qs ds]. cbn in *.
  destruct (xsafePlaceholder (dm e)) as [p|] eqn:P; cbn.
  - rewrite upd_same. cbn. rewrite Hd. eexists. split; [reflexivity|]. cbn.
    split; [reflexivity|]. split; [repeat split|].
    intro k. unfold upd, revealedElement.
    destruct (Nat.eqb k e) eqn:E; [|reflexivity].
    apply Nat.eqb_eq in E. subst k. rewrite P. reflexivity.
  - rewrite Hd. eexists. split; [reflexivity|]. cbn.
    split; [reflexivity|]. split; [repeat split|].
    intro k. unfold upd, revealedElement.
    destruct (Nat.eqb k e) eqn:E; [|reflexivity].
    apply Nat.eqb_eq in E. subst k. rewrite P. reflexivity.
Qed.

(** Without saved data the reveal throws after taking the placeholder
    out of the page. *)
Lemma reveal_throws (e : node) (w : World) :
  xsafeData (dom w e) = None ->
  exists w',
    snd (revealElement e w) = w'
    /\ isThrow (fst (revealElement e w)) = true
    /\ filteredElements w' = filteredElements w
    /\ sameInstance w w'
    /\ sameElements w w'.
Proof.
  intro Hd.
  destruct (removePlaceholder_spec e w) as (w1 & E & F & C & Fr & Ss & Pp).
  unfold revealElement. rewrite (bind_ok _ _ _ _ _ E).
  unfold bind, element, gets.
  destruct (Ss e) as (_ & _ & Hx & _). rewrite Hx, Hd. cbn.
  exists w1. split; [reflexivity|]. split; [reflexivity|].
  split; [exact F|]. split; [|exact Ss].
  revert E. unfold removePlaceholder, bind, element, gets, assign, modify.
  destruct (xsafePlaceholder (dom w e)); intros [= <-]; repeat split.
Qed.

End PlaceholderConceal.

Section DisableSweep.
Import Engine PlaceholderRev Scenarios.

Lemma revealedElement_idem (d : OriginalData) (el : Element) :
  revealedElement d (revealedElement d el) = revealedElement d el.
Proof.
  unfold revealedElement.
  destruct (xsafePlaceholder el) as [p|] eqn:P; cbn; [reflexivity|].
  rewrite P. reflexivity.
Qed.

Lemma revealedElement_fields (d : OriginalData) (el : Element) :
  xsafeData (revealedElement d el) = xsafeData el
  /\ style_display (revealedElement d el) = originalDisplay d
  /\ style_visibility (revealedElement d el) = style_visibility el
  /\ xsafePlaceholder (revealedElement d el)
     = option_map ph_remove (xsafePlaceholder el).
Proof.
  unfold revealedElement.
  destruct (xsafePlaceholder el) as [p|] eqn:P; cbn; auto.
Qed.

(** The element object after the disable sweep visited it. *)
Lemma restore_loop (l : list node) (w : World) :
  (forall e, In e l -> xsafeData (dom w e) <> None) ->
  exists w',
    forEach l revealElement w = (Ok tt, w')
    /\ sameInstance w w'
    /\ forall n, dom w' n
                 = if set_has n l
                   then match xsafeData (dom w n) with
                        | Some d => revealedElement d (dom w n)
                        | None => dom w n
                        end
                   else dom w n.
Proof.
  revert w. induction l as [|e l IH]; intros w Hall; simpl.
  - exists w. split; [reflexivity|]. split; [apply sameInstance_refl|auto].
  - destruct (xsafeData (dom w e)) as [d|] eqn:Hd;
      [|exfalso; apply (Hall e); [now left|exact Hd]].
    destruct (reveal_ok e w d Hd) as (w1 & E1 & F1 & I1 & D1).
    rewrite (bind_ok _ _ _ _ _ E1).
    assert (Hall1 : forall x, In x l -> xsafeData (dom w1 x) <> None).
    { intros x Hx. rewrite D1. destruct (Nat.eqb x e) eqn:E.
      - destruct (revealedElement_fields d (dom w e)) as (-> & _).
        rewrite Hd. discriminate.
      - apply Hall. right. exact Hx. }
    destruct (IH w1 Hall1) as (w' & E & I & D).
    exists w'. split; [exact E|].
    split; [exact (sameInstance_trans _ _ _ I1 I)|].
    intro n. rewrite D, D1.
    change (set_has n (e :: l)) with (orb (Nat.eqb n e) (set_has n l)).
    destruct (Nat.eqb n e) eqn:En; cbn [orb].
    + apply Nat.eqb_eq in En. subst n.
      destruct (revealedElement_fields d (dom w e)) as (-> & _).
      rewrite Hd.
      destruct (set_has e l); [apply revealedElement_idem|reflexivity].
    + reflexivity.
Qed.

Lemma stopFiltering_ok (w : World) :
  restorable w ->
  exists w',
    stopFiltering w = (Ok tt, w')
    /\ filteredElements w' = []
    /\ uiElementCache w' = []
    /\ isFiltering w' = false
    /\ mutationObserver w' = false
    /\ periodicScanInterval w' = false
    /\ frame w w'
    /\ forall n, dom w' n
                 = if set_has n (filteredElements w)
                   then match xsafeData (dom w n) with
                        | Some d => revealedElement d (dom w n)
                        | None => dom w n
                        end
                   else dom w n.
Proof.
  intro Hr.
  set (w0 := with_periodicScanInterval false
               (with_mutationObserver false (with_isFiltering false w))).
  destruct (restore_loop (filteredElements w) w0) as (w1 & E & I & D).
  { intros e He. apply (Hr e He). }
  unfold stopFiltering, restoreAllElements, cleanup.
  rewrite (bind_ok (modify (with_isFiltering false)) _ w _ tt eq_refl).
  rewrite (bind_ok (modify (with_mutationObserver false)) _ _ _ tt eq_refl).
  rewrite (bind_ok (modify (with_periodicScanInterval false)) _ _ w0 tt eq_refl).
  unfold bind at 1. unfold bind at 1. unfold gets at 1.
  change (filteredElements w0) with (filteredElements w).
  rewrite (bind_ok (forEach (filteredElements w) revealElement) _ w0 w1 tt E).
  unfold bind, modify.
  eexists. split; [reflexivity|]. cbn.
  destruct I as (I1 & I2 & I3 & I4 & I5 & I6 & I7 & I8 & I9 & I10 & I11 & I12 & I13).
  cbn in *.
  repeat (split; [first [reflexivity | assumption]|]).
  split; [repeat split; assumption|exact D].
Qed.

End DisableSweep.

(** ** What the page cannot undo *)

Section Records.
Import Engine PlaceholderRev Observer Lifecycle.

Lemma keepsRecords_refl (w : World) : keepsRecords w w.
Proof. intro H. exact H. Qed.

Lemma keepsRecords_trans (a b c : World) :
  keepsRecords a b -> keepsRecords b c -> keepsRecords a c.
Proof. unfold keepsRecords. auto. Qed.

#[local] Instance keepsRecords_order : WorldOrder keepsRecords :=
  {| wo_refl := keepsRecords_refl; wo_trans := keepsRecords_trans |}.

(** A step that leaves the record set and the saved data alone. *)
Lemma records_ext (w w' : World) :
  filteredElements w' = filteredElements w ->
  (forall n, xsafeData (dom w' n) = xsafeData (dom w n)) ->
  keepsRecords w w'.
Proof.
  intros F D (N & R). unfold recordsKept, restorable.
  rewrite F. split; [exact N|]. intros e He. rewrite D. auto.
Qed.

Lemma NoDup_skipn {A} (k : nat) (l : list A) : NoDup l -> NoDup (skipn k l).
Proof.
  revert l. induction k as [|k IH]; intros l H; simpl; [exact H|].
  destruct l as [|x l]; [constructor|]. apply IH. now inversion H.
Qed.

Lemma replaceElement_records (e : node) (type : string) :
  preserves keepsRecords (replaceElement e type).
Proof.
  intros w (N & R).
  destruct (replaceElement_outcome e type w) as [E|Hok];
    [rewrite E; split; assumption|].
  destruct (replaceElement_ok e type w Hok) as (s & p & _ & _ & _ & F & _ & D).
  unfold recordsKept, restorable. rewrite F.
  split; [now apply set_add_NoDup|].
  intros x Hx; rewrite D; apply set_add_In in Hx;
    destruct (Nat.eqb x e) eqn:Ex.
  - discriminate.
  - destruct Hx as [->|Hx]; [now rewrite Nat.eqb_refl in Ex|auto].
Qed.

Lemma revealElement_records (e : node) :
  preserves keepsRecords (revealElement e).
Proof.
  intros w (N & R).
  destruct (xsafeData (dom w e)) as [d|] eqn:Hd.
  - destruct (reveal_ok e w d Hd) as (w' & E & F & _ & D).
    rewrite E. cbn [snd].
    destruct (set_delete_NoDup e _ N) as [N' Hnot].
    unfold recordsKept, restorable. rewrite F.
    split; [exact N'|].
    intros x Hx. rewrite D.
    assert (Hne : Nat.eqb x e = false).
    { apply Nat.eqb_neq. intros ->. auto. }
    rewrite Hne. apply set_delete_In in Hx. auto.
  - destruct (reveal_throws e w Hd) as (w' & E & _ & F & _ & Ss).
    rewrite E. apply (records_ext w w' F); [|split; assumption].
    intro n. destruct (Ss n) as (_ & _ & Hx & _). exact Hx.
Qed.

Lemma limitFilteredElements_records :
  preserves keepsRecords limitFilteredElements.
Proof.
  intros w (N & R).
  destruct (limitFilteredElements_spec w) as (w' & E & F & _ & _ & _ & Ss & _).
  rewrite E. cbn [snd]. unfold recordsKept, restorable.
  rewrite F. split; [now apply NoDup_skipn|].
  intros x Hx. apply skipn_In in Hx.
  destruct (Ss x) as (_ & _ & Hx' & _). rewrite Hx'. auto.
Qed.

Lemma isUIElement_records (e : node) :
  preserves keepsRecords (isUIElement e).
Proof.
  intro w. destruct (isUIElement_step e w) as (r & c & E & _).
  rewrite E. apply records_ext; [reflexivity|]. intro n. reflexivity.
Qed.

(** Assignments that leave the record set and the saved data alone. *)
Ltac records_leaf :=
  let w := fresh "w" in
  intro w;
  first
    [ apply records_ext; [reflexivity|];
      let n := fresh "n" in
      intro n; cbn; unfold upd;
      try match goal with
          | |- context [Nat.eqb ?a ?b] => destruct (Nat.eqb a b)
          end;
      reflexivity
    | intros _; split; [constructor | intros ? []] ].

Lemma scanExistingContent_records (now : Z) :
  preserves keepsRecords (scanExistingContent now).
Proof.
  unfold scanExistingContent, shouldFilterVideos, shouldFilterImages,
    scanForVideos, scanForImages, filterVideo, filterImage, isWhitelisted,
    shouldFilter, isBlacklisted.
  pres;
    try apply limitFilteredElements_records;
    try apply replaceElement_records;
    try apply isUIElement_records;
    records_leaf.
Qed.

Lemma startFiltering_records (now : Z) :
  preserves keepsRecords (startFiltering now).
Proof.
  unfold startFiltering, setupObservers, injectPlaceholderCSS,
    setupPeriodicScanning.
  pres; try apply scanExistingContent_records; records_leaf.
Qed.

Lemma stopFiltering_records : preserves keepsRecords stopFiltering.
Proof.
  unfold stopFiltering, restoreAllElements, cleanup.
  pres; try apply revealElement_records; records_leaf.
Qed.

Lemma handleMessage_records (now : Z) (message : Message) :
  preserves keepsRecords (handleMessage now message).
Proof.
  unfold handleMessage.
  pres;
    try apply startFiltering_records;
    try apply stopFiltering_records;
    try apply scanExistingContent_records;
    records_leaf.
Qed.

Lemma periodicTick_records (now : Z) :
  preserves keepsRecords (periodicTick now).
Proof.
  assert (P : preserves keepsRecords
                (ok <- canScan now ;; when ok (scanExistingContent now))).
  { unfold canScan. pres; apply scanExistingContent_records. }
  intro w. unfold periodicTick.
  destruct (settings w) as [s|]; [|apply keepsRecords_refl].
  destruct (enabled s); [|apply keepsRecords_refl].
  apply P.
Qed.

Lemma startIfEnabled_records (now : Z) :
  preserves keepsRecords (startIfEnabled now).
Proof.
  intro w. unfold startIfEnabled.
  destruct (settings w) as [s|]; [|apply keepsRecords_refl].
  destruct (enabled s); [|apply keepsRecords_refl].
  apply startFiltering_records.
Qed.

Lemma scanElement_records (e : node) :
  preserves keepsRecords (scanElement e).
Proof.
  unfold scanElement, checkForVideo, checkForImage, querySelectorVideo,
    shouldFilterVideos, shouldFilterImages, filterVideo, filterImage,
    isWhitelisted, shouldFilter, isBlacklisted.
  pres;
    try apply replaceElement_records;
    try apply isUIElement_records;
    records_leaf.
Qed.

Lemma scanNodes_records (l : list node) (c : nat) :
  preserves keepsRecords (scanNodes l c).
Proof.
  revert c. induction l as [|n l IH]; intro c; simpl.
  - apply preserves_ret.
  - destruct (Nat.ltb c 50); [|apply IH].
    pres; [apply scanElement_records|records_leaf|apply IH].
Qed.

Lemma observerCallback_records (now : Z) :
  preserves keepsRecords (observerCallback now).
Proof.
  unfold observerCallback, canScan, scanNewContent.
  pres. apply scanNodes_records.
Qed.

(** Every event keeps the records, a write of the page included. *)
Lemma fire_records (ev : Event) : preserves keepsRecords (fire ev).
Proof.
  destruct ev; unfold fire.
  - records_leaf.
  - apply startIfEnabled_records.
  - apply handleMessage_records.
  - pres. apply periodicTick_records.
  - apply observerCallback_records.
  - pres. apply revealElement_records.
  - records_leaf.
  - records_leaf.
Qed.

Lemma run_records (events : list Event) (w : World) :
  recordsKept w -> recordsKept (run events w).
Proof.
  revert w. induction events as [|ev events IH]; intros w C; simpl; [exact C|].
  apply IH. apply (fire_records ev w C).
Qed.

End Records.

(** ** The record set over the lifetime of an instance *)

Section Consistency.
Import Engine PlaceholderRev Observer Lifecycle.

Lemma keepsConsistent_refl (w : World) : keepsConsistent w w.
Proof. intro H. exact H. Qed.

Lemma keepsConsistent_trans (a b c : World) :
  keepsConsistent a b -> keepsConsistent b c -> keepsConsistent a c.
Proof. unfold keepsConsistent. auto. Qed.

#[local] Instance keepsConsistent_order : WorldOrder keepsConsistent :=
  {| wo_refl := keepsConsistent_refl; wo_trans := keepsConsistent_trans |}.

(** A step that leaves the record set, the saved data and the styles
    alone keeps the record set consistent. *)
Lemma consistent_ext (w w' : World) :
  filteredElements w' = filteredElements w ->
  (forall n, xsafeData (dom w' n) = xsafeData (dom w n)
             /\ style_display (dom w' n) = style_display (dom w n)) ->
  keepsConsistent w w'.
Proof.
  intros F D (N & R & H). unfold consistent, restorable, hiddenIfRecorded.
  rewrite F. split; [exact N|]. split; intros e He.
  - destruct (D e) as [-> _]. auto.
  - destruct (D e) as [_ ->]. auto.
Qed.

Lemma replaceElement_consistent (e : node) (type : string) :
  preserves keepsConsistent (replaceElement e type).
Proof.
  intros w (N & R & H).
  destruct (replaceElement_outcome e type w) as [E|Hok];
    [rewrite E; repeat split; assumption|].
  destruct (replaceElement_ok e type w Hok) as (s & p & _ & _ & _ & F & _ & D).
  unfold consistent, restorable, hiddenIfRecorded. rewrite F.
  split; [now apply set_add_NoDup|].
  split; intros x Hx; rewrite D; apply set_add_In in Hx;
    destruct (Nat.eqb x e) eqn:Ex.
  - discriminate.
  - destruct Hx as [->|Hx]; [now rewrite Nat.eqb_refl in Ex|auto].
  - reflexivity.
  - destruct Hx as [->|Hx]; [now rewrite Nat.eqb_refl in Ex|auto].
Qed.

Lemma revealElement_consistent (e : node) :
  preserves keepsConsistent (revealElement e).
Proof.
  intros w (N & R & H).
  destruct (xsafeData (dom w e)) as [d|] eqn:Hd.
  - destruct (reveal_ok e w d Hd) as (w' & E & F & _ & D).
    rewrite E. cbn [snd].
    destruct (set_delete_NoDup e _ N) as [N' Hnot].
    unfold consistent, restorable, hiddenIfRecorded. rewrite F.
    split; [exact N'|].
    assert (Hne : forall x, In x (set_delete e (filteredElements w)) ->
                            Nat.eqb x e = false).
    { intros x Hx. apply Nat.eqb_neq. intros ->. auto. }
    split; intros x Hx; rewrite D, (Hne x Hx);
      apply set_delete_In in Hx; auto.
  - destruct (reveal_throws e w Hd) as (w' & E & _ & F & _ & Ss).
    rewrite E. apply (consistent_ext w w' F); [|repeat split; assumption].
    intro n. destruct (Ss n) as (Hdisp & _ & Hx & _). auto.
Qed.

Lemma limitFilteredElements_consistent :
  preserves keepsConsistent limitFilteredElements.
Proof.
  intros w (N & R & H).
  destruct (limitFilteredElements_spec w) as (w' & E & F & _ & _ & _ & Ss & _).
  rewrite E. cbn [snd]. unfold consistent, restorable, hiddenIfRecorded.
  rewrite F. split; [now apply NoDup_skipn|].
  split; intros x Hx; apply skipn_In in Hx; destruct (Ss x) as (Hd & _ & Hx' & _).
  - rewrite Hx'. auto.
  - rewrite Hd. auto.
Qed.

Lemma isUIElement_consistent (e : node) :
  preserves keepsConsistent (isUIElement e).
Proof.
  intro w. destruct (isUIElement_step e w) as (r & c & E & _).
  rewrite E. apply consistent_ext; [reflexivity|]. intro n. split; reflexivity.
Qed.

(** Assignments that leave the record set, the saved data and the
    styles alone. *)
Ltac consistent_leaf :=
  let w := fresh "w" in
  intro w;
  first
    [ apply consistent_ext; [reflexivity|];
      let n := fresh "n" in
      intro n; cbn; unfold upd;
      try match goal with
          | |- context [Nat.eqb ?a ?b] => destruct (Nat.eqb a b)
          end;
      split; reflexivity
    | intros _; repeat split;
      [constructor | intros ? [] | intros ? []] ].

Lemma scanExistingContent_consistent (now : Z) :
  preserves keepsConsistent (scanExistingContent now).
Proof.
  unfold scanExistingContent, shouldFilterVideos, shouldFilterImages,
    scanForVideos, scanForImages, filterVideo, filterImage, isWhitelisted,
    shouldFilter, isBlacklisted.
  pres;
    try apply limitFilteredElements_consistent;
    try apply replaceElement_consistent;
    try apply isUIElement_consistent;
    consistent_leaf.
Qed.

Lemma startFiltering_consistent (now : Z) :
  preserves keepsConsistent (startFiltering now).
Proof.
  unfold startFiltering, setupObservers, injectPlaceholderCSS,
    setupPeriodicScanning.
  pres; try apply scanExistingContent_consistent; consistent_leaf.
Qed.

Lemma stopFiltering_consistent : preserves keepsConsistent stopFiltering.
Proof.
  unfold stopFiltering, restoreAllElements, cleanup.
  pres; try apply revealElement_consistent; consistent_leaf.
Qed.

Lemma handleMessage_consistent (now : Z) (message : Message) :
  preserves keepsConsistent (handleMessage now message).
Proof.
  unfold handleMessage.
  pres;
    try apply startFiltering_consistent;
    try apply stopFiltering_consistent;
    try apply scanExistingContent_consistent;
    consistent_leaf.
Qed.

Lemma periodicTick_consistent (now : Z) :
  preserves keepsConsistent (periodicTick now).
Proof.
  assert (P : preserves keepsConsistent
                (ok <- canScan now ;; when ok (scanExistingContent now))).
  { unfold canScan. pres; apply scanExistingContent_consistent. }
  intro w. unfold periodicTick.
  destruct (settings w) as [s|]; [|apply keepsConsistent_refl].
  destruct (enabled s); [|apply keepsConsistent_refl].
  apply P.
Qed.

Lemma startIfEnabled_consistent (now : Z) :
  preserves keepsConsistent (startIfEnabled now).
Proof.
  intro w. unfold startIfEnabled.
  destruct (settings w) as [s|]; [|apply keepsConsistent_refl].
  destruct (enabled s); [|apply keepsConsistent_refl].
  apply startFiltering_consistent.
Qed.

Lemma scanElement_consistent (e : node) :
  preserves keepsConsistent (scanElement e).
Proof.
  unfold scanElement, checkForVideo, checkForImage, querySelectorVideo,
    shouldFilterVideos, shouldFilterImages, filterVideo, filterImage,
    isWhitelisted, shouldFilter, isBlacklisted.
  pres;
    try apply replaceElement_consistent;
    try apply isUIElement_consistent;
    consistent_leaf.
Qed.

Lemma scanNodes_consistent (l : list node) (c : nat) :
  preserves keepsConsistent (scanNodes l c).
Proof.
  revert c. induction l as [|n l IH]; intro c; simpl.
  - apply preserves_ret.
  - destruct (Nat.ltb c 50); [|apply IH].
    pres; [apply scanElement_consistent|consistent_leaf|apply IH].
Qed.

Lemma observerCallback_consistent (now : Z) :
  preserves keepsConsistent (observerCallback now).
Proof.
  unfold observerCallback, canScan, scanNewContent.
  pres. apply scanNodes_consistent.
Qed.

(** Every event but a write of the page keeps the record set
    consistent. *)
Lemma fire_consistent (ev : Event) :
  isPageWrite ev = false -> preserves keepsConsistent (fire ev).
Proof.
  destruct ev; unfold fire; intro Hp.
  - consistent_leaf.
  - apply startIfEnabled_consistent.
  - apply handleMessage_consistent.
  - pres. apply periodicTick_consistent.
  - apply observerCallback_consistent.
  - pres. apply revealElement_consistent.
  - consistent_leaf.
  - discriminate.
Qed.

Lemma run_consistent (events : list Event) (w : World) :
  pageIdle events -> consistent w -> consistent (run events w).
Proof.
  revert w. induction events as [|ev events IH]; intros w Hp C; simpl;
    [exact C|].
  apply IH.
  - intros ev' Hev. apply Hp. now right.
  - apply (fire_consistent ev (Hp ev (or_introl eq_refl)) w C).
Qed.

End Consistency.

(** ** Round trips of the placeholder revision *)

Section PlaceholderRoundTrips.
Import Engine PlaceholderRev Observer Lifecycle Scenarios.

(** X1. Concealing an element and revealing it again is a round trip
    (placeholder revision).  When the record set holds no element
    twice and [replaceElement] returns normally, the element is hidden
    and recorded; [revealElement] then returns normally, the element
    has the [display] and the [visibility] it had before it was
    concealed, its placeholder is out of the page, it is no longer
    recorded, and every other element object, and the membership of
    every other node in the record set, are as they were before the
    element was concealed. *)
Theorem placeholder_reveal_round_trip (w : World) (e : node) (type : string) :
  NoDup (filteredElements w) ->
  fst (replaceElement e type w) = Ok tt ->
  let w1 := snd (replaceElement e type w) in
  let r := revealElement e w1 in
  (style_display (dom w1 e) = "none" /\ In e (filteredElements w1))
  /\ fst r = Ok tt
  /\ style_display (dom (snd r) e) = style_display (dom w e)
  /\ style_visibility (dom (snd r) e) = style_visibility (dom w e)
  /\ option_map ph_attached (xsafePlaceholder (dom (snd r) e)) = Some false
  /\ ~ In e (filteredElements (snd r))
  /\ (forall n, n <> e ->
        dom (snd r) n = dom w n
        /\ (In n (filteredElements (snd r)) <-> In n (filteredElements w))).
Proof.
  intros Hnd Hok w1 r.
  destruct (replaceElement_ok e type w Hok) as (s & p & S & _ & _ & F & _ & D).
  fold w1 in F, D.
  assert (De : dom w1 e = concealedElement e type p (dom w e)).
  { rewrite D. now rewrite Nat.eqb_refl. }
  assert (Hd : xsafeData (dom w1 e)
               = Some (mkOriginalData e type (style_display (dom w e))
                         (style_visibility (dom w e)) (parentNode (dom w e))
                         None)).
  { rewrite De. reflexivity. }
  destruct (reveal_ok e w1 _ Hd) as (w2 & E & F2 & _ & D2).
  subst r. rewrite E. cbn [fst snd].
  assert (De2 : dom w2 e = revealedElement
                  (mkOriginalData e type (style_display (dom w e))
                     (style_visibility (dom w e)) (parentNode (dom w e)) None)
                  (dom w1 e)).
  { rewrite D2. now rewrite Nat.eqb_refl. }
  destruct (revealedElement_fields
              (mkOriginalData e type (style_display (dom w e))
                 (style_visibility (dom w e)) (parentNode (dom w e)) None)
              (dom w1 e)) as (_ & Rd & Rv & Rp).
  rewrite <- De2 in Rd, Rv, Rp.
  split; [split; [rewrite De; reflexivity|rewrite F; apply set_add_In; auto]|].
  split; [reflexivity|]. split; [exact Rd|].
  split; [rewrite Rv, De; reflexivity|].
  split; [rewrite Rp, De; reflexivity|].
  destruct (set_delete_NoDup e _ (set_add_NoDup e _ Hnd)) as [_ Hnot].
  split; [rewrite F2, F; exact Hnot|].
  intros n Hne. apply Nat.eqb_neq in Hne.
  split; [rewrite D2, Hne, D, Hne; reflexivity|].
  rewrite F2, F. apply Nat.eqb_neq in Hne. split; intro Hin.
  - apply set_delete_In in Hin. apply set_add_In in Hin.
    destruct Hin as [->|Hin]; [congruence|exact Hin].
  - apply set_delete_other; [exact Hne|]. apply set_add_In. auto.
Qed.

Lemma placeholder_reveal_round_trip_witness :
  let w := engineOn (moderateSettings "both") 3 in
  let w1 := snd (replaceElement 1 "video" w) in
  let r := revealElement 1 w1 in
  style_display (dom w1 1) = "none"
  /\ fst r = Ok tt
  /\ style_display (dom (snd r) 1) = ""
  /\ option_map ph_attached (xsafePlaceholder (dom (snd r) 1)) = Some false
  /\ ~ In 1 (filteredElements (snd r)).
Proof.
  destruct (placeholder_reveal_round_trip
              (engineOn (moderateSettings "both") 3) 1 "video")
    as ((A & _) & B & C & _ & D & E & _); [constructor|reflexivity|].
  split; [exact A|split; [exact B|split; [exact C|split; [exact D|exact E]]]].
Defined.

Lemma stopFiltering_swept (w : World) :
  restorable w ->
  exists w', stopFiltering w = (Ok tt, w') /\ frame w w' /\ swept w w'.
Proof.
  intro Hr.
  destruct (stopFiltering_ok w Hr)
    as (w' & E & F & C & I & M & P & Fr & D).
  exists w'. split; [exact E|]. split; [exact Fr|].
  unfold swept. repeat (split; [assumption|]).
  split.
  - intros e d He Hd. rewrite D.
    apply set_has_In in He. rewrite He, Hd.
    destruct (revealedElement_fields d (dom w e)) as (_ & A & B & X). auto.
  - intros n Hn. rewrite D. apply set_has_not_In in Hn. now rewrite Hn.
Qed.

(** X2. Disabling restores every recorded element (placeholder
    revision).  When every recorded element carries the data saved for
    it, [stopFiltering] returns normally and leaves nothing recorded,
    an empty cache, no observer and no interval; every element that
    was recorded has the [display] saved for it, its [visibility]
    untouched and its placeholder out of the page, and every other
    element object is as it was.  An [UPDATE_FILTERS] message whose
    settings have [enabled] false does the same and stores the
    settings. *)
Theorem disable_restores_every_record (w : World) :
  restorable w ->
  (exists w', stopFiltering w = (Ok tt, w') /\ swept w w')
  /\ (forall (now : Z) (s : Settings),
        enabled s = false ->
        exists w',
          handleMessage now (updateFilters s) w = (Ok tt, w')
          /\ settings w' = Some s
          /\ swept w w').
Proof.
  intro Hr. split.
  - destruct (stopFiltering_swept w Hr) as (w' & E & _ & S). eauto.
  - intros now s Hen.
    set (ws := with_settings (Some s) w).
    destruct (stopFiltering_swept ws) as (w' & E & Fr & S).
    { intros e He. apply (Hr e He). }
    exists w'.
    unfold handleMessage, updateFilters. cbn [msg_type msg_settings].
    change (String.eqb "UPDATE_FILTERS" "UPDATE_FILTERS") with true.
    cbv iota.
    rewrite (bind_ok (modify (with_settings (Some s))) _ w ws tt eq_refl).
    rewrite (bind_ok theSettings _ ws ws s eq_refl).
    rewrite Hen.
    rewrite (bind_ok _ _ _ _ _ E).
    assert (Sw : settings w' = Some s).
    { destruct Fr as (Fs & _). rewrite Fs. reflexivity. }
    assert (SA : theSettings w' = (Ok s, w')).
    { unfold theSettings. now rewrite Sw. }
    rewrite (bind_ok _ _ _ _ _ SA). rewrite Hen.
    split; [reflexivity|]. split; [exact Sw|exact S].
Qed.

Lemma disable_restores_every_record_witness :
  let w := afterScan 5000 (engineOn (moderateSettings "both") 3) in
  exists w',
    stopFiltering w = (Ok tt, w')
    /\ filteredElements w = [0; 1; 2]
    /\ filteredElements w' = []
    /\ style_display (dom w 2) = "none"
    /\ style_display (dom w' 2) = "".
Proof.
  destruct (disable_restores_every_record
              (afterScan 5000 (engineOn (moderateSettings "both") 3)))
    as [(w' & E & F & _ & _ & _ & _ & D & _) _].
  { intros e He.
    destruct He as [<-|[<-|[<-|[]]]]; vm_compute; discriminate. }
  exists w'. split; [exact E|]. split; [reflexivity|]. split; [exact F|].
  split; [reflexivity|].
  destruct (D 2 (mkOriginalData 2 "video" "" "" (Some 1000) None))
    as (A & _); [simpl; auto|reflexivity|exact A].
Defined.

(** X3. Whatever the host has run on an instance of the placeholder
    revision since its construction, on whatever page, and whatever
    the page has written to its elements in between, the record set
    holds no element twice, every recorded element carries the data
    saved for it, and disabling at that point returns normally and
    gives every recorded element the [display] saved for it.  As long
    as the page has written to none of its elements, every recorded
    element is hidden as well.  The events are the answer to the
    settings request, [startIfEnabled], messages, ticks of the
    interval, the callback of the observer, clicks on reveal buttons,
    changes of the document, and writes of the page to an element:
    its tag, attributes, styles, geometry and place in the tree, and
    the removal of its placeholder. *)
Theorem reachable_records_are_restorable
    (page : node -> Element) (host : string)
    (selectorEngine : string -> list node) (tree : node -> list node)
    (events : list Event) :
  let w := run events (newEngine page host selectorEngine tree) in
  NoDup (filteredElements w)
  /\ (forall e, In e (filteredElements w) ->
        exists d, xsafeData (dom w e) = Some d)
  /\ (exists w', stopFiltering w = (Ok tt, w') /\ swept w w')
  /\ (pageIdle events ->
      forall e, In e (filteredElements w) ->
        style_display (dom w e) = "none").
Proof.
  intro w.
  assert (C : recordsKept w).
  { apply run_records. split; [constructor|intros e []]. }
  destruct C as (N & R).
  split; [exact N|]. split; [|split].
  - intros e He.
    destruct (xsafeData (dom w e)) as [d|] eqn:Hd; [eauto|].
    exfalso. apply (R e He). exact Hd.
  - destruct (stopFiltering_swept w R) as (w' & E & _ & S). eauto.
  - intro Hp.
    assert (C : consistent w).
    { apply run_consistent; [exact Hp|].
      repeat split; [constructor| |]; intros e []. }
    destruct C as (_ & _ & H). exact H.
Qed.

(** X4. A revealed video stays revealed only until the next scan
    (placeholder revision).  In a state whose record set is
    consistent, on a page that is neither allow-listed nor under the
    permissive intensity, with a mode that covers videos: revealing a
    recorded element that the video selector matches returns normally,
    takes the element out of the record set and gives it the [display]
    saved for it; and a scan requested once the cooldown has elapsed,
    when it returns normally, has recorded and hidden the element
    again. *)
Theorem reveal_lasts_until_next_scan (w : World) (s : Settings) (e : node)
    (now : Z) :
  consistent w ->
  settings w = Some s ->
  In e (filteredElements w) ->
  In e (querySelectorAll w videoSelector) ->
  arr_includes (filterMode s) ["videos"; "both"] = true ->
  arr_includes (hostname w) (whitelistedDomains s) = false ->
  String.eqb (intensityLevel s) "permissive" = false ->
  (scanCooldown w <= now - lastScanTime w)%Z ->
  let w1 := snd (revealElement e w) in
  let r := scanExistingContent now w1 in
  fst (revealElement e w) = Ok tt
  /\ ~ In e (filteredElements w1)
  /\ (forall d, xsafeData (dom w e) = Some d ->
        style_display (dom w1 e) = originalDisplay d)
  /\ (fst r = Ok tt ->
      In e (filteredElements (snd r))
      /\ style_display (dom (snd r) e) = "none").
Proof.
  intros C S He Hq Hmode Hwl Hperm Hrun w1 r.
  pose proof (revealElement_consistent e w C) as C1. fold w1 in C1.
  destruct C as (N & R & H).
  destruct (xsafeData (dom w e)) as [d|] eqn:Hd;
    [|exfalso; apply (R e He); exact Hd].
  destruct (reveal_ok e w d Hd) as (w' & E & F & I & D).
  assert (Ew : w1 = w') by (unfold w1; now rewrite E).
  destruct I as (I1 & _ & _ & _ & I5 & I6 & _ & _ & _ & _ & I11 & I12 & _).
  rewrite <- Ew in F, D, I1, I5, I6, I11, I12.
  split; [now rewrite E|].
  split.
  { rewrite F. apply (set_delete_NoDup e _ N). }
  split.
  { intros d' [= <-]. rewrite D, Nat.eqb_refl.
    apply (revealedElement_fields d (dom w e)). }
  intro Hok.
  assert (S1 : settings w1 = Some s) by (rewrite I1; exact S).
  assert (Hrun1 : (scanCooldown w1 <= now - lastScanTime w1)%Z)
    by (rewrite I5, I6; exact Hrun).
  destruct (scan_run_spec now w1 s S1 Hrun1) as (_ & Hh & _ & P).
  fold r in Hh, P. rewrite I11, I12 in P.
  destruct (P Hok Hwl Hperm) as [Pv _].
  assert (Hin : In e (filteredElements (snd r))) by (apply Pv; auto).
  split; [exact Hin|].
  destruct C1 as (_ & _ & H1). apply (Hh H1 e Hin).
Qed.

Lemma reveal_lasts_until_next_scan_witness :
  let w := afterScan 5000 (engineOn (moderateSettings "both") 3) in
  let w1 := snd (revealElement 1 w) in
  let r := scanExistingContent 10000 w1 in
  fst (revealElement 1 w) = Ok tt
  /\ ~ In 1 (filteredElements w1)
  /\ style_display (dom w1 1) = ""
  /\ In 1 (filteredElements (snd r))
  /\ style_display (dom (snd r) 1) = "none".
Proof.
  destruct (reveal_lasts_until_next_scan
              (afterScan 5000 (engineOn (moderateSettings "both") 3))
              (moderateSettings "both") 1 10000)
    as (A & B & C & D).
  - split; [|split].
    + repeat constructor; simpl; intuition discriminate.
    + intros e He.
      destruct He as [<-|[<-|[<-|[]]]]; vm_compute; discriminate.
    + intros e He.
      destruct He as [<-|[<-|[<-|[]]]]; reflexivity.
  - reflexivity.
  - simpl. auto.
  - simpl. auto.
  - reflexivity.
  - reflexivity.
  - reflexivity.
  - vm_compute. discriminate.
  - split; [exact A|]. split; [exact B|].
    split; [apply (C (mkOriginalData 1 "video" "" "" (Some 1000) None));
            reflexivity|].
    apply D. reflexivity.
Defined.

End PlaceholderRoundTrips.

(** ** Exempt pages, targets of a scan, pacing *)

Section Within.
Context {R : World -> World -> Prop} {HR : WorldOrder R}.
Variable I : World -> Prop.
Hypothesis I_kept : forall w w', I w -> R w w' -> I w'.

Lemma within_preserves {A} (m : M A) : preserves R m -> within I R m.
Proof. intros H w _. apply H. Qed.

Lemma within_bind {A B} (m : M A) (f : A -> M B) :
  within I R m ->
  (forall a w, I w -> fst (m w) = Ok a -> within I R (f a)) ->
  within I R (bind m f).
Proof.
  intros Hm Hf w Hw. unfold bind. specialize (Hm w Hw).
  destruct (m w) as [[a|e] w1] eqn:E; simpl in *; [|exact Hm].
  eapply wo_trans; [exact Hm|].
  apply (Hf a w Hw); [now rewrite E|].
  apply (I_kept w w1 Hw Hm).
Qed.

Lemma within_gets {A B} (g : World -> A) (f : A -> M B) :
  (forall w, I w -> within I R (f (g w))) ->
  within I R (bind (gets g) f).
Proof.
  intro H. apply within_bind.
  - apply within_preserves. apply preserves_gets.
  - intros a w Hw [= <-]. apply H. exact Hw.
Qed.

Lemma within_forEach {X} (l : list X) (f : X -> M unit) :
  (forall x, In x l -> within I R (f x)) -> within I R (forEach l f).
Proof.
  induction l as [|x l IH]; simpl; intro H.
  - apply within_preserves. apply preserves_ret.
  - apply within_bind; [apply H; auto|]. intros _ _ _ _. apply IH. auto.
Qed.

Lemma within_when (b : bool) (m : M unit) :
  (b = true -> within I R m) -> within I R (when b m).
Proof.
  intro H. destruct b; simpl; [auto|].
  apply within_preserves. apply preserves_ret.
Qed.

End Within.

Section ExemptPages.
Import Engine PlaceholderRev Observer Lifecycle Scenarios.

Lemma nothingConcealed_refl (w : World) : nothingConcealed w w.
Proof. split; auto. Qed.

Lemma nothingConcealed_trans (a b c : World) :
  nothingConcealed a b -> nothingConcealed b c -> nothingConcealed a c.
Proof.
  intros [D1 F1] [D2 F2]. split; [|auto].
  intro n. destruct (D1 n), (D2 n). split; congruence.
Qed.

Lemma leavesAlone_refl (w : World) : leavesAlone w w.
Proof. intro H. split; [exact H|apply nothingConcealed_refl]. Qed.

Lemma leavesAlone_trans (a b c : World) :
  leavesAlone a b -> leavesAlone b c -> leavesAlone a c.
Proof.
  intros H1 H2 Ha. destruct (H1 Ha) as [Hb N1]. destruct (H2 Hb) as [Hc N2].
  split; [exact Hc|eapply nothingConcealed_trans; eauto].
Qed.

#[local] Instance leavesAlone_order : WorldOrder leavesAlone :=
  {| wo_refl := leavesAlone_refl; wo_trans := leavesAlone_trans |}.

Lemma leavesAlone_same (w w' : World) :
  settings w' = settings w ->
  hostname w' = hostname w ->
  nothingConcealed w w' ->
  leavesAlone w w'.
Proof.
  intros S H N (s & Hs & Hc). split; [|exact N].
  exists s. rewrite S, H. auto.
Qed.

Ltac alone_leaf :=
  let w := fresh "w" in
  intro w; apply leavesAlone_same; [reflexivity|reflexivity|];
  split;
  [ let n := fresh "n" in
    intro n; cbn; unfold upd;
    try match goal with
        | |- context [Nat.eqb ?a ?b] => destruct (Nat.eqb a b)
        end;
    split; reflexivity
  | auto ].

Lemma filterVideo_leavesAlone
    (e : node) : preserves leavesAlone (filterVideo e).
Proof.
  intros w Hex. destruct Hex as (s & S & Hc).
  rewrite (filterVideo_eq e w s S).
  assert (E : (if orb (arr_includes (hostname w) (whitelistedDomains s))
                      (set_has e (filteredElements w))
               then (Ok tt, w)
               else if String.eqb (intensityLevel s) "permissive"
                    then (Ok tt, w)
                    else replaceElement e "video" w) = (Ok tt, w)).
  { destruct Hc as [-> | ->]; [reflexivity|].
    destruct (orb _ _); reflexivity. }
  rewrite E. split; [exists s; auto|apply nothingConcealed_refl].
Qed.

Lemma filterImage_leavesAlone
    (e : node) : preserves leavesAlone (filterImage e).
Proof.
  intros w Hex. destruct Hex as (s & S & Hc).
  rewrite (filterImage_eq e w s S).
  assert (E : (if orb (arr_includes (hostname w) (whitelistedDomains s))
                      (set_has e (filteredElements w))
               then (Ok tt, w)
               else if String.eqb (intensityLevel s) "permissive"
                    then (Ok tt, w)
                    else replaceElement e "image" w) = (Ok tt, w)).
  { destruct Hc as [-> | ->]; [reflexivity|].
    destruct (orb _ _); reflexivity. }
  rewrite E. split; [exists s; auto|apply nothingConcealed_refl].
Qed.

Lemma isUIElement_leavesAlone
    (e : node) : preserves leavesAlone (isUIElement e).
Proof.
  intro w. destruct (isUIElement_step e w) as (r & c & E & _).
  rewrite E. apply leavesAlone_same; try reflexivity.
  split; [intro n; split; reflexivity|auto].
Qed.

Lemma limitFilteredElements_leavesAlone :
  preserves leavesAlone limitFilteredElements.
Proof.
  intro w.
  destruct (limitFilteredElements_spec w) as (w' & E & F & _ & _ & Fr & Ss & _).
  rewrite E. cbn [snd].
  destruct Fr as (Fs & _ & _ & _ & Fh & _).
  apply leavesAlone_same; [exact Fs|exact Fh|]. split.
  - intro n. destruct (Ss n) as (A & B & _). auto.
  - intros e He. rewrite F in He. eapply skipn_In. exact He.
Qed.

Lemma scanExistingContent_leavesAlone (now : Z) :
  preserves leavesAlone (scanExistingContent now).
Proof.
  unfold scanExistingContent, shouldFilterVideos, shouldFilterImages,
    scanForVideos, scanForImages.
  pres;
    try apply limitFilteredElements_leavesAlone;
    try apply filterVideo_leavesAlone;
    try apply filterImage_leavesAlone;
    try apply isUIElement_leavesAlone;
    alone_leaf.
Qed.

Lemma startFiltering_leavesAlone (now : Z) :
  preserves leavesAlone (startFiltering now).
Proof.
  unfold startFiltering, setupObservers, injectPlaceholderCSS,
    setupPeriodicScanning.
  pres; try apply scanExistingContent_leavesAlone; alone_leaf.
Qed.

Lemma scanNodes_leavesAlone (l : list node) (c : nat) :
  preserves leavesAlone (scanNodes l c).
Proof.
  revert c. induction l as [|n l IH]; intro c; simpl.
  - apply preserves_ret.
  - destruct (Nat.ltb c 50); [|apply IH].
    unfold scanElement, checkForVideo, checkForImage, querySelectorVideo,
      shouldFilterVideos, shouldFilterImages.
    pres;
      try apply filterVideo_leavesAlone;
      try apply filterImage_leavesAlone;
      try apply isUIElement_leavesAlone;
      try apply IH;
      alone_leaf.
Qed.

(** X5. Nothing is concealed on an exempt page (placeholder
    revision).  When the host of the page is on the allow list of the
    settings, or their intensity is permissive, then under these
    settings a scan, a tick of the interval, [startIfEnabled] and the
    callback of the observer change no [display] and no [visibility]
    and add no record; and neither does an [UPDATE_FILTERS] message
    that brings these settings with [enabled] true. *)
Theorem exempt_page_is_left_alone (w : World) (s : Settings) (now : Z) :
  arr_includes (hostname w) (whitelistedDomains s) = true
  \/ intensityLevel s = "permissive" ->
  (settings w = Some s ->
   nothingConcealed w (snd (scanExistingContent now w))
   /\ nothingConcealed w (snd (periodicTick now w))
   /\ nothingConcealed w (snd (startIfEnabled now w))
   /\ nothingConcealed w (snd (observerCallback now w)))
  /\ (enabled s = true ->
      nothingConcealed w (snd (handleMessage now (updateFilters s) w))).
Proof.
  intro Hc.
  assert (Hc' : arr_includes (hostname w) (whitelistedDomains s) = true
                \/ String.eqb (intensityLevel s) "permissive" = true).
  { destruct Hc as [H|H]; [left; exact H|right; rewrite H; reflexivity]. }
  split.
  - intro S.
    assert (Hex : exemptPage w) by (exists s; auto).
    split; [apply (scanExistingContent_leavesAlone now w Hex)|].
    split; [|split].
    + unfold periodicTick. rewrite S.
      destruct (enabled s); [|apply nothingConcealed_refl].
      assert (P : preserves leavesAlone
                    (ok <- canScan now ;; when ok (scanExistingContent now))).
      { unfold canScan. pres; apply scanExistingContent_leavesAlone. }
      apply (P w Hex).
    + unfold startIfEnabled. rewrite S.
      destruct (enabled s); [|apply nothingConcealed_refl].
      apply (startFiltering_leavesAlone now w Hex).
    + assert (P : preserves leavesAlone (observerCallback now)).
      { unfold observerCallback, canScan, scanNewContent.
        pres. apply scanNodes_leavesAlone. }
      apply (P w Hex).
  - intro Hen.
    unfold handleMessage, updateFilters. cbn [msg_type msg_settings].
    change (String.eqb "UPDATE_FILTERS" "UPDATE_FILTERS") with true.
    cbv iota.
    set (ws := with_settings (Some s) w).
    rewrite (bind_ok (modify (with_settings (Some s))) _ w ws tt eq_refl).
    rewrite (bind_ok theSettings _ ws ws s eq_refl).
    rewrite Hen.
    assert (P : preserves leavesAlone
                  (startFiltering now ;;
                   s' <- theSettings ;;
                   when (enabled s') (scanExistingContent now))).
    { pres; try apply startFiltering_leavesAlone;
        apply scanExistingContent_leavesAlone. }
    assert (Hex : exemptPage ws) by (exists s; auto).
    destruct (P ws Hex) as [_ N]. exact N.
Qed.

Lemma exempt_page_is_left_alone_witness :
  let w := afterScan 5000 (engineOn (moderateSettings "images") 3) in
  nothingConcealed w (snd (handleMessage 10000 (updateFilters allowListed) w)).
Proof.
  destruct (exempt_page_is_left_alone
              (afterScan 5000 (engineOn (moderateSettings "images") 3))
              allowListed 10000) as [_ H]; [left; reflexivity|].
  exact (H eq_refl).
Defined.

End ExemptPages.

Section Confinement.
Import Engine PlaceholderRev Observer Lifecycle Scenarios.

Lemma confinedTo_refl (P : node -> Prop) (w : World) : confinedTo P w w.
Proof. repeat split; auto. Qed.

Lemma confinedTo_trans (P : node -> Prop) (a b c : World) :
  confinedTo P a b -> confinedTo P b c -> confinedTo P a c.
Proof.
  intros ((S1 & H1 & Q1) & F1 & D1) ((S2 & H2 & Q2) & F2 & D2).
  split; [repeat split; congruence|]. split.
  - intros e He. destruct (F2 e He) as [Hb|Hp]; auto.
  - intros n Hn. destruct (D1 n Hn) as (A1 & B1 & C1).
    destruct (D2 n Hn) as (A2 & B2 & C2). repeat split; congruence.
Qed.

#[local] Instance confinedTo_order (P : node -> Prop) :
  WorldOrder (confinedTo P) :=
  {| wo_refl := confinedTo_refl P; wo_trans := confinedTo_trans P |}.

Lemma replaceElement_confined (P : node -> Prop) (e : node) (type : string) :
  P e -> preserves (confinedTo P) (replaceElement e type).
Proof.
  intros HP w.
  destruct (replaceElement_outcome e type w) as [E|Hok];
    [rewrite E; apply confinedTo_refl|].
  destruct (replaceElement_ok e type w Hok) as (s & p & _ & _ & _ & F & I & D).
  destruct I as (I1 & _ & _ & _ & _ & _ & _ & _ & _ & _ & I11 & I12 & _).
  split; [repeat split; assumption|]. split.
  - intros x Hx. rewrite F in Hx. apply set_add_In in Hx.
    destruct Hx as [->|Hx]; auto.
  - intros n Hn. rewrite D.
    destruct (Nat.eqb n e) eqn:E; [|repeat split].
    apply Nat.eqb_eq in E. subst n. contradiction.
Qed.

Ltac confined_leaf :=
  let w := fresh "w" in
  intro w; split; [repeat split|]; split;
  [ intros ? ?; left; assumption
  | intros ? ?; repeat split ].

Lemma filterVideo_confined (P : node -> Prop) (e : node) :
  P e -> preserves (confinedTo P) (filterVideo e).
Proof.
  intro HP. unfold filterVideo, isWhitelisted, shouldFilter, isBlacklisted.
  pres; try (apply replaceElement_confined; exact HP); confined_leaf.
Qed.

Lemma filterImage_confined (P : node -> Prop) (e : node) :
  P e -> preserves (confinedTo P) (filterImage e).
Proof.
  intro HP. unfold filterImage, isWhitelisted, shouldFilter, isBlacklisted.
  pres; try (apply replaceElement_confined; exact HP); confined_leaf.
Qed.

Lemma isUIElement_confined (P : node -> Prop) (e : node) :
  preserves (confinedTo P) (isUIElement e).
Proof.
  intro w. destruct (isUIElement_step e w) as (r & c & E & _).
  rewrite E. split; [repeat split|]. split; [auto|]. intros; repeat split.
Qed.

Lemma limitFilteredElements_confined (P : node -> Prop) :
  preserves (confinedTo P) limitFilteredElements.
Proof.
  intro w.
  destruct (limitFilteredElements_spec w) as (w' & E & F & _ & _ & Fr & Ss & _).
  rewrite E. cbn [snd].
  destruct Fr as (Fs & _ & _ & _ & Fh & Fq).
  split; [repeat split; assumption|]. split.
  - intros e He. rewrite F in He. left. eapply skipn_In. exact He.
  - intros n _. destruct (Ss n) as (A & B & C & _). auto.
Qed.

(** X6. A scan conceals only what its selectors matched (placeholder
    revision).  With settings present, [scanExistingContent] adds to
    the record set only nodes the selector engine answered for the
    video selector, when the mode covers videos, or for the image
    selector, when it covers images; every other node keeps its
    [display], its [visibility] and its saved data, and the settings,
    the host name and the selector engine are as they were. *)
Theorem scan_conceals_only_its_targets (w : World) (s : Settings) (now : Z) :
  settings w = Some s ->
  confinedTo (scanTargets s w) w (snd (scanExistingContent now w)).
Proof.
  intro S.
  set (P := scanTargets s w).
  set (I := fun w0 : World =>
              settings w0 = Some s
              /\ querySelectorAll w0 = querySelectorAll w).
  assert (I_kept : forall a b, I a -> confinedTo P a b -> I b).
  { intros a b [Sa Qa] ((Sb & _ & Qb) & _). split; congruence. }
  assert (H : within I (confinedTo P) (scanExistingContent now)).
  { unfold scanExistingContent.
    apply (within_gets I I_kept). intros wa _.
    apply (within_gets I I_kept). intros wb _.
    destruct (_ <? _)%Z;
      [apply within_preserves; apply preserves_ret|].
    apply (within_bind I I_kept);
      [apply within_preserves; apply preserves_modify; confined_leaf|].
    intros _ _ _ _.
    apply (within_bind I I_kept);
      [apply within_preserves; apply limitFilteredElements_confined|].
    intros _ _ _ _.
    apply (within_bind I I_kept);
      [apply within_preserves; unfold shouldFilterVideos; pres|].
    intros sv w0 [S0 Q0] Hsv.
    rewrite (shouldFilterVideos_eq s w0 S0) in Hsv. injection Hsv as Hsv. subst sv.
    apply (within_bind I I_kept).
    { apply (within_when I). intro Hmode. unfold scanForVideos.
      apply (within_gets I I_kept). intros w1 [S1 Q1].
      apply (within_forEach I I_kept). intros x Hx.
      apply within_preserves. apply filterVideo_confined.
      left. split; [exact Hmode|]. rewrite <- Q1. exact Hx. }
    intros _ _ _ _.
    apply (within_bind I I_kept);
      [apply within_preserves; unfold shouldFilterImages; pres|].
    intros si w2 [S2 Q2] Hsi.
    rewrite (shouldFilterImages_eq s w2 S2) in Hsi. injection Hsi as Hsi. subst si.
    apply (within_when I). intro Hmode. unfold scanForImages.
    apply (within_gets I I_kept). intros w3 [S3 Q3].
    apply (within_forEach I I_kept). intros x Hx.
    apply within_preserves.
    pres; [apply isUIElement_confined|].
    apply filterImage_confined.
    right. split; [exact Hmode|]. rewrite <- Q3. exact Hx. }
  apply H. split; [exact S|reflexivity].
Qed.

Lemma scan_conceals_only_its_targets_witness :
  let s := moderateSettings "images" in
  let w := engineOn s 3 in
  confinedTo (scanTargets s w) w (snd (scanExistingContent 5000 w)).
Proof.
  apply (scan_conceals_only_its_targets
           (engineOn (moderateSettings "images") 3)
           (moderateSettings "images") 5000).
  reflexivity.
Defined.

End Confinement.

Section Pacing.
Import Engine PlaceholderRev Observer Lifecycle Scenarios.

Lemma paced_refl (now : Z) (w : World) : paced now w w.
Proof. split; auto. Qed.

Lemma paced_trans (now : Z) (a b c : World) :
  paced now a b -> paced now b c -> paced now a c.
Proof.
  intros [C1 L1] [C2 L2]. split; [congruence|].
  destruct L1 as [L1|[L1 G1]], L2 as [L2|[L2 G2]].
  - left. congruence.
  - right. split; [exact L2|]. rewrite <- C1, <- L1. exact G2.
  - right. split; [congruence|exact G1].
  - right. split; [exact L2|exact G1].
Qed.

#[local] Instance paced_order (now : Z) : WorldOrder (paced now) :=
  {| wo_refl := paced_refl now; wo_trans := paced_trans now |}.

Lemma frame_paced (now : Z) (w w' : World) : frame w w' -> paced now w w'.
Proof. intros (_ & C & L & _). split; auto. Qed.

Lemma scanExistingContent_paced (now : Z) :
  preserves (paced now) (scanExistingContent now).
Proof.
  intro w.
  destruct (Z_lt_le_dec (now - lastScanTime w) (scanCooldown w)) as [Hs|Hr].
  - rewrite (scanExistingContent_skip now w Hs). apply paced_refl.
  - destruct (scanExistingContent_run now w Hr) as (L & C & _).
    split; [exact C|]. right. split; [exact L|exact Hr].
Qed.

Ltac paced_leaf := solve [intro; split; [reflexivity|left; reflexivity]].

Lemma startFiltering_paced (now : Z) :
  preserves (paced now) (startFiltering now).
Proof.
  unfold startFiltering, setupObservers, injectPlaceholderCSS,
    setupPeriodicScanning.
  pres; try apply scanExistingContent_paced; paced_leaf.
Qed.

Lemma revealElement_frame (e : node) : preserves frame (revealElement e).
Proof.
  unfold revealElement. pres; try apply removePlaceholder_frame;
    intro; repeat split.
Qed.

Lemma stopFiltering_paced (now : Z) : preserves (paced now) stopFiltering.
Proof.
  unfold stopFiltering, restoreAllElements, cleanup.
  pres; try paced_leaf.
  intro w. apply frame_paced. apply revealElement_frame.
Qed.

Lemma scanNodes_frame (l : list node) (c : nat) :
  preserves frame (scanNodes l c).
Proof.
  revert c. induction l as [|n l IH]; intro c; simpl.
  - apply preserves_ret.
  - destruct (Nat.ltb c 50); [|apply IH].
    unfold scanElement, checkForVideo, checkForImage, querySelectorVideo,
      shouldFilterVideos, shouldFilterImages.
    pres;
      try apply filterVideo_frame;
      try apply filterImage_frame;
      try apply isUIElement_frame;
      try apply IH;
      intro; repeat split.
Qed.

Lemma scanNewContent_frame : preserves frame scanNewContent.
Proof. unfold scanNewContent. pres. apply scanNodes_frame. Qed.

(** X7. No entry point of the placeholder revision changes the
    cooldown, and none moves the clock of the last scan except to the
    time of a request that found the cooldown elapsed.  This holds for
    a scan, a message, a tick of the interval, [startIfEnabled] and
    the callback of the observer, run at [now], and for a reveal. *)
Theorem scans_are_paced (now : Z) (message : Message) (e : node) :
  preserves (paced now) (scanExistingContent now)
  /\ preserves (paced now) (handleMessage now message)
  /\ preserves (paced now) (periodicTick now)
  /\ preserves (paced now) (startIfEnabled now)
  /\ preserves (paced now) (observerCallback now)
  /\ preserves (paced now) (revealElement e).
Proof.
  split; [apply scanExistingContent_paced|]. split; [|split; [|split; [|split]]].
  - unfold handleMessage.
    pres;
      try apply startFiltering_paced;
      try apply stopFiltering_paced;
      try apply scanExistingContent_paced;
      paced_leaf.
  - assert (P : preserves (paced now)
                  (ok <- canScan now ;; when ok (scanExistingContent now))).
    { unfold canScan. pres; apply scanExistingContent_paced. }
    intro w. unfold periodicTick.
    destruct (settings w) as [s|]; [|apply paced_refl].
    destruct (enabled s); [|apply paced_refl].
    apply P.
  - intro w. unfold startIfEnabled.
    destruct (settings w) as [s|]; [|apply paced_refl].
    destruct (enabled s); [|apply paced_refl].
    apply startFiltering_paced.
  - unfold observerCallback, canScan. pres.
    intro w. apply frame_paced. apply scanNewContent_frame.
  - intro w. apply frame_paced. apply revealElement_frame.
Qed.

End Pacing.

(** ** The observer pass *)

Section ObserverPass.
Import Engine PlaceholderRev Observer Lifecycle Scenarios Pages.
#[local] Existing Instance grows_order.
#[local] Existing Instance confinedTo_order.

Lemma bind_assoc {A B C} (m : M A) (f : A -> M B) (g : B -> M C) (w : World) :
  bind (bind m f) g w = bind m (fun a => bind (f a) g) w.
Proof.
  unfold bind. destruct (m w) as [[a|e] w1]; [|reflexivity].
  reflexivity.
Qed.

Lemma bind_ext {A B} (m : M A) (f g : A -> M B) (w : World) :
  (forall a w', f a w' = g a w') -> bind m f w = bind m g w.
Proof.
  intro H. unfold bind. destruct (m w) as [[a|e] w1]; [apply H|reflexivity].
Qed.

(** The loop of [scanNewContent] visits the first fifty nodes. *)
Lemma scanNodes_forEach (l : list node) (c : nat) (w : World) :
  scanNodes l c w
  = forEach (firstn (50 - c) l)
      (fun n => scanElement n ;;
                assign n (el_setAttribute "data-xsafe-scanned" "true")) w.
Proof.
  revert c w. induction l as [|n l IH]; intros c w; cbn [scanNodes].
  - now rewrite firstn_nil.
  - destruct (Nat.ltb c 50) eqn:E.
    + apply Nat.ltb_lt in E.
      replace (50 - c) with (S (50 - S c)) by lia.
      rewrite firstn_cons. cbn [forEach].
      rewrite bind_assoc.
      apply bind_ext. intros _ w1. apply bind_ext. intros _ w2. apply IH.
    + apply Nat.ltb_ge in E. rewrite IH.
      replace (50 - c) with 0 by lia. reflexivity.
Qed.

Lemma scanNewContent_eq (w : World) :
  scanNewContent w
  = forEach (batch w)
      (fun n => scanElement n ;;
                assign n (el_setAttribute "data-xsafe-scanned" "true")) w.
Proof.
  unfold scanNewContent, bind, gets. rewrite scanNodes_forEach. reflexivity.
Qed.

(** A loop whose steps keep an invariant, for the elements of the list
    only. *)
Lemma forEach_inv {X} (f : X -> M unit) (R : World -> World -> Prop)
    (HR : WorldOrder R) (Inv : World -> Prop) (Post : X -> World -> Prop)
    (l : list X) :
  (forall x w, In x l -> Inv w ->
     Inv (snd (f x w)) /\ R w (snd (f x w))
     /\ (fst (f x w) = Ok tt -> Post x (snd (f x w)))) ->
  (forall x w w', Post x w -> R w w' -> Post x w') ->
  forall w, Inv w ->
    Inv (snd (forEach l f w))
    /\ R w (snd (forEach l f w))
    /\ (fst (forEach l f w) = Ok tt ->
        forall x, In x l -> Post x (snd (forEach l f w))).
Proof.
  intros Hstep Hstable.
  induction l as [|a l IH]; intros w HI; simpl.
  - split; [exact HI|]. split; [apply wo_refl|]. intros _ x [].
  - unfold bind.
    destruct (Hstep a w (or_introl eq_refl) HI) as (I1 & R1 & P1).
    destruct (f a w) as [[[]|err] w1] eqn:E; simpl in *.
    + destruct IH with (w := w1) as (I2 & R2 & P2); [|exact I1|].
      { intros x w0 Hx. apply Hstep. now right. }
      split; [exact I2|]. split; [eapply wo_trans; eauto|].
      intros Hok x [<-|Hin].
      * eapply Hstable; [apply P1; reflexivity|exact R2].
      * apply P2; auto.
    + split; [exact I1|]. split; [exact R1|discriminate].
Qed.

Lemma pageKept_refl (w : World) : pageKept w w.
Proof. split; [reflexivity|]. intro n. repeat split; auto. Qed.

Lemma pageKept_trans (a b c : World) :
  pageKept a b -> pageKept b c -> pageKept a c.
Proof.
  intros [D1 H1] [D2 H2]. split; [congruence|].
  intro n. destruct (H1 n) as (T1 & A1 & M1). destruct (H2 n) as (T2 & A2 & M2).
  split; [congruence|]. split; [|auto].
  intros x Hx. rewrite (A2 x Hx). apply (A1 x Hx).
Qed.

#[local] Instance pageKept_order : WorldOrder pageKept :=
  {| wo_refl := pageKept_refl; wo_trans := pageKept_trans |}.

Lemma outside_refl (L : list node) (w : World) : outside L w w.
Proof.
  split; [apply frame_refl|]. split; [apply pageKept_refl|]. split; auto.
Qed.

Lemma outside_trans (L : list node) (a b c : World) :
  outside L a b -> outside L b c -> outside L a c.
Proof.
  intros (F1 & K1 & D1 & R1) (F2 & K2 & D2 & R2).
  split; [eapply frame_trans; eauto|].
  split; [eapply pageKept_trans; eauto|]. split.
  - intros n Hn. rewrite (D2 n Hn). apply (D1 n Hn).
  - intros e He. destruct (R2 e He) as [Hb|HL]; auto.
Qed.

#[local] Instance outside_order (L : list node) : WorldOrder (outside L) :=
  {| wo_refl := outside_refl L; wo_trans := outside_trans L |}.

Lemma growsKept_refl (w : World) : growsKept w w.
Proof. split; [apply grows_refl|apply pageKept_refl]. Qed.

Lemma growsKept_trans (a b c : World) :
  growsKept a b -> growsKept b c -> growsKept a c.
Proof.
  intros [G1 K1] [G2 K2].
  split; [eapply grows_trans; eauto|eapply pageKept_trans; eauto].
Qed.

#[local] Instance growsKept_order : WorldOrder growsKept :=
  {| wo_refl := growsKept_refl; wo_trans := growsKept_trans |}.




(** Concealing a node keeps what the page author wrote. *)
Lemma replaceElement_pageKept (e : node) (type : string) :
  preserves pageKept (replaceElement e type).
Proof.
  intro w.
  destruct (replaceElement_outcome e type w) as [E|Hok];
    [rewrite E; apply pageKept_refl|].
  destruct (replaceElement_ok e type w Hok) as (s & p & _ & _ & _ & _ & I & D).
  destruct I as (_ & _ & _ & _ & _ & _ & _ & _ & _ & _ & _ & _ & I13).
  split; [exact I13|]. intro n. rewrite D.
  destruct (Nat.eqb n e) eqn:E; [|repeat split; auto].
  apply Nat.eqb_eq in E. subst n. repeat split; auto.
Qed.

Lemma replaceElement_outside (L : list node) (e : node) (type : string) :
  In e L -> preserves (outside L) (replaceElement e type).
Proof.
  intros HL w.
  split; [apply replaceElement_frame|].
  split; [apply replaceElement_pageKept|].
  destruct (replaceElement_outcome e type w) as [E|Hok];
    [rewrite E; split; auto|].
  destruct (replaceElement_ok e type w Hok) as (s & p & _ & _ & _ & F & _ & D).
  split.
  - intros n Hn. rewrite D.
    destruct (Nat.eqb n e) eqn:E; [|reflexivity].
    apply Nat.eqb_eq in E. subst n. contradiction.
  - intros x Hx. rewrite F in Hx. apply set_add_In in Hx.
    destruct Hx as [->|Hx]; auto.
Qed.

Ltac kept_leaf :=
  solve [ let w := fresh "w" in
          intro w; split; [reflexivity|];
          let n := fresh "n" in
          intro n; cbn; unfold upd;
          try match goal with
              | |- context [Nat.eqb ?a ?b] => destruct (Nat.eqb a b)
              end;
          repeat split; auto ].

Ltac outside_leaf :=
  solve [ let w := fresh "w" in
          intro w; split; [repeat split|];
          split; [apply pageKept_refl|]; split; auto ].

Lemma isUIElement_pageKept (e : node) : preserves pageKept (isUIElement e).
Proof.
  intro w. destruct (isUIElement_step e w) as (r & c & E & _).
  rewrite E. split; [reflexivity|]. intro n. repeat split; auto.
Qed.

Lemma isUIElement_outside (L : list node) (e : node) :
  preserves (outside L) (isUIElement e).
Proof.
  intro w. destruct (isUIElement_step e w) as (r & c & E & _).
  rewrite E. split; [repeat split|].
  split; [split; [reflexivity|]; intro n; repeat split; auto|].
  split; auto.
Qed.

Lemma mark_pageKept (e : node) :
  preserves pageKept
    (assign e (el_setAttribute "data-xsafe-scanned" "true")).
Proof.
  intro w. split; [reflexivity|]. intro n. cbn. unfold upd.
  destruct (Nat.eqb n e); [|repeat split; auto].
  cbn. split; [reflexivity|]. split.
  - intros a Ha. apply String.eqb_neq in Ha. now rewrite Ha.
  - intros _. reflexivity.
Qed.

Lemma mark_outside (L : list node) (e : node) :
  In e L ->
  preserves (outside L)
    (assign e (el_setAttribute "data-xsafe-scanned" "true")).
Proof.
  intros HL w. split; [repeat split|].
  split; [apply mark_pageKept|]. split; [|auto].
  intros n Hn. cbn. unfold upd.
  destruct (Nat.eqb n e) eqn:E; [|reflexivity].
  apply Nat.eqb_eq in E. subst n. contradiction.
Qed.

Lemma visit_outside (L : list node) (e : node) :
  In e L ->
  preserves (outside L)
    (scanElement e ;; assign e (el_setAttribute "data-xsafe-scanned" "true")).
Proof.
  intro HL.
  unfold scanElement, checkForVideo, checkForImage, querySelectorVideo,
    shouldFilterVideos, shouldFilterImages, filterVideo, filterImage,
    isWhitelisted, shouldFilter, isBlacklisted.
  pres;
    try (apply replaceElement_outside; exact HL);
    try apply isUIElement_outside;
    try (apply mark_outside; exact HL);
    outside_leaf.
Qed.

Lemma visit_marks (e : node) (w : World) :
  fst ((scanElement e ;;
        assign e (el_setAttribute "data-xsafe-scanned" "true")) w) = Ok tt ->
  scannedMark
    (dom (snd ((scanElement e ;;
                assign e (el_setAttribute "data-xsafe-scanned" "true")) w)) e)
  = true.
Proof.
  unfold bind. destruct (scanElement e w) as [[[]|err] w1]; [|discriminate].
  intros _. cbn. unfold upd. rewrite Nat.eqb_refl. reflexivity.
Qed.

Lemma firstn_In {A} (k : nat) (l : list A) (x : A) :
  In x (firstn k l) -> In x l.
Proof.
  revert l. induction k as [|k IH]; intros l H; simpl in H; [contradiction|].
  destruct l as [|a l]; [contradiction|].
  destruct H as [->|H]; [now left|right; auto].
Qed.

(** X8. One pass of [scanNewContent] is a batch of at most fifty
    nodes: the first fifty elements of the document that do not carry
    the [data-xsafe-scanned] mark.  The pass leaves the settings, the
    cooldown, the clock of the last scan, the cap, the host name and
    the selector engine as they were, leaves every element object
    outside the batch as it was, adds only nodes of the batch to the
    record set, and, when it returns normally, has marked every node
    of the batch. *)
Theorem observer_pass_is_a_batch (w : World) :
  let r := scanNewContent w in
  length (batch w) <= 50
  /\ (forall n, In n (batch w) ->
        In n (querySelectorAll w "*") /\ scannedMark (dom w n) = false)
  /\ frame w (snd r)
  /\ (forall n, ~ In n (batch w) -> dom (snd r) n = dom w n)
  /\ (forall e, In e (filteredElements (snd r)) ->
        In e (filteredElements w) \/ In e (batch w))
  /\ (fst r = Ok tt ->
      forall n, In n (batch w) -> scannedMark (dom (snd r) n) = true).
Proof.
  intro r. subst r. rewrite scanNewContent_eq.
  split; [unfold batch; rewrite length_firstn; lia|].
  split.
  { intros n Hn. unfold batch in Hn. apply firstn_In in Hn.
    unfold unscannedNodes in Hn. apply filter_In in Hn.
    destruct Hn as [Hq Hm]. split; [exact Hq|].
    unfold scannedMark. now destruct (hasAttribute (dom w n) _). }
  destruct (forEach_inv
              (fun n => scanElement n ;;
                        assign n (el_setAttribute "data-xsafe-scanned" "true"))
              (outside (batch w)) (outside_order (batch w))
              (fun _ => True)
              (fun n w0 => scannedMark (dom w0 n) = true)
              (batch w)) with (w := w) as (_ & (F & K & D & R) & P).
  - intros x w0 Hx _. split; [exact I|].
    split; [apply (visit_outside (batch w) x Hx)|apply visit_marks].
  - intros x w0 w' HP (_ & (_ & K) & _). apply (K x). exact HP.
  - exact I.
  - auto.
Qed.


Lemma matches_kept (w w' : World) (c : node) :
  pageKept w w' ->
  matchesVideoOrEmbed (dom w' c) = matchesVideoOrEmbed (dom w c).
Proof.
  intros [_ K]. destruct (K c) as (T & A & _).
  unfold matchesVideoOrEmbed, attrContains.
  rewrite T, (A "src"); [reflexivity|discriminate].
Qed.

Lemma videoLike_kept (w w' : World) (e : node) :
  pageKept w w' -> videoLike w e -> videoLike w' e.
Proof.
  intros K [H|(c & Hc & Hm)].
  - left. destruct K as [_ K]. destruct (K e) as (T & _). now rewrite T.
  - right. exists c. split.
    + destruct K as [D _]. now rewrite D.
    + now rewrite (matches_kept w w' c K).
Qed.


Lemma checkForVideo_eq (e : node) (w : World) :
  checkForVideo e w
  = if arr_includes (tagName (dom w e)) ["VIDEO"; "IFRAME"]
    then filterVideo e w
    else match find (fun c => matchesVideoOrEmbed (dom w c)) (descendants w e)
         with
         | Some _ => filterVideo e w
         | None => (Ok tt, w)
         end.
Proof.
  unfold checkForVideo, querySelectorVideo, bind, element, gets.
  destruct (arr_includes (tagName (dom w e)) ["VIDEO"; "IFRAME"]);
    [reflexivity|].
  destruct (find _ _); reflexivity.
Qed.

Lemma checkForVideo_hit (e : node) (w : World) :
  videoLike w e -> checkForVideo e w = filterVideo e w.
Proof.
  intro H. rewrite checkForVideo_eq.
  destruct (arr_includes (tagName (dom w e)) ["VIDEO"; "IFRAME"]) eqn:T;
    [reflexivity|].
  destruct (find _ _) eqn:F; [reflexivity|].
  destruct H as [H|(c & Hc & Hm)]; [congruence|].
  pose proof (find_none _ _ F c Hc) as Hn. simpl in Hn. congruence.
Qed.



Lemma filterVideo_pageKept (e : node) : preserves pageKept (filterVideo e).
Proof.
  unfold filterVideo, isWhitelisted, shouldFilter, isBlacklisted.
  pres; try apply replaceElement_pageKept; kept_leaf.
Qed.

Lemma filterImage_pageKept (e : node) : preserves pageKept (filterImage e).
Proof.
  unfold filterImage, isWhitelisted, shouldFilter, isBlacklisted.
  pres; try apply replaceElement_pageKept; kept_leaf.
Qed.

Lemma filterVideo_growsKept (e : node) : preserves growsKept (filterVideo e).
Proof.
  intro w. split; [|apply filterVideo_pageKept].
  apply (filterOutcome_grows False _ e w (filterVideo_cases e w)).
Qed.

Lemma filterImage_growsKept (e : node) : preserves growsKept (filterImage e).
Proof.
  intro w. split; [|apply filterImage_pageKept].
  apply (filterOutcome_grows False _ e w (filterImage_cases e w)).
Qed.

Lemma isUIElement_growsKept (e : node) : preserves growsKept (isUIElement e).
Proof.
  intro w. split; [apply isUIElement_grows|apply isUIElement_pageKept].
Qed.

Lemma mark_growsKept (e : node) :
  preserves growsKept
    (assign e (el_setAttribute "data-xsafe-scanned" "true")).
Proof.
  intro w. split; [|apply mark_pageKept].
  unfold grows. split; [repeat split|]. split; [auto|].
  assert (D : forall n,
            style_display
              (upd (dom w) e (el_setAttribute "data-xsafe-scanned" "true") n)
            = style_display (dom w n)).
  { intro n. unfold upd. destruct (Nat.eqb n e); reflexivity. }
  split.
  { split; intro n; cbn; [left; apply D|].
    unfold upd. destruct (Nat.eqb n e); reflexivity. }
  split.
  { intro n. cbn. unfold upd. destruct (Nat.eqb n e); split; reflexivity. }
  split; [|intros []].
  intros H x Hx. cbn. rewrite D. apply H. exact Hx.
Qed.

Ltac growsKept_leaf := solve [intro; apply growsKept_refl].

Lemma checkForVideo_growsKept
    (e : node) : preserves growsKept (checkForVideo e).
Proof.
  unfold checkForVideo, querySelectorVideo.
  pres; try apply filterVideo_growsKept.
Qed.

Lemma checkForImage_growsKept
    (e : node) : preserves growsKept (checkForImage e).
Proof.
  unfold checkForImage.
  pres; try apply isUIElement_growsKept; apply filterImage_growsKept.
Qed.

(** What follows the video test in one visit. *)
Lemma visit_rest_growsKept (e : node) :
  preserves growsKept
    ((si <- shouldFilterImages ;; when si (checkForImage e)) ;;
     assign e (el_setAttribute "data-xsafe-scanned" "true")).
Proof.
  unfold shouldFilterImages.
  pres; try apply checkForImage_growsKept; apply mark_growsKept.
Qed.

Lemma visit_growsKept (e : node) :
  preserves growsKept
    (scanElement e ;; assign e (el_setAttribute "data-xsafe-scanned" "true")).
Proof.
  unfold scanElement, shouldFilterVideos, shouldFilterImages.
  pres; try apply checkForVideo_growsKept; try apply checkForImage_growsKept;
    apply mark_growsKept.
Qed.

(** X9. The observer pass conceals every container of a video
    (placeholder revision).  On a page that is neither allow-listed
    nor under the permissive intensity, with a mode that covers videos
    and every recorded element hidden, a pass of [scanNewContent] that
    returns normally has recorded and hidden every node of its batch
    that is a [VIDEO] or an [IFRAME], or that has a video or a video
    embed anywhere below it. *)
Theorem observer_conceals_whatever_holds_a_video (w : World) (s : Settings) :
  settings w = Some s ->
  hiddenIfRecorded w ->
  arr_includes (filterMode s) ["videos"; "both"] = true ->
  arr_includes (hostname w) (whitelistedDomains s) = false ->
  String.eqb (intensityLevel s) "permissive" = false ->
  fst (scanNewContent w) = Ok tt ->
  forall e, In e (batch w) -> videoLike w e ->
    In e (filteredElements (snd (scanNewContent w)))
    /\ style_display (dom (snd (scanNewContent w)) e) = "none".
Proof.
  intros S Hh Hmode Hwl Hperm. rewrite scanNewContent_eq.
  set (visit := fun n => scanElement n ;;
                         assign n (el_setAttribute "data-xsafe-scanned" "true")).
  destruct (forEach_inv visit growsKept growsKept_order
              (fun w0 => settings w0 = Some s /\ hostname w0 = hostname w
                         /\ pageKept w w0)
              (fun x w0 => videoLike w x -> In x (filteredElements w0))
              (batch w)) with (w := w) as (_ & (G & _) & P).
  - intros x w0 Hx (S0 & H0 & K0).
    pose proof (visit_growsKept x w0) as Gv. fold (visit x) in Gv.
    split; [|split; [exact Gv|]].
    + destruct Gv as (((Fs & _ & _ & _ & Fh & _) & _) & K).
      split; [congruence|]. split; [congruence|].
      eapply pageKept_trans; eauto.
    + intros Hok Hv.
      apply (videoLike_kept w w0 x K0) in Hv.
      revert Hok. unfold visit, scanElement.
      rewrite bind_assoc.
      rewrite (bind_ok _ _ _ _ _ (shouldFilterVideos_eq s w0 S0)).
      rewrite Hmode. cbn [when]. rewrite bind_assoc.
      pose proof (checkForVideo_hit x w0 Hv) as Ec.
      destruct (filterVideo x w0) as [[[]|err] w1] eqn:E;
        [rewrite (bind_ok _ _ _ _ _ Ec)
        |rewrite (bind_throw _ _ _ _ _ Ec); discriminate].
      intros _.
      assert (Hin : In x (filteredElements w1)).
      { rewrite <- H0 in Hwl.
        pose proof (filterVideo_proceeds x w0 s S0 Hwl Hperm) as Hp.
        rewrite E in Hp. apply Hp. reflexivity. }
      destruct (visit_rest_growsKept x w1) as ((_ & M & _) & _).
      apply M. exact Hin.
  - intros x w0 w' HP ((_ & M & _) & _) Hv. apply M. auto.
  - split; [exact S|]. split; [reflexivity|apply pageKept_refl].
  - intros Hok e He Hv.
    assert (Hin : In e (filteredElements (snd (forEach (batch w) visit w)))).
    { apply (P Hok e He Hv). }
    split; [exact Hin|].
    destruct G as (_ & _ & _ & _ & Hid & _). apply (Hid Hh e Hin).
Qed.

Lemma observer_conceals_whatever_holds_a_video_witness :
  let w := insertedVideo (moderateSettings "videos") in
  batch w = [2; 3]
  /\ fst (scanNewContent w) = Ok tt
  /\ In 2 (filteredElements (snd (scanNewContent w)))
  /\ style_display (dom (snd (scanNewContent w)) 2) = "none".
Proof.
  split; [reflexivity|]. split; [reflexivity|].
  apply (observer_conceals_whatever_holds_a_video
           (insertedVideo (moderateSettings "videos"))
           (moderateSettings "videos")); try reflexivity.
  - intros e [].
  - now left.
  - right. exists 3. split; [now left|reflexivity].
Defined.








(** With placeholders on, concealing the root element throws before
    anything is assigned. *)
Lemma replaceElement_root (e p : node) (type : string) (w : World)
    (s : Settings) (rect : DOMRect) :
  settings w = Some s ->
  showPlaceholders s = true ->
  parentNode (dom w e) = Some p ->
  getBoundingClientRect (dom w e) = Ok (Some rect) ->
  isDocumentElement e w = true ->
  replaceElement e type w = (Throw (HostError "HierarchyRequestError"), w).
Proof.
  intros S SP P R D.
  unfold replaceElement, createPlaceholder, bind, element, gets, lift,
    theSettings, throw, ret.
  destruct w as [st fe fl ca mx lt cd ec mo ps si dm hn qs ds].
  cbn in S, P, R |- *. subst st. rewrite R. cbn. rewrite SP, P. cbn.
  rewrite D. reflexivity.
Qed.

(** X19. With placeholders on, the observer pass stops at the root
    element of a page that holds a video (placeholder revision).  On a
    page that is neither allow-listed nor under the permissive
    intensity, with a mode that covers videos, when the root element
    of the document is neither marked nor recorded and is a video or
    has a video or a video embed below it, [scanNewContent] reaches
    the root first and throws when it inserts the placeholder before
    it: the Document takes no second element child.  Nothing has been
    assigned by then, the root is still unmarked, and so the callback
    of the observer leaves the world as it was however often it
    runs. *)
Theorem observer_pass_stops_at_the_root (w : World) (s : Settings)
    (root p : node) (rest : list node) (rect : DOMRect) :
  settings w = Some s ->
  showPlaceholders s = true ->
  arr_includes (filterMode s) ["videos"; "both"] = true ->
  arr_includes (hostname w) (whitelistedDomains s) = false ->
  String.eqb (intensityLevel s) "permissive" = false ->
  querySelectorAll w "*" = root :: rest ->
  scannedMark (dom w root) = false ->
  set_has root (filteredElements w) = false ->
  videoLike w root ->
  parentNode (dom w root) = Some p ->
  getBoundingClientRect (dom w root) = Ok (Some rect) ->
  scanNewContent w = (Throw (HostError "HierarchyRequestError"), w)
  /\ (forall now, snd (observerCallback now w) = w)
  /\ (forall times, run (map Mutated times) w = w).
Proof.
  intros S SP Hmode Hwl Hperm Q Hmark Hhas Hv P R.
  assert (D : isDocumentElement root w = true).
  { unfold isDocumentElement. rewrite Q. apply Nat.eqb_refl. }
  assert (E : scanNewContent w
              = (Throw (HostError "HierarchyRequestError"), w)).
  { rewrite scanNewContent_eq. unfold batch, unscannedNodes.
    rewrite Q. cbn [filter].
    change (hasAttribute (dom w root) "data-xsafe-scanned")
      with (scannedMark (dom w root)).
    rewrite Hmark. cbn [negb firstn forEach].
    assert (Ev : scanElement root w
                 = (Throw (HostError "HierarchyRequestError"), w)).
    { unfold scanElement.
      rewrite (bind_ok _ _ _ _ _ (shouldFilterVideos_eq s w S)).
      rewrite Hmode. cbn [when].
      assert (Ec : checkForVideo root w
                   = (Throw (HostError "HierarchyRequestError"), w)).
      { rewrite (checkForVideo_hit root w Hv).
        rewrite (filterVideo_eq root w s S), Hwl, Hhas, Hperm. cbn [orb].
        exact (replaceElement_root root p "video" w s rect S SP P R D). }
      now rewrite (bind_throw _ _ _ _ _ Ec). }
    rewrite (bind_throw _ _ _ _ _ (bind_throw _ _ _ _ _ Ev)). reflexivity. }
  assert (O : forall now, snd (observerCallback now w) = w).
  { intro now. unfold observerCallback, bind. rewrite canScan_eq.
    destruct (negb _); cbn [when]; [now rewrite E|reflexivity]. }
  split; [exact E|]. split; [exact O|].
  induction times as [|t times IH]; cbn [map run fire]; [reflexivity|].
  rewrite O. exact IH.
Qed.

Lemma observer_pass_stops_at_the_root_witness :
  let w := wrappedVideo (moderateSettings "both") in
  scanNewContent w = (Throw (HostError "HierarchyRequestError"), w)
  /\ run [Mutated 5000; Mutated 9000; Mutated 13000] w = w.
Proof.
  destruct (observer_pass_stops_at_the_root
              (wrappedVideo (moderateSettings "both"))
              (moderateSettings "both") 0 1000 [1] (mkRect 640 360))
    as (E & _ & H); try reflexivity.
  - right. exists 1. split; [now left|reflexivity].
  - split; [exact E|]. exact (H [5000; 9000; 13000]%Z).
Defined.

End ObserverPass.

(** ** The samples of the performance tracker *)

Section TrackerFacts.
Import Tracker.
Variable Num : Type.
Variable add : Num -> Num -> Num.
Variable quot : Num -> nat -> Num.
Variable zero : Num.
Variable truthyNum : Num -> bool.


Lemma lastn_all {A} (l : list A) : lastn (length l) l = l.
Proof. unfold lastn. now rewrite Nat.sub_diag. Qed.

Lemma lastn_length {A} (k : nat) (l : list A) :
  k <= length l -> length (lastn k l) = k.
Proof. intro H. unfold lastn. rewrite length_skipn. lia. Qed.

Lemma lastn_snoc {A} (k : nat) (l : list A) (x : A) :
  k <= length l -> lastn k l ++ [x] = lastn (S k) (l ++ [x]).
Proof.
  intro H. unfold lastn. rewrite length_app. simpl.
  replace (length l + 1 - S k) with (length l - k) by lia.
  rewrite skipn_app.
  replace (length l - k - length l) with 0 by lia. reflexivity.
Qed.

Lemma lastn_lastn {A} (j k : nat) (l : list A) :
  j <= k -> k <= length l -> lastn j (lastn k l) = lastn j l.
Proof.
  intros H1 H2. unfold lastn. rewrite length_skipn, skipn_skipn.
  f_equal. lia.
Qed.

(** One more sample, then the trim of [record]. *)
Lemma retained_step {A} (history values : list A) (x : A) :
  retained history values ->
  retained (history ++ [x])
    (if Nat.ltb 100 (length (values ++ [x]))
     then lastn 50 (values ++ [x]) else values ++ [x]).
Proof.
  intros (k & Hmin & Hmax & Hlen & ->).
  rewrite (lastn_snoc k history x Hlen).
  assert (Hl : length (lastn (S k) (history ++ [x])) = S k).
  { apply lastn_length. rewrite length_app. simpl. lia. }
  rewrite Hl.
  destruct (Nat.ltb 100 (S k)) eqn:E.
  - apply Nat.ltb_lt in E. exists 50.
    rewrite length_app. simpl.
    split; [lia|]. split; [lia|]. split; [lia|].
    apply lastn_lastn; [lia|]. rewrite length_app. simpl. lia.
  - apply Nat.ltb_ge in E. exists (S k).
    rewrite length_app. simpl.
    split; [lia|]. split; [lia|]. split; [lia|reflexivity].
Qed.

Lemma getMetric_own (metric : string) (m : Metrics Num) (v : list Num) :
  getMetric Num metric m = OwnArray Num v ->
  In metric ["scanTime"; "filterTime"; "replaceTime"; "memoryUsage"].
Proof.
  unfold getMetric.
  destruct (String.eqb metric "scanTime") eqn:E1;
    [apply String.eqb_eq in E1; subst; simpl; auto|].
  destruct (String.eqb metric "filterTime") eqn:E2;
    [apply String.eqb_eq in E2; subst; simpl; auto|].
  destruct (String.eqb metric "replaceTime") eqn:E3;
    [apply String.eqb_eq in E3; subst; simpl; auto|].
  destruct (String.eqb metric "memoryUsage") eqn:E4;
    [apply String.eqb_eq in E4; subst; simpl; auto|].
  destruct (arr_includes metric JSObject.prototypeKeys); discriminate.
Qed.

Lemma getMetric_set_same (metric : string) (m : Metrics Num) (v : list Num) :
  In metric ["scanTime"; "filterTime"; "replaceTime"; "memoryUsage"] ->
  getMetric Num metric (setMetric Num metric v m) = OwnArray Num v.
Proof.
  intros [<-|[<-|[<-|[<-|[]]]]]; reflexivity.
Qed.

Lemma getMetric_set_other (name metric : string) (m : Metrics Num)
    (v : list Num) :
  name <> metric ->
  getMetric Num name (setMetric Num metric v m) = getMetric Num name m.
Proof.
  intro Hne. unfold setMetric.
  destruct (String.eqb metric "scanTime") eqn:E1.
  { apply String.eqb_eq in E1. subst metric. unfold getMetric.
    apply String.eqb_neq in Hne. rewrite Hne. reflexivity. }
  destruct (String.eqb metric "filterTime") eqn:E2.
  { apply String.eqb_eq in E2. subst metric. unfold getMetric.
    apply String.eqb_neq in Hne. rewrite Hne. reflexivity. }
  destruct (String.eqb metric "replaceTime") eqn:E3.
  { apply String.eqb_eq in E3. subst metric. unfold getMetric.
    apply String.eqb_neq in Hne. rewrite Hne. reflexivity. }
  destruct (String.eqb metric "memoryUsage") eqn:E4.
  { apply String.eqb_eq in E4. subst metric. unfold getMetric.
    apply String.eqb_neq in Hne. rewrite Hne. reflexivity. }
  reflexivity.
Qed.

(** What one [record] call does to the arrays. *)
Lemma record_metrics (metric : string) (value : Num) (t : Tracker.State Num) :
  metrics Num (snd (record Num add quot zero truthyNum metric value t))
  = match getMetric Num metric (metrics Num t) with
    | OwnArray _ values =>
        setMetric Num metric
          (if Nat.ltb 100 (length (values ++ [value]))
           then lastn 50 (values ++ [value]) else values ++ [value])
          (metrics Num t)
    | _ => metrics Num t
    end.
Proof.
  unfold Tracker.record.
  destruct (getMetric Num metric (metrics Num t)) as [values| |];
    [|reflexivity|reflexivity].
  cbv zeta. destruct (Nat.eqb _ 0); reflexivity.
Qed.

Lemma recordAll_snoc (calls : list (string * Num)) (metric : string)
    (value : Num) (t : Tracker.State Num) :
  recordAll Num add quot zero truthyNum (calls ++ [(metric, value)]) t
  = snd (record Num add quot zero truthyNum metric value
      (recordAll Num add quot zero truthyNum calls t)).
Proof.
  revert t. induction calls as [|[m v] calls IH]; intro t; simpl.
  - reflexivity.
  - apply IH.
Qed.

Lemma recordedUnder_snoc (name metric : string) (value : Num)
    (calls : list (string * Num)) :
  recordedUnder Num name (calls ++ [(metric, value)])
  = recordedUnder Num name calls
    ++ (if String.eqb metric name then [value] else []).
Proof.
  unfold recordedUnder. rewrite filter_app, map_app. simpl.
  destruct (String.eqb metric name); reflexivity.
Qed.

Lemma retained_nil {A} : retained (@nil A) [].
Proof. exists 0. simpl. repeat split; lia. Qed.

Lemma tracker_invariant (calls : list (string * Num)) (name : string)
    (values : list Num) :
  getMetric Num name (metrics Num
      (recordAll Num add quot zero truthyNum calls (newTracker Num)))
  = OwnArray Num values ->
  retained (recordedUnder Num name calls) values.
Proof.
  revert name values.
  induction calls as [|[metric value] calls IH] using rev_ind;
    intros name values H.
  - simpl in H. unfold getMetric in H. simpl in H.
    repeat match type of H with
           | (if ?b then _ else _) = _ => destruct b
           end;
      try discriminate; injection H as <-; apply retained_nil.
  - rewrite recordAll_snoc in H. rewrite record_metrics in H.
    rewrite recordedUnder_snoc.
    destruct (getMetric Num metric (metrics Num
        (recordAll Num add quot zero truthyNum calls (newTracker Num))))
      as [old| |] eqn:G.
    + pose proof (getMetric_own _ _ _ G) as Hown.
      destruct (String.eqb metric name) eqn:E.
      * apply String.eqb_eq in E. subst name.
        rewrite (getMetric_set_same metric _ _ Hown) in H.
        injection H as <-. apply retained_step. apply IH. exact G.
      * apply String.eqb_neq in E.
        rewrite getMetric_set_other in H by congruence.
        rewrite app_nil_r. apply IH. exact H.
    + destruct (String.eqb metric name) eqn:E.
      * apply String.eqb_eq in E. subst name. congruence.
      * rewrite app_nil_r. apply IH. exact H.
    + destruct (String.eqb metric name) eqn:E.
      * apply String.eqb_eq in E. subst name. congruence.
      * rewrite app_nil_r. apply IH. exact H.
Qed.

(** X11. After any sequence of [record] calls, each of the four
    arrays of the tracker holds the newest [k] samples recorded under
    its name, in the order they were recorded, for some [k] that is at
    most one hundred and at least fifty, or at least the number of
    samples recorded when that is smaller; so no array is longer than
    one hundred.  This holds whatever other names were recorded in
    between, also names that make [record] throw. *)
Theorem tracker_keeps_the_newest_samples (calls : list (string * Num)) :
  let m := metrics Num
      (recordAll Num add quot zero truthyNum calls (newTracker Num)) in
  (retained (recordedUnder Num "scanTime" calls) (scanTime Num m)
   /\ retained (recordedUnder Num "filterTime" calls) (filterTime Num m)
   /\ retained (recordedUnder Num "replaceTime" calls) (replaceTime Num m)
   /\ retained (recordedUnder Num "memoryUsage" calls) (memoryUsage Num m))
  /\ (length (scanTime Num m) <= 100
      /\ length (filterTime Num m) <= 100
      /\ length (replaceTime Num m) <= 100
      /\ length (memoryUsage Num m) <= 100).
Proof.
  intro m.
  assert (R : retained (recordedUnder Num "scanTime" calls) (scanTime Num m)
              /\ retained (recordedUnder Num "filterTime" calls) (filterTime Num m)
              /\ retained (recordedUnder Num "replaceTime" calls) (replaceTime Num m)
              /\ retained (recordedUnder Num "memoryUsage" calls) (memoryUsage Num m)).
  { repeat split; apply tracker_invariant; reflexivity. }
  split; [exact R|].
  assert (B : forall (h v : list Num), retained h v -> length v <= 100).
  { intros h v (k & _ & Hk & Hl & ->). rewrite lastn_length; lia. }
  destruct R as (R1 & R2 & R3 & R4).
  repeat split; eapply B; eauto.
Qed.

(** The array that feeds [loadImpact] stays empty, and every message
    sent carries zero there. *)
Lemma loadImpact_invariant (calls : list (string * Num)) :
  (forall c, In c calls ->
     In (fst c) ["scanTime"; "replaceTime"; "memoryUsage"]) ->
  let t := recordAll Num add quot zero truthyNum calls (newTracker Num) in
  filterTime Num (metrics Num t) = []
  /\ forall p, In p (sent Num t) -> pd_loadImpact Num p = zero.
Proof.
  induction calls as [|[metric value] calls IH] using rev_ind; intro Hall.
  - simpl. split; [reflexivity|intros p []].
  - destruct IH as [IF IS].
    { intros c Hc. apply Hall. apply in_or_app. now left. }
    assert (Hm : In metric ["scanTime"; "replaceTime"; "memoryUsage"]).
    { apply (Hall (metric, value)). apply in_or_app. right. now left. }
    cbv zeta. rewrite recordAll_snoc.
    set (t := recordAll Num add quot zero truthyNum calls (newTracker Num)) in *.
    assert (Hne : "filterTime" <> metric).
    { destruct Hm as [<-|[<-|[<-|[]]]]; discriminate. }
    assert (HF : forall v,
              filterTime Num (setMetric Num metric v (metrics Num t)) = []).
    { intro v. destruct Hm as [<-|[<-|[<-|[]]]]; exact IF. }
    unfold Tracker.record.
    destruct (getMetric Num metric (metrics Num t)) as [old| |];
      [|split; assumption|split; assumption].
    cbv zeta.
    destruct (Nat.eqb _ 0); cbn [snd metrics sent reportMetrics];
      (split; [apply HF|]); [|exact IS].
    intros p Hp. apply in_app_or in Hp. destruct Hp as [Hp|[<-|[]]]; [auto|].
    cbn [pd_loadImpact metrics]. rewrite HF. reflexivity.
Qed.

(** X12. The [loadImpact] the tracker reports is always zero.  The
    content script records under the names [scanTime], [replaceTime]
    and [memoryUsage] only; after any sequence of such calls, every
    [PERFORMANCE_DATA] message the tracker has sent carries the
    [loadImpact] 0, because [filterTime], which it is computed from,
    is never recorded. *)
Theorem loadImpact_is_always_zero (calls : list (string * Num)) :
  (forall c, In c calls ->
     In (fst c) ["scanTime"; "replaceTime"; "memoryUsage"]) ->
  forall p, In p (sent Num
      (recordAll Num add quot zero truthyNum calls (newTracker Num))) ->
    pd_loadImpact Num p = zero.
Proof. intro H. apply (loadImpact_invariant calls H). Qed.

End TrackerFacts.

Lemma loadImpact_is_always_zero_witness :
  let quot := fun (a : Z) (n : nat) => Z.div a (Z.of_nat n) in
  let truthy := fun a : Z => negb (Z.eqb a 0) in
  let t := Tracker.recordAll Z Z.add quot 0%Z truthy Pages.tenScans
             (Tracker.newTracker Z) in
  Tracker.sent Z t = [Tracker.mkPerformanceData Z 4%Z 0%Z 0%Z]
  /\ forall p, In p (Tracker.sent Z t) -> Tracker.pd_loadImpact Z p = 0%Z.
Proof.
  split; [reflexivity|].
  intros p Hp.
  apply (loadImpact_is_always_zero Z Z.add
           (fun (a : Z) (n : nat) => Z.div a (Z.of_nat n)) 0%Z
           (fun a : Z => negb (Z.eqb a 0)) Pages.tenScans); [|exact Hp].
  clear p Hp. intros c Hc. apply repeat_spec in Hc. subst c.
  left. reflexivity.
Defined.

(** ** Disabling the direct-hiding revision *)

Section DirectDisable.
Import Engine DirectRev DirectStop Scenarios.

(** Clearing child markers, and clearing both markers, touch nothing
    else. *)
Lemma clear_markers_spec (both : bool) (l : list node) (w : World) :
  exists w',
    forEach l (fun e =>
      if both
      then assign e (el_with_container_child false) ;;
           assign e (el_with_xsafe_id None)
      else assign e (el_with_container_child false)) w
    = (Ok tt, w')
    /\ filteredElements w' = filteredElements w
    /\ sameInstance w w'
    /\ forall n,
         style_display (dom w' n) = style_display (dom w n)
         /\ style_visibility (dom w' n) = style_visibility (dom w n)
         /\ xsafeData (dom w' n) = xsafeData (dom w n)
         /\ data_xsafe_container_child (dom w' n)
            = (if set_has n l then false
               else data_xsafe_container_child (dom w n))
         /\ data_xsafe_id (dom w' n)
            = (if andb both (set_has n l) then None
               else data_xsafe_id (dom w n)).
Proof.
  revert w. induction l as [|c l IH]; intro w.
  - exists w. split; [reflexivity|]. split; [reflexivity|].
    split; [apply sameInstance_refl|]. intro n. simpl.
    rewrite andb_false_r. repeat split.
  - set (w1 := if both
               then with_dom (upd (upd (dom w) c (el_with_container_child false))
                                c (el_with_xsafe_id None)) w
               else with_dom (upd (dom w) c (el_with_container_child false)) w).
    destruct (IH w1) as (w' & E & F & I & D).
    exists w'. split.
    { cbn [forEach]. unfold bind at 1.
      destruct both; unfold bind, assign, modify; cbn; exact E. }
    split; [rewrite F; destruct both; reflexivity|].
    split.
    { eapply sameInstance_trans; [|exact I].
      destruct both; repeat split. }
    intro n. destruct (D n) as (D1 & D2 & D3 & D4 & D5).
    rewrite D1, D2, D3, D4, D5.
    change (set_has n (c :: l)) with (orb (Nat.eqb n c) (set_has n l)).
    subst w1. destruct both; cbn; unfold upd;
      destruct (Nat.eqb n c); cbn; destruct (set_has n l); repeat split.
Qed.

Lemma direct_reveal (e : node) (w : World) :
  exists w',
    revealElement e w = (Ok tt, w')
    /\ filteredElements w' = set_delete e (filteredElements w)
    /\ sameInstance w w'
    /\ forall n,
         xsafeData (dom w' n) = xsafeData (dom w n)
         /\ style_display (dom w' n)
            = (if Nat.eqb n e then restoredDisplay (dom w e)
               else style_display (dom w n))
         /\ style_visibility (dom w' n)
            = (if Nat.eqb n e then restoredVisibility (dom w e)
               else style_visibility (dom w n))
         /\ data_xsafe_id (dom w' n)
            = (if Nat.eqb n e then None else data_xsafe_id (dom w n)).
Proof.
  unfold revealElement.
  unfold bind at 1. unfold containerChildren, gets.
  set (l := filter _ _).
  assert (Hloop : exists w0,
    when (Nat.ltb 0 (length l))
      (forEach l (fun child => assign child (el_with_container_child false))) w
    = (Ok tt, w0)
    /\ filteredElements w0 = filteredElements w
    /\ sameInstance w w0
    /\ forall n,
         style_display (dom w0 n) = style_display (dom w n)
         /\ style_visibility (dom w0 n) = style_visibility (dom w n)
         /\ xsafeData (dom w0 n) = xsafeData (dom w n)
         /\ data_xsafe_id (dom w0 n) = data_xsafe_id (dom w n)).
  { destruct (Nat.ltb 0 (length l)); simpl.
    - destruct (clear_markers_spec false l w) as (w0 & E & F & I & D).
      exists w0. split; [exact E|]. split; [exact F|]. split; [exact I|].
      intro n. destruct (D n) as (D1 & D2 & D3 & _ & D5). auto.
    - exists w. split; [reflexivity|]. split; [reflexivity|].
      split; [apply sameInstance_refl|]. intro n. repeat split. }
  destruct Hloop as (w0 & E & F & I & D).
  rewrite (bind_ok _ _ _ _ _ E).
  unfold bind at 1. unfold element, gets.
  destruct (D e) as (De1 & De2 & De3 & De4).
  unfold restoredDisplay, restoredVisibility. rewrite <- De3.
  destruct (xsafeData (dom w0 e)) as [d|] eqn:Hd;
    unfold bind, assign, modify; cbn;
    (eexists; split; [reflexivity|]); cbn;
    (split; [now rewrite F|]);
    (split; [exact I|]);
    intro n; destruct (D n) as (D1 & D2 & D3 & D4);
    unfold upd; destruct (Nat.eqb n e); cbn; auto.
Qed.

Lemma restored_ext (a b : Element) :
  xsafeData a = xsafeData b ->
  restoredDisplay a = restoredDisplay b
  /\ restoredVisibility a = restoredVisibility b.
Proof. intro H. unfold restoredDisplay, restoredVisibility. now rewrite H. Qed.

Lemma direct_restore_loop (l : list node) (w : World) :
  exists w',
    forEach l revealElement w = (Ok tt, w')
    /\ sameInstance w w'
    /\ forall n,
         xsafeData (dom w' n) = xsafeData (dom w n)
         /\ style_display (dom w' n)
            = (if set_has n l then restoredDisplay (dom w n)
               else style_display (dom w n))
         /\ style_visibility (dom w' n)
            = (if set_has n l then restoredVisibility (dom w n)
               else style_visibility (dom w n))
         /\ data_xsafe_id (dom w' n)
            = (if set_has n l then None else data_xsafe_id (dom w n)).
Proof.
  revert w. induction l as [|e l IH]; intro w.
  - exists w. split; [reflexivity|]. split; [apply sameInstance_refl|].
    intro n. repeat split.
  - destruct (direct_reveal e w) as (w1 & E1 & _ & I1 & D1).
    destruct (IH w1) as (w' & E & I & D).
    exists w'. split; [cbn [forEach]; rewrite (bind_ok _ _ _ _ _ E1); exact E|].
    split; [eapply sameInstance_trans; eauto|].
    intro n. destruct (D n) as (A & B & C & G).
    destruct (D1 n) as (A1 & B1 & C1 & G1).
    destruct (restored_ext (dom w1 n) (dom w n) A1) as [Rd Rv].
    rewrite A, B, C, G, A1, B1, C1, G1, Rd, Rv.
    change (set_has n (e :: l)) with (orb (Nat.eqb n e) (set_has n l)).
    destruct (Nat.eqb n e) eqn:En; cbn [orb];
      [apply Nat.eqb_eq in En; subst n|];
      destruct (set_has _ l); repeat split.
Qed.

Lemma direct_stop_spec (w : World) :
  exists w',
    stopFiltering w = (Ok tt, w')
    /\ filteredElements w' = []
    /\ uiElementCache w' = []
    /\ isFiltering w' = false
    /\ mutationObserver w' = false
    /\ periodicScanInterval w' = false
    /\ elementCounter w' = elementCounter w
    /\ forall n,
         xsafeData (dom w' n) = xsafeData (dom w n)
         /\ (data_xsafe_id (dom w' n) = None
             \/ data_xsafe_id (dom w' n) = data_xsafe_id (dom w n))
         /\ style_display (dom w' n)
            = (if set_has n (filteredElements w) then restoredDisplay (dom w n)
               else style_display (dom w n))
         /\ style_visibility (dom w' n)
            = (if set_has n (filteredElements w)
               then restoredVisibility (dom w n)
               else style_visibility (dom w n))
         /\ (In n (filteredElements w) \/ In n (querySelectorAll w "*") ->
             data_xsafe_id (dom w' n) = None)
         /\ (In n (querySelectorAll w "*") ->
             data_xsafe_container_child (dom w' n) = false).
Proof.
  set (w0 := with_periodicScanInterval false
               (with_mutationObserver false (with_isFiltering false w))).
  destruct (direct_restore_loop (filteredElements w) w0) as (w1 & E1 & I1 & D1).
  set (w2 := with_uiElementCache [] (with_filteredElements []
               (with_filteredElements [] w1))).
  destruct (clear_markers_spec true (markedElements w2) w2)
    as (w3 & E3 & F3 & I3 & D3).
  exists w3. split.
  { unfold stopFiltering, restoreAllElements, cleanup.
    rewrite (bind_ok (modify (with_isFiltering false)) _ w _ tt eq_refl).
    rewrite (bind_ok (modify (with_mutationObserver false)) _ _ _ tt eq_refl).
    rewrite (bind_ok (modify (with_periodicScanInterval false)) _ _ w0 tt eq_refl).
    rewrite bind_assoc.
    rewrite (bind_ok (gets filteredElements) _ w0 w0 (filteredElements w) eq_refl).
    rewrite bind_assoc.
    rewrite (bind_ok (forEach (filteredElements w) revealElement) _ w0 w1 tt E1).
    rewrite (bind_ok (modify (with_filteredElements [])) _ w1 _ tt eq_refl).
    rewrite (bind_ok (modify (with_filteredElements [])) _ _ _ tt eq_refl).
    rewrite (bind_ok (modify (with_uiElementCache [])) _ _ w2 tt eq_refl).
    rewrite (bind_ok (gets markedElements) _ w2 w2 (markedElements w2) eq_refl).
    exact E3. }
  destruct I1 as (_ & I1b & _ & _ & _ & _ & I1g & I1h & I1i & _ & _ & I1l & _).
  destruct I3 as (_ & I3b & I3c & _ & _ & _ & I3g & I3h & I3i & _ & _ & _ & _).
  split; [rewrite F3; reflexivity|].
  split; [rewrite I3c; reflexivity|].
  split; [rewrite I3b; exact I1b|].
  split; [rewrite I3h; exact I1h|].
  split; [rewrite I3i; exact I1i|].
  split; [rewrite I3g; exact I1g|].
  intro n. destruct (D3 n) as (A3 & B3 & C3 & G3 & H3).
  destruct (D1 n) as (A1 & B1 & C1 & G1).
  change (dom w2 n) with (dom w1 n) in A3, B3, C3, G3, H3.
  change (dom w0 n) with (dom w n) in A1, B1, C1, G1.
  change (filteredElements w0) with (filteredElements w) in B1, C1, G1.
  split; [congruence|].
  split.
  { rewrite H3, G1. cbn [andb].
    destruct (set_has n (markedElements w2)); [now left|].
    destruct (set_has n (filteredElements w)); [now left|now right]. }
  split; [congruence|]. split; [congruence|].
  assert (Hdoc : In n (querySelectorAll w "*") ->
                 set_has n (markedElements w2) = false ->
                 data_xsafe_container_child (dom w1 n) = false
                 /\ data_xsafe_id (dom w1 n) = None).
  { intros Hq Hm. apply set_has_not_In in Hm.
    unfold markedElements in Hm.
    change (querySelectorAll w2) with (querySelectorAll w1) in Hm.
    change (dom w2) with (dom w1) in Hm.
    rewrite I1l in Hm. change (querySelectorAll w0) with (querySelectorAll w) in Hm.
    destruct (isMarked (dom w1 n)) eqn:M.
    - exfalso. apply Hm. apply filter_In. auto.
    - unfold isMarked in M. apply orb_false_iff in M. destruct M as [M1 M2].
      split; [exact M1|].
      destruct (data_xsafe_id (dom w1 n)); [discriminate|auto]. }
  split.
  - intros [Hf|Hq]; rewrite H3; cbn [andb];
      destruct (set_has n (markedElements w2)) eqn:M; auto.
    + rewrite G1. apply set_has_In in Hf. now rewrite Hf.
    + apply Hdoc; auto.
  - intro Hq. rewrite G3.
    destruct (set_has n (markedElements w2)) eqn:M; [reflexivity|].
    apply Hdoc; auto.
Qed.

(** X13. Disabling the direct-hiding revision always completes.  From
    any state [stopFiltering] returns normally; afterwards nothing is
    recorded, the cache is empty, observer and interval are released;
    every element that was recorded has the [display] and the
    [visibility] saved for it, or empty ones when it carries no saved
    data, and no identifier; every other element keeps its styles; and
    no element of the document carries an identifier or a child
    marker. *)
Theorem direct_disable_never_throws (w : World) :
  exists w',
    stopFiltering w = (Ok tt, w')
    /\ (filteredElements w' = []
        /\ uiElementCache w' = []
        /\ isFiltering w' = false
        /\ mutationObserver w' = false
        /\ periodicScanInterval w' = false)
    /\ (forall e, In e (filteredElements w) ->
          match xsafeData (dom w e) with
          | Some d =>
              style_display (dom w' e) = originalDisplay d
              /\ style_visibility (dom w' e) = originalVisibility d
          | None =>
              style_display (dom w' e) = ""
              /\ style_visibility (dom w' e) = ""
          end
          /\ data_xsafe_id (dom w' e) = None)
    /\ (forall n, ~ In n (filteredElements w) ->
          style_display (dom w' n) = style_display (dom w n)
          /\ style_visibility (dom w' n) = style_visibility (dom w n))
    /\ (forall n, In n (querySelectorAll w "*") ->
          data_xsafe_id (dom w' n) = None
          /\ data_xsafe_container_child (dom w' n) = false).
Proof.
  destruct (direct_stop_spec w) as (w' & E & F & C & I & M & P & _ & D).
  exists w'. split; [exact E|]. split; [auto|]. split; [|split].
  - intros e He. destruct (D e) as (_ & _ & Dd & Dv & Di & _).
    apply set_has_In in He. rewrite He in Dd, Dv.
    split; [|apply Di; left; now apply set_has_In].
    unfold restoredDisplay in Dd. unfold restoredVisibility in Dv.
    destruct (xsafeData (dom w e)) as [d|]; [|auto].
    rewrite str_or_empty in Dd, Dv. auto.
  - intros n Hn. destruct (D n) as (_ & _ & Dd & Dv & _).
    apply set_has_not_In in Hn. rewrite Hn in Dd, Dv. auto.
  - intros n Hn. destruct (D n) as (_ & _ & _ & _ & Di & Dc). auto.
Qed.

Lemma decimal_inj (a b : nat) : decimal a = decimal b -> a = b.
Proof.
  unfold decimal. intro H.
  assert (H' : Some (Nat.to_uint a) = Some (Nat.to_uint b)).
  { rewrite <- !NilEmpty.usu. now rewrite H. }
  injection H' as H'.
  rewrite <- (Unsigned.of_to a), <- (Unsigned.of_to b). now rewrite H'.
Qed.

Lemma elementId_inj (a b : nat) :
  ("xsafe-" ++ decimal a)%string = ("xsafe-" ++ decimal b)%string -> a = b.
Proof. simpl. intros [= H]. now apply decimal_inj. Qed.

(** Removing identifiers keeps them unique. *)
Lemma uniqueIds_shrink (w w' : World) :
  elementCounter w' = elementCounter w ->
  (forall n, data_xsafe_id (dom w' n) = None
             \/ data_xsafe_id (dom w' n) = data_xsafe_id (dom w n)) ->
  uniqueIds w -> uniqueIds w'.
Proof.
  intros C D [U1 U2]. split.
  - intros n i H. rewrite C. apply (U1 n).
    destruct (D n) as [Hn|Hn]; congruence.
  - intros n m i Hn Hm. apply (U2 n m i).
    + destruct (D n) as [H|H]; congruence.
    + destruct (D m) as [H|H]; congruence.
Qed.

Lemma direct_replace_ids (e : node) (type : string) (w : World) :
  let w' := snd (replaceElement e type w) in
  elementCounter w' = S (elementCounter w)
  /\ forall n, data_xsafe_id (dom w' n)
               = if Nat.eqb n e
                 then Some ("xsafe-" ++ decimal (S (elementCounter w)))%string
                 else data_xsafe_id (dom w n).
Proof.
  unfold replaceElement, bind, modify, gets, assign, element. cbn.
  split; [reflexivity|]. intro n. unfold upd.
  destruct (Nat.eqb n e); reflexivity.
Qed.

Lemma direct_cleanup_ids (w : World) :
  elementCounter (snd (cleanup w)) = elementCounter w
  /\ forall n, data_xsafe_id (dom (snd (cleanup w)) n) = None
               \/ data_xsafe_id (dom (snd (cleanup w)) n)
                  = data_xsafe_id (dom w n).
Proof.
  set (w2 := with_uiElementCache [] (with_filteredElements [] w)).
  destruct (clear_markers_spec true (markedElements w2) w2)
    as (w3 & E3 & _ & I3 & D3).
  assert (E : cleanup w = (Ok tt, w3)).
  { unfold cleanup.
    rewrite (bind_ok (modify (with_filteredElements [])) _ _ _ tt eq_refl).
    rewrite (bind_ok (modify (with_uiElementCache [])) _ _ w2 tt eq_refl).
    rewrite (bind_ok (gets markedElements) _ w2 w2 (markedElements w2) eq_refl).
    exact E3. }
  rewrite E. cbn [snd].
  destruct I3 as (_ & _ & _ & _ & _ & _ & I3g & _).
  split; [exact I3g|].
  intro n. destruct (D3 n) as (_ & _ & _ & _ & H3). rewrite H3. cbn [andb].
  destruct (set_has n (markedElements w2)); [now left|now right].
Qed.

(** X14. Identifiers of the direct-hiding revision are unique.  When
    every identifier on the page was issued by the counter and no two
    elements carry the same one, this is still so after
    [replaceElement], and the element then carries the identifier made
    from the next value of the counter, which no other element
    carries; [revealElement], [cleanup] and [stopFiltering] keep
    identifiers unique as well. *)
Theorem element_ids_are_unique (w : World) (e : node) (type : string) :
  uniqueIds w ->
  let w1 := snd (replaceElement e type w) in
  uniqueIds w1
  /\ data_xsafe_id (dom w1 e)
     = Some ("xsafe-" ++ decimal (S (elementCounter w)))%string
  /\ (forall n, n <> e -> data_xsafe_id (dom w1 n) <> data_xsafe_id (dom w1 e))
  /\ uniqueIds (snd (revealElement e w))
  /\ uniqueIds (snd (cleanup w))
  /\ uniqueIds (snd (stopFiltering w)).
Proof.
  intros [U1 U2] w1.
  destruct (direct_replace_ids e type w) as [C D]. fold w1 in C, D.
  assert (De : data_xsafe_id (dom w1 e)
               = Some ("xsafe-" ++ decimal (S (elementCounter w)))%string).
  { rewrite D. now rewrite Nat.eqb_refl. }
  assert (Hfresh : forall n, n <> e ->
            data_xsafe_id (dom w1 n) <> data_xsafe_id (dom w1 e)).
  { intros n Hne. rewrite De, D.
    apply Nat.eqb_neq in Hne. rewrite Hne. intro H.
    destruct (U1 n _ H) as (k & Hk & Hi).
    apply elementId_inj in Hi. lia. }
  split; [|split; [exact De|split; [exact Hfresh|]]].
  - split.
    + intros n i H. rewrite C. rewrite D in H.
      destruct (Nat.eqb n e).
      * injection H as <-. exists (S (elementCounter w)). split; [lia|auto].
      * destruct (U1 n i H) as (k & Hk & Hi). exists k. split; [lia|auto].
    + intros n m i Hn Hm.
      destruct (Nat.eq_dec n e) as [->|Hne], (Nat.eq_dec m e) as [->|Hme];
        [reflexivity| | |].
      * exfalso. apply (Hfresh m Hme). congruence.
      * exfalso. apply (Hfresh n Hne). congruence.
      * rewrite D in Hn, Hm.
        apply Nat.eqb_neq in Hne, Hme. rewrite Hne in Hn. rewrite Hme in Hm.
        apply (U2 n m i Hn Hm).
  - split; [|split].
    + destruct (direct_reveal e w) as (w' & E & _ & I & Dr).
      rewrite E. cbn [snd].
      destruct I as (_ & _ & _ & _ & _ & _ & Ig & _).
      apply (uniqueIds_shrink w w' Ig); [|split; assumption].
      intro n. destruct (Dr n) as (_ & _ & _ & Hi). rewrite Hi.
      destruct (Nat.eqb n e); [now left|now right].
    + destruct (direct_cleanup_ids w) as [Cc Dc].
      apply (uniqueIds_shrink w _ Cc Dc). split; assumption.
    + destruct (direct_stop_spec w) as (w' & E & _ & _ & _ & _ & _ & Cs & Ds).
      rewrite E. cbn [snd].
      apply (uniqueIds_shrink w w' Cs); [|split; assumption].
      intro n. destruct (Ds n) as (_ & Hi & _). exact Hi.
Qed.

Lemma element_ids_are_unique_witness :
  let w := engineOn (moderateSettings "both") 3 in
  let w1 := snd (replaceElement 0 "video" w) in
  let w2 := snd (replaceElement 1 "video" w1) in
  data_xsafe_id (dom w2 0) = Some "xsafe-1"
  /\ data_xsafe_id (dom w2 1) = Some "xsafe-2"
  /\ uniqueIds w2.
Proof.
  assert (U0 : uniqueIds (engineOn (moderateSettings "both") 3)).
  { split; intros; discriminate. }
  destruct (element_ids_are_unique _ 0 "video" U0) as (U1 & _).
  destruct (element_ids_are_unique _ 1 "video" U1) as (U2 & _).
  split; [reflexivity|]. split; [reflexivity|exact U2].
Defined.

End DirectDisable.

(** ** The popup, and the eviction order of the cache *)

Section PopupFacts.
Import Popup.

Lemma currentValue_nonzero (level : JSVal) : currentValue level <> ANum 0.
Proof.
  destruct level as [| |key|n]; try discriminate.
  unfold currentValue, intensityMap.
  destruct (String.eqb key "permissive"); [discriminate|].
  destruct (String.eqb key "moderate"); [discriminate|].
  destruct (String.eqb key "strict"); [discriminate|].
  destruct (arr_includes key JSObject.prototypeKeys); discriminate.
Qed.

(** X15. The slider of the popup never shows the permissive position.
    The value [updateIntensitySlider] computes is never 0, whatever
    the stored level; after it has run, the slider shows 0 only if it
    was left as it was; and when the user chooses position [v] of the
    slider and the update succeeds, the stored level becomes the
    [v]-th of permissive, moderate and strict, while the slider is set
    to [v], except that choosing position 0 sets it to 1. *)
Theorem slider_never_shows_permissive :
  (forall level, currentValue level <> ANum 0)
  /\ (forall st, intensitySlider (updateIntensitySlider st) <> Some (ANum 0)
                 \/ intensitySlider (updateIntensitySlider st)
                    = intensitySlider st)
  /\ (forall st s a v,
        p_settings st = Some s ->
        intensitySlider st = Some a ->
        (0 <= v <= 2)%Z ->
        let st' := handleIntensityChange (Some v) true st in
        p_settings st' = Some (setIntensityLevel (levelOf (Some v)) s)
        /\ levelOf (Some v)
           = nth (Z.to_nat v) [JStr "permissive"; JStr "moderate"; JStr "strict"]
               JUndefined
        /\ intensitySlider st' = Some (ANum (if (v =? 0)%Z then 1 else v))).
Proof.
  split; [exact currentValue_nonzero|]. split.
  - intro st. unfold updateIntensitySlider.
    destruct (intensitySlider st) as [a|] eqn:A; [|now right].
    destruct (p_settings st) as [s|] eqn:S; [|now right].
    left. cbn. intros [= H]. exact (currentValue_nonzero _ H).
  - intros st s a v S A Hv st'. subst st'.
    unfold handleIntensityChange, updateSetting, updateIntensitySlider.
    rewrite S. cbn. rewrite A.
    assert (Hc : (v = 0 \/ v = 1 \/ v = 2)%Z) by lia.
    destruct Hc as [->|[->| ->]]; cbn; repeat split.
Qed.

Lemma arr_includes_In (x : string) (l : list string) :
  arr_includes x l = true <-> In x l.
Proof.
  unfold arr_includes. rewrite existsb_exists. split.
  - intros (y & Hy & E). apply String.eqb_eq in E. now subst.
  - intro H. exists x. split; [exact H|apply String.eqb_refl].
Qed.

Lemma count_occ_not_included (x : string) (l : list string) :
  arr_includes x l = false -> count_occ string_dec l x = 0.
Proof.
  intro H. apply count_occ_not_In. intro Hin.
  apply arr_includes_In in Hin. congruence.
Qed.

(** [splice] at the index [indexOf] answers takes out the first
    occurrence. *)
Lemma splice_first (x : string) (l : list string) :
  In x l ->
  exists pre post,
    l = pre ++ x :: post
    /\ ~ In x pre
    /\ splice1 (indexOf x l) l = pre ++ post.
Proof.
  induction l as [|y l IH]; intro H; [contradiction|].
  simpl. destruct (String.eqb y x) eqn:E.
  - apply String.eqb_eq in E. subst y.
    exists [], l. repeat split; auto.
  - apply String.eqb_neq in E.
    destruct H as [H|H]; [congruence|].
    destruct (IH H) as (pre & post & Hl & Hn & Hs).
    exists (y :: pre), post. split; [simpl; now rewrite <- Hl|].
    split; [intros [Hy|Hp]; [congruence|contradiction]|].
    destruct (indexOf x l) as [i|] eqn:I.
    + simpl. simpl in Hs. now rewrite Hs.
    + exfalso. clear - H I.
      induction l as [|z l IHl]; [contradiction|].
      simpl in I. destruct (String.eqb z x) eqn:Ez; [discriminate|].
      apply String.eqb_neq in Ez.
      destruct H as [H|H]; [congruence|].
      destruct (indexOf x l); [discriminate|]. auto.
Qed.

Lemma split_at_last (x : string) (l pre post : list string) :
  ~ In x l -> l ++ [x] = pre ++ x :: post -> pre = l /\ post = [].
Proof.
  revert pre. induction l as [|y l IH]; intros pre Hnot Hl.
  - destruct pre as [|p pre]; simpl in Hl.
    + injection Hl as <-. auto.
    + injection Hl as _ Hl. destruct pre; discriminate.
  - destruct pre as [|p pre]; simpl in Hl.
    + injection Hl as Hy _. subst y. exfalso. apply Hnot. now left.
    + injection Hl as Hp Hl. subst p.
      destruct (IH pre) as [-> ->]; auto.
      intro H. apply Hnot. now right.
Qed.

(** X16. The allow-list button toggles the current domain.  The list
    [handleWhitelistToggle] sends holds the domain once when the
    stored list did not hold it, and one time fewer than the stored
    list otherwise; every other entry occurs as often as before.  For
    a stored list that holds the domain at most once, membership of
    the domain flips, and adding a domain and toggling again gives
    back the stored list.  With a current domain that is not empty and
    settings present, a successful update stores the list that was
    sent, and a failed one changes nothing. *)
Theorem whitelist_toggle_flips_membership (domain : string)
    (l : list string) :
  let l' := toggledDomains domain l in
  count_occ string_dec l' domain
  = match count_occ string_dec l domain with
    | 0 => 1
    | S k => k
    end
  /\ (forall x, x <> domain ->
        count_occ string_dec l' x = count_occ string_dec l x)
  /\ (count_occ string_dec l domain <= 1 ->
      arr_includes domain l' = negb (arr_includes domain l))
  /\ (arr_includes domain l = false -> toggledDomains domain l' = l)
  /\ (forall st s,
        p_currentDomain st = Some domain ->
        domain <> "" ->
        p_settings st = Some s ->
        ps_whitelistedDomains s = l ->
        p_settings (handleWhitelistToggle true st)
        = Some (setWhitelistedDomains l' s)
        /\ handleWhitelistToggle false st = st).
Proof.
  intro l'.
  assert (Hcount :
    count_occ string_dec l' domain
    = match count_occ string_dec l domain with 0 => 1 | S k => k end
    /\ forall x, x <> domain ->
         count_occ string_dec l' x = count_occ string_dec l x).
  { subst l'. unfold toggledDomains.
    destruct (arr_includes domain l) eqn:Hin.
    - apply arr_includes_In in Hin.
      destruct (splice_first domain l Hin) as (pre & post & Hl & Hn & Hs).
      rewrite Hs. clear Hs. subst l.
      split.
      + rewrite !count_occ_app. simpl.
        destruct (string_dec domain domain); [|congruence].
        rewrite (proj1 (count_occ_not_In string_dec pre domain) Hn).
        reflexivity.
      + intros x Hx. rewrite !count_occ_app. simpl.
        destruct (string_dec domain x); [congruence|reflexivity].
    - rewrite (count_occ_not_included domain l Hin).
      split.
      + rewrite count_occ_app, (count_occ_not_included domain l Hin). simpl.
        destruct (string_dec domain domain); [reflexivity|congruence].
      + intros x Hx. rewrite count_occ_app. simpl.
        destruct (string_dec domain x); [congruence|lia]. }
  destruct Hcount as [Hc Ho].
  split; [exact Hc|]. split; [exact Ho|]. split; [|split].
  - intro Hle.
    destruct (arr_includes domain l) eqn:Hin; simpl.
    + apply arr_includes_In in Hin.
      apply (count_occ_In string_dec) in Hin.
      assert (H0 : count_occ string_dec l' domain = 0).
      { rewrite Hc. destruct (count_occ string_dec l domain) as [|[|k]]; lia. }
      apply count_occ_not_In in H0.
      destruct (arr_includes domain l') eqn:Hin'; [|reflexivity].
      apply arr_includes_In in Hin'. contradiction.
    + assert (H1 : count_occ string_dec l' domain = 1).
      { rewrite Hc. now rewrite (count_occ_not_included domain l Hin). }
      apply arr_includes_In. apply (count_occ_In string_dec). lia.
  - intro Hin. subst l'. unfold toggledDomains at 2. rewrite Hin.
    unfold toggledDomains.
    assert (Hi : arr_includes domain (l ++ [domain]) = true).
    { apply arr_includes_In. apply in_or_app. right. now left. }
    rewrite Hi.
    assert (Hnot : ~ In domain l).
    { intro H. apply arr_includes_In in H. congruence. }
    destruct (splice_first domain (l ++ [domain]))
      as (pre & post & Hl & Hn & Hs).
    { apply in_or_app. right. now left. }
    rewrite Hs.
    assert (Hpre : pre = l /\ post = [])
      by (apply (split_at_last domain l pre post Hnot Hl)).
    destruct Hpre as [-> ->]. apply app_nil_r.
  - intros st s D Hne S W.
    unfold handleWhitelistToggle, updateSetting. rewrite D, S.
    apply String.eqb_neq in Hne. rewrite Hne, W.
    split; reflexivity.
Qed.

End PopupFacts.

Section CachePolicy.
Import Classifier Scenarios.

(** X17. The classification cache evicts in order of insertion.
    Inserting a key that is not cached into a cache of 500 entries
    drops the entry that was inserted first and puts the new one last,
    so that a later lookup of the dropped key finds only what the rest
    of the cache holds for it.  A hit does not count as a use: a
    classification answered from the cache returns the cached answer
    and leaves the cache, and with it the order of eviction, as it
    was. *)
Theorem cache_eviction_is_first_in_first_out
    (k : JSVal) (v : bool) (c : Cache) :
  map_size c = 500 ->
  map_get k c = None ->
  cacheInsert k v c = tl c ++ [(k, v)]
  /\ map_get (map_first_key c) (cacheInsert k v c)
     = map_get (map_first_key c) (tl c)
  /\ (forall el key cached,
        cacheKey el = Ok key ->
        map_get key c = Some cached ->
        isUIElement el c = (Ok cached, c)).
Proof.
  intros Hsize Hmiss.
  assert (E : cacheInsert k v c = tl c ++ [(k, v)]).
  { unfold cacheInsert. cbv zeta.
    rewrite (map_size_set_miss k v c Hmiss).
    unfold map_size in *. rewrite length_app, Hsize. simpl.
    destruct c as [|[k0 v0] c']; [discriminate|].
    simpl. now rewrite JSVal_eqb_refl. }
  split; [exact E|]. split.
  - rewrite E.
    destruct c as [|[k0 v0] c']; [discriminate|]. simpl.
    destruct (map_get k0 c') as [b|] eqn:G.
    + now apply map_get_app.
    + assert (Hk : JSVal_eqb k0 k = false).
      { destruct (JSVal_eqb k0 k) eqn:Ek; [|reflexivity].
        apply JSVal_eqb_eq in Ek. subst k0.
        simpl in Hmiss. now rewrite JSVal_eqb_refl in Hmiss. }
      clear - G Hk. induction c' as [|[k1 v1] c' IH]; simpl in *.
      * now rewrite Hk.
      * destruct (JSVal_eqb k0 k1); [discriminate|auto].
  - intros el key cached K G. unfold isUIElement. now rewrite K, G.
Qed.

Lemma cache_eviction_is_first_in_first_out_witness :
  let c := cacheInsert (JStr "k") true fullCache in
  c = tl fullCache ++ [(JStr "k", true)]
  /\ map_get (JNum 1) c = None.
Proof.
  destruct (cache_eviction_is_first_in_first_out (JStr "k") true fullCache)
    as (A & B & _); [reflexivity|reflexivity|].
  split; [exact A|exact B].
Defined.

End CachePolicy.

(** ** Debounced calls *)

Section DebounceFacts.
Import Debounce.
Variable Args : Type.
Variable wait : Z.


Lemma run_snoc
    (events : list (Debounce.Event Args)) (ev : Debounce.Event Args)
    (st : Debounce.State Args) :
  run Args wait (events ++ [ev]) st
  = step Args wait ev (run Args wait events st).
Proof.
  revert st. induction events as [|e events IH]; intro st; simpl; auto.
Qed.

Lemma call_replaces (now : Z) (a : Args) (st : Debounce.State Args) :
  (pendingTimers Args st = []
   \/ exists t, pendingTimers Args st = [t]
                /\ timeout Args st = Some (timerId Args t)) ->
  pendingTimers Args (executedFunction Args wait now a st)
  = [mkTimer Args (nextTimerId Args st) (now + wait) a].
Proof.
  intros [H|(t & H & Ht)]; unfold executedFunction; cbn; rewrite H.
  - destruct (timeout Args st); reflexivity.
  - rewrite Ht. cbn. now rewrite Nat.eqb_refl.
Qed.

Lemma elapse_cases (now : Z) (st : Debounce.State Args) :
  (pendingTimers Args st = []
   \/ exists t, pendingTimers Args st = [t]
                /\ timeout Args st = Some (timerId Args t)) ->
  elapse Args now st = st
  \/ exists t,
       pendingTimers Args st = [t]
       /\ (due Args t <= now)%Z
       /\ invoked Args (elapse Args now st)
          = invoked Args st ++ [(now, captured Args t)]
       /\ pendingTimers Args (elapse Args now st) = []
       /\ timeout Args (elapse Args now st) = timeout Args st.
Proof.
  intros [H|(t & H & Ht)]; unfold elapse; rewrite H; cbn.
  - now left.
  - destruct (due Args t <=? now)%Z eqn:E; [|now left].
    right. exists t. split; [reflexivity|].
    split; [now apply Z.leb_le|].
    cbn [runTimers]. unfold isPending. rewrite H. cbn [existsb].
    rewrite Nat.eqb_refl. cbn [orb]. unfold later. cbn.
    rewrite Nat.eqb_refl. cbn.
    destruct (timeout Args st); auto.
Qed.

Lemma settled_run (events : list (Debounce.Event Args)) :
  settled Args wait events (run Args wait events (fresh Args)).
Proof.
  induction events as [|ev events IH] using rev_ind.
  - unfold settled. cbn. split; [now left|].
    split; [intros t []|]. split; [intros T a []|lia].
  - rewrite run_snoc.
    set (st := run Args wait events (fresh Args)) in *.
    destruct IH as (J & P & R & C).
    assert (Hin : forall e, In e events -> In e (events ++ [ev])).
    { intros e He. apply in_or_app. now left. }
    destruct ev as [now a|now]; cbn [step].
    + pose proof (call_replaces now a st J) as Hp.
      unfold settled. rewrite Hp.
      split.
      { right. eexists. split; [reflexivity|]. reflexivity. }
      split.
      { intros t [<-|[]]. cbn. exists now. split; [|reflexivity].
        apply in_or_app. right. now left. }
      split.
      { intros T b Hb. cbn in Hb. destruct (R T b Hb) as (tc & Hc & Hle).
        exists tc. auto. }
      rewrite filter_app, length_app.
      change (invoked Args (executedFunction Args wait now a st))
        with (invoked Args st).
      cbn [length filter isCall]. lia.
    + destruct (elapse_cases now st J) as [E|(t & Ht & Hdue & Hi & Hp & Hto)].
      * rewrite E. unfold settled.
        split; [exact J|].
        split.
        { intros t Ht. destruct (P t Ht) as (tc & Hc & Hd). exists tc. auto. }
        split.
        { intros T b Hb. destruct (R T b Hb) as (tc & Hc & Hle).
          exists tc. auto. }
        rewrite filter_app, length_app. cbn. lia.
      * unfold settled. rewrite Hp, Hi.
        split; [now left|]. split; [intros u []|].
        split.
        { intros T b Hb. apply in_app_or in Hb.
          destruct Hb as [Hb|[Hb|[]]].
          - destruct (R T b Hb) as (tc & Hc & Hle). exists tc. auto.
          - injection Hb as <- <-.
            destruct (P t) as (tc & Hc & Hd); [rewrite Ht; now left|].
            exists tc. split; [auto|lia]. }
        rewrite filter_app, !length_app. cbn.
        rewrite Ht in C. cbn in C. lia.
Qed.

(** X18. A debounced function runs at most once per burst of calls,
    and only after the burst.  After any sequence of calls and timer
    runs, at most one timer is pending; every run of the function was
    made with the arguments of an earlier call, no sooner than [wait]
    after that call; and runs and pending timers together are no more
    than the calls.  A further call runs nothing and replaces whatever
    was pending by one timer, due [wait] later, with the arguments of
    that call.  When the host runs its timers, either nothing happens,
    or the one pending timer was due, the function runs once with the
    arguments of that timer, and nothing is pending. *)
Theorem debounce_runs_once_after_the_last_call
    (events : list (Debounce.Event Args)) :
  let st := run Args wait events (fresh Args) in
  length (pendingTimers Args st) <= 1
  /\ (forall T a, In (T, a) (invoked Args st) ->
        exists tc, In (Called Args tc a) events /\ (tc + wait <= T)%Z)
  /\ length (invoked Args st) + length (pendingTimers Args st)
     <= length (filter (isCall Args) events)
  /\ (forall now a,
        invoked Args (executedFunction Args wait now a st) = invoked Args st
        /\ pendingTimers Args (executedFunction Args wait now a st)
           = [mkTimer Args (nextTimerId Args st) (now + wait) a])
  /\ (forall now,
        elapse Args now st = st
        \/ exists t,
             pendingTimers Args st = [t]
             /\ (due Args t <= now)%Z
             /\ invoked Args (elapse Args now st)
                = invoked Args st ++ [(now, captured Args t)]
             /\ pendingTimers Args (elapse Args now st) = []).
Proof.
  intro st. destruct (settled_run events) as (J & P & R & C). fold st in J, P, R, C.
  split.
  { destruct J as [->|(t & -> & _)]; cbn; lia. }
  split; [exact R|]. split; [exact C|]. split.
  - intros now a. split; [reflexivity|apply (call_replaces now a st J)].
  - intro now.
    destruct (elapse_cases now st J) as [E|(t & Ht & Hdue & Hi & Hp & _)];
      [now left|right; exists t; auto].
Qed.

End DebounceFacts.
